(** * The elasticsearch plugin: indexing pipeline

    A shallow embedding of [plugins/elasticsearch_plugin/elasticsearch_plugin.cpp]
    (class [elasticsearch_plugin_impl]) and the properties of its filter, ABI
    cache, account projection, start-block gate and staging queue.

    The worker's operations are state-passing functions over the mutable
    fields of the class.  What they send to the search store is kept as a
    history of requests; what the store answers to a search is a parameter
    ([Env]), as are the clock, the decoders of action payloads and the
    rendering of objects through an ABI, all of which live outside this
    source file.  Decoding failures are modelled ([option]); the requests
    themselves are taken to succeed, a failed one ending in
    [handle_elasticsearch_exception] and the shutdown of the node. *)

From Stdlib Require Import ZArith Ascii.
From stdpp Require Import base decidable countable gmap sets list strings pretty sorting.

Open Scope Z_scope.
Set Warnings "-register-all".

(** ** Names

    [chain::name] wraps a [uint64_t]; [account_name], [action_name] and
    [permission_name] are aliases of it.  The plugin compares names and prints
    them; it does no arithmetic on them. *)

Abbreviation name := N (only parsing).
Abbreviation account_name := N (only parsing).
Abbreviation action_name := N (only parsing).
Abbreviation permission_name := N (only parsing).
Abbreviation bytes := (list N) (only parsing).

Module Name.

(** Modelled from the spec: the base-32 text form of [chain::name] ([name.hpp]
    is not among the plugin sources): [char_to_symbol] and [string_to_name]
    read a name, [to_string] prints it over the alphabet
    [.12345abcdefghijklmnopqrstuvwxyz] and trims trailing dots. *)
Definition char_to_symbol (c : ascii) : N :=
  let n := N_of_ascii c in
  if ((97 <=? n) && (n <=? 122))%N then (n - 97 + 6)%N
  else if ((49 <=? n) && (n <=? 53))%N then (n - 49 + 1)%N
  else 0%N.

Fixpoint string_to_name_from (i : nat) (s : string) : N :=
  match s with
  | EmptyString => 0%N
  | String c rest =>
      if (i <? 12)%nat then
        N.lor (N.shiftl (N.land (char_to_symbol c) 31) (N.of_nat (64 - 5 * (i + 1))))
              (string_to_name_from (S i) rest)
      else if (i =? 12)%nat then N.land (char_to_symbol c) 15
      else 0%N
  end.

Definition string_to_name (s : string) : N := string_to_name_from 0 s.

Definition charmap (k : N) : ascii :=
  if (k =? 0)%N then "."%char
  else if (k <=? 5)%N then ascii_of_N (48 + k)
  else ascii_of_N (97 + (k - 6)).

(** The thirteen characters, most significant first: twelve of five bits
    and a last one of four. *)
Fixpoint chars_msb (k : nat) (tmp : N) : list ascii :=
  match k with
  | O => []
  | S j => chars_msb j (N.shiftr tmp 5) ++ [charmap (N.land tmp 31)]
  end.

Definition chars (n : name) : list ascii :=
  chars_msb 12 (N.shiftr n 4) ++ [charmap (N.land n 15)].

Fixpoint trim_right_dots (l : list ascii) : list ascii :=
  match l with
  | [] => []
  | c :: rest =>
      match trim_right_dots rest with
      | [] => if Ascii.eqb c "." then [] else [c]
      | r => c :: r
      end
  end.

Definition to_string (n : name) : string :=
  String.string_of_list_ascii (trim_right_dots (chars n)).

(** [name::good()]: the name is not empty. *)
Definition good (n : name) : bool := negb (n =? 0)%N.

End Name.

Definition system_account_name : account_name :=
  Eval vm_compute in Name.string_to_name "eosio".
Definition newaccount : action_name := Eval vm_compute in Name.string_to_name "newaccount".
Definition setabi : action_name := Eval vm_compute in Name.string_to_name "setabi".
Definition updateauth : action_name := Eval vm_compute in Name.string_to_name "updateauth".
Definition deleteauth : action_name := Eval vm_compute in Name.string_to_name "deleteauth".
Definition owner : permission_name := Eval vm_compute in Name.string_to_name "owner".
Definition active : permission_name := Eval vm_compute in Name.string_to_name "active".

Definition block_states_type : string := "block_states".
Definition blocks_type : string := "blocks".
Definition trans_type : string := "transactions".
Definition trans_traces_type : string := "transaction_traces".
Definition action_traces_type : string := "action_traces".
Definition accounts_type : string := "accounts".
Definition pub_keys_type : string := "pub_keys".
Definition account_controls_type : string := "account_controls".

(** ** Chain data: actions, traces, blocks *)

Record permission_level := {
  actor : account_name;
  permission : permission_name
}.

Record action := {
  act_account : account_name;
  act_name : action_name;
  act_authorization : list permission_level;
  act_data : bytes
}.

Definition with_authorization (a : action) (p : list permission_level) : action :=
  {| act_account := act_account a; act_name := act_name a;
     act_authorization := p; act_data := act_data a |}.

(** An action trace: the receiver of its receipt, the action, and the traces
    of the inline actions it spawned. *)
Inductive action_trace :=
| Action_trace (receiver : account_name) (act : action) (inline_traces : list action_trace).

Definition receipt_receiver (a : action_trace) : account_name :=
  match a with Action_trace r _ _ => r end.
Definition trace_act (a : action_trace) : action :=
  match a with Action_trace _ x _ => x end.
Definition inline_traces (a : action_trace) : list action_trace :=
  match a with Action_trace _ _ l => l end.

Module transaction_receipt_header.
Inductive status_enum := executed | soft_fail | hard_fail | delayed | expired.
Definition eqb (a b : status_enum) : bool :=
  match a, b with
  | executed, executed | soft_fail, soft_fail | hard_fail, hard_fail
  | delayed, delayed | expired, expired => true
  | _, _ => false
  end.
End transaction_receipt_header.

Record transaction_trace := {
  trx_id : string;
  trx_receipt : option transaction_receipt_header.status_enum;
  action_traces : list action_trace
}.

(** A block state; of the signed block it keeps the previous id and the
    actions of its transactions in block order.  [block_num] is a [uint32_t]. *)
Record block_state := {
  block_num : Z;
  block_id : string;
  block_previous : string;
  validated : bool;
  in_current_chain : bool;
  block_actions : list action
}.

(** Payloads of the system actions the projector reads. *)
Record key_weight := { kw_key : string; kw_weight : Z }.
Record permission_level_weight := { plw_permission : permission_level; plw_weight : Z }.
Record authority := {
  auth_threshold : Z;
  auth_keys : list key_weight;
  auth_accounts : list permission_level_weight
}.
Record newaccount_t := {
  na_creator : account_name;
  na_name : account_name;
  na_owner : authority;
  na_active : authority
}.
Record updateauth_t := {
  ua_account : account_name;
  ua_permission : permission_name;
  ua_parent : permission_name;
  ua_auth : authority
}.
Record deleteauth_t := { da_account : account_name; da_permission : permission_name }.
Record setabi_t := { sa_account : account_name; sa_abi : bytes }.

(** ** ABI definitions and serializers *)

Record field_def := { field_name : string; field_type : string }.
Record struct_def := {
  struct_name : string;
  struct_base : string;
  struct_fields : list field_def
}.
Record abi_def := { abi_version : string; abi_structs : list struct_def }.

(** An [abi_serializer]: the ABI it was set from, and whether the specialised
    unpacker for the type [abi_def] was registered on it. *)
Record abi_serializer := {
  ser_abi : abi_def;
  ser_unpacks_abi_def : bool
}.

(** ** Variants (JSON values) *)

Inductive variant :=
| V_null
| V_bool (b : bool)
| V_int (z : Z)
| V_string (s : string)
| V_abi (a : abi_def)
| V_array (l : list variant)
| V_object (fields : list (string * variant)).

Fixpoint assoc (k : string) (fields : list (string * variant)) : option variant :=
  match fields with
  | [] => None
  | (k', v) :: rest => if String.eqb k' k then Some v else assoc k rest
  end.

(** [v[key]]: [None] stands for the exception it throws when [v] is not an
    object or has no such key. *)
Definition variant_get (v : variant) (k : string) : option variant :=
  match v with
  | V_object fields => assoc k fields
  | _ => None
  end.

(** [v.as_string()]: objects and arrays have no string form. *)
Definition as_string (v : variant) : option string :=
  match v with
  | V_null => Some EmptyString
  | V_bool b => Some (if b then "true" else "false")%string
  | V_int z => Some (pretty z)
  | V_string s => Some s
  | V_abi _ | V_array _ | V_object _ => None
  end.

(** [v.as<abi_def>()]. *)
Definition as_abi_def (v : variant) : option abi_def :=
  match v with
  | V_abi a => Some a
  | _ => None
  end.

(** [doc[k] = v] on a [mutable_variant_object]. *)
Fixpoint mvo_set (k : string) (v : variant) (fields : list (string * variant))
  : list (string * variant) :=
  match fields with
  | [] => [(k, v)]
  | (k', v') :: rest =>
      if String.eqb k' k then (k, v) :: rest else (k', v') :: mvo_set k v rest
  end.

(** ** Filter *)

Record filter_entry := {
  fe_receiver : name;
  fe_action : name;
  fe_actor : name
}.

Definition key (e : filter_entry) : name * name * name :=
  (fe_receiver e, fe_action e, fe_actor e).

Definition of_key (k : name * name * name) : filter_entry :=
  {| fe_receiver := k.1.1; fe_action := k.1.2; fe_actor := k.2 |}.

#[global] Instance filter_entry_eq_dec : EqDecision filter_entry.
Proof. solve_decision. Defined.

#[global] Instance filter_entry_countable : Countable filter_entry :=
  inj_countable' key of_key
    (λ e, match e with Build_filter_entry _ _ _ => eq_refl end).

(** The configuration fields of [elasticsearch_plugin_impl]. *)
Record config := {
  start_block_num : Z;
  filter_on_star : bool;
  filter_on : gset filter_entry;
  filter_out : gset filter_entry;
  store_blocks : bool;
  store_block_states : bool;
  store_transactions : bool;
  store_transaction_traces : bool;
  store_action_traces : bool;
  index_name : string;
  max_queue_size : nat;
  abi_cache_size : nat
}.

Definition fe (r a c : name) : filter_entry :=
  {| fe_receiver := r; fe_action := a; fe_actor := c |}.

(** [s.find(e) != s.end()]. *)
Definition found (s : gset filter_entry) (e : filter_entry) : bool :=
  bool_decide (e ∈ s).

(** The [for] loops over [act.authorization]: each stops at the first
    authorizer whose entry is in the set. *)
Fixpoint any_authorizer (s : gset filter_entry) (account nm : name)
    (auth : list permission_level) : bool :=
  match auth with
  | [] => false
  | a :: rest =>
      if found s (fe account nm (actor a)) then true
      else any_authorizer s account nm rest
  end.

Definition filter_include (c : config) (act : action) : bool :=
  let include :=
    if filter_on_star c || found (filter_on c) (fe (act_account act) (act_name act) 0%N)
    then true
    else any_authorizer (filter_on c) (act_account act) (act_name act)
           (act_authorization act) in
  if negb include then false
  else if found (filter_out c) (fe (act_account act) 0%N 0%N) then false
  else if found (filter_out c) (fe (act_account act) (act_name act) 0%N) then false
  else if any_authorizer (filter_out c) (act_account act) (act_name act)
            (act_authorization act) then false
  else true.

(** The filter as the specification words it. *)
Definition candidate (c : config) (a : action) : Prop :=
  filter_on_star c = true
  ∨ fe (act_account a) (act_name a) 0%N ∈ filter_on c
  ∨ ∃ x, x ∈ act_authorization a ∧ fe (act_account a) (act_name a) (actor x) ∈ filter_on c.

Definition dropped (c : config) (a : action) : Prop :=
  fe (act_account a) 0%N 0%N ∈ filter_out c
  ∨ fe (act_account a) (act_name a) 0%N ∈ filter_out c
  ∨ ∃ x, x ∈ act_authorization a ∧ fe (act_account a) (act_name a) (actor x) ∈ filter_out c.

(** ** The search client and the plugin state *)

Inductive query :=
| Term (field value : string)
| Bool_must (terms : list (string * string)).

(** Requests sent through [elastic_client]. *)
Inductive es_request :=
| Search (type : string) (q : query)
| Index (type : string) (json : variant) (id : option string)
| Bulk_perform (index : string) (docs : list (string * variant))
| Delete_by_query (type : string) (q : query).

(** What the worker did, oldest first: the requests it sent, and two marks
    that order them against the projector: each call of [update_account] and
    each [abi_cache_index.erase]. *)
Inductive event :=
| Es (r : es_request)
| Update_account_called (act : action)
| Abi_cache_erased (n : account_name).

(** The requests of a history. *)
Definition es_requests (h : list event) : list es_request :=
  omap (λ e, match e with Es r => Some r | _ => None end) h.

Record abi_cache := {
  account : account_name;
  last_accessed : Z;
  serializer : option abi_serializer
}.

(** The mutable fields of [elasticsearch_plugin_impl].  [abi_cache_index] is
    kept in the order of its [by_last_access] index; [clock] counts the
    readings of [fc::time_point::now()]; [slept] adds up what producers spent
    in [sleep_for]; [quit] records [app().quit()]. *)
Record state := {
  start_block_reached : bool;
  queue_sleep_time : Z;
  abi_cache_index : list abi_cache;
  history : list event;
  clock : nat;
  slept : Z;
  quit : bool
}.

Definition set_start_block_reached (b : bool) (st : state) : state :=
  {| start_block_reached := b; queue_sleep_time := queue_sleep_time st;
     abi_cache_index := abi_cache_index st; history := history st;
     clock := clock st; slept := slept st; quit := quit st |}.
Definition set_queue_sleep_time (z : Z) (st : state) : state :=
  {| start_block_reached := start_block_reached st; queue_sleep_time := z;
     abi_cache_index := abi_cache_index st; history := history st;
     clock := clock st; slept := slept st; quit := quit st |}.
Definition set_abi_cache_index (c : list abi_cache) (st : state) : state :=
  {| start_block_reached := start_block_reached st;
     queue_sleep_time := queue_sleep_time st;
     abi_cache_index := c; history := history st;
     clock := clock st; slept := slept st; quit := quit st |}.
Definition set_history (h : list event) (st : state) : state :=
  {| start_block_reached := start_block_reached st;
     queue_sleep_time := queue_sleep_time st;
     abi_cache_index := abi_cache_index st; history := h;
     clock := clock st; slept := slept st; quit := quit st |}.
Definition set_clock (k : nat) (st : state) : state :=
  {| start_block_reached := start_block_reached st;
     queue_sleep_time := queue_sleep_time st;
     abi_cache_index := abi_cache_index st; history := history st;
     clock := k; slept := slept st; quit := quit st |}.
Definition set_slept (z : Z) (st : state) : state :=
  {| start_block_reached := start_block_reached st;
     queue_sleep_time := queue_sleep_time st;
     abi_cache_index := abi_cache_index st; history := history st;
     clock := clock st; slept := z; quit := quit st |}.
Definition set_quit (b : bool) (st : state) : state :=
  {| start_block_reached := start_block_reached st;
     queue_sleep_time := queue_sleep_time st;
     abi_cache_index := abi_cache_index st; history := history st;
     clock := clock st; slept := slept st; quit := b |}.

(** What [to_variant_with_abi] is applied to. *)
Inductive reflected :=
| R_action_trace (receiver : account_name) (act : action)
| R_transaction_trace (t : transaction_trace)
| R_block (bs : block_state).

(** The collaborators of the plugin that live outside its source file. *)
Class Env := {
  (** [fc::time_point::now()] in microseconds, at its k-th reading. *)
  now : nat → Z;
  (** The hits [elastic_client->search] answers with, after the requests
      sent so far. *)
  search : list es_request → string → query → list variant;
  (** [act.data_as<T>()] and [fc::raw::unpack<abi_def>]; [None] when they
      throw. *)
  unpack_newaccount : bytes → option newaccount_t;
  unpack_updateauth : bytes → option updateauth_t;
  unpack_deleteauth : bytes → option deleteauth_t;
  unpack_setabi : bytes → option setabi_t;
  unpack_abi_def : bytes → option abi_def;
  (** Whether [abi_serializer::set_abi] accepts the ABI. *)
  set_abi_ok : abi_def → bool;
  (** Modelled from the spec: [abi_serializer::to_variant], the object it
      renders given the serializers the resolver answered with, one per
      nested action. *)
  to_variant : reflected → list (option abi_serializer) → list (string * variant);
  (** [fc::variant( bs )] for a block state. *)
  block_header_state_variant : block_state → variant
}.

(** State passing: a computation reads and updates the plugin state. *)
Definition M (A : Type) : Type := state → A * state.

Definition ret {A} (a : A) : M A := λ st, (a, st).
Definition bind {A B} (m : M A) (k : A → M B) : M B :=
  λ st, let (a, st') := m st in k a st'.

Notation "'let*' x := m 'in' k" := (bind m (λ x, k))
  (at level 10, x name, m at level 100, k at level 200).
Notation "'let*' ' p := m 'in' k" := (bind m (λ x, let 'p := x in k))
  (at level 10, p strict pattern, m at level 100, k at level 200).
Notation "m ;;; k" := (bind m (λ _, k))
  (at level 100, k at level 200, right associativity).

Definition get {A} (f : state → A) : M A := λ st, (f st, st).
Definition modify_state (f : state → state) : M unit := λ st, (tt, f st).
Definition record (e : event) : M unit :=
  modify_state (λ st, set_history (history st ++ [e]) st).
Definition when (b : bool) (m : M unit) : M unit := if b then m else ret tt.

(** [duration_cast<milliseconds>] of a count of microseconds. *)
Definition to_milliseconds (us : Z) : Z := Z.quot us 1000.

(** [static_cast<int32_t>] of a [uint32_t]. *)
Definition to_int32 (z : Z) : Z :=
  if z <? 2 ^ 31 then z else z - 2 ^ 32.

(** Arithmetic on [int]: the result taken modulo 2^32 into the signed range. *)
Definition int_max : Z := 2 ^ 31 - 1.
Definition wrap_int (z : Z) : Z := (z + 2 ^ 31) mod 2 ^ 32 - 2 ^ 31.

(** What a run of cache traffic is made of: a lookup, or the projection of an
    action (a [setabi] invalidates). *)
Inductive cache_op :=
| Get_abi_serializer (n : account_name)
| Setabi (act : action).

(** *** The ABI cache as a [multi_index_container]

    The list is the [by_last_access] index ([ordered_non_unique]): ascending
    [last_accessed], an inserted entry going after its equals.  The
    [by_account] index ([ordered_unique]) is the lookup by [account]. *)

Definition cache_find (n : account_name) (idx : list abi_cache) : option abi_cache :=
  List.find (λ e, (account e =? n)%N) idx.

Fixpoint link (e : abi_cache) (idx : list abi_cache) : list abi_cache :=
  match idx with
  | [] => [e]
  | x :: rest =>
      if last_accessed e <? last_accessed x then e :: x :: rest
      else x :: link e rest
  end.

(** [insert]: refused when the account is already there. *)
Definition cache_insert (e : abi_cache) (idx : list abi_cache) : list abi_cache :=
  match cache_find (account e) idx with
  | Some _ => idx
  | None => link e idx
  end.

Definition touch (t : Z) (e : abi_cache) : abi_cache :=
  {| account := account e; last_accessed := t; serializer := serializer e |}.

(** [modify] with [entry.last_accessed = t]: the entry keeps its place when
    that still fits between its neighbours, and is linked anew otherwise. *)
Fixpoint cache_modify (n : account_name) (t : Z) (before : list abi_cache)
    (idx : list abi_cache) : list abi_cache :=
  match idx with
  | [] => before
  | x :: after =>
      if (account x =? n)%N then
        let in_place :=
          match last before with
          | Some p => negb (t <? last_accessed p)
          | None => true
          end
          && match after with
             | y :: _ => negb (last_accessed y <? t)
             | [] => true
             end in
        if in_place then before ++ touch t x :: after
        else link (touch t x) (before ++ after)
      else cache_modify n t (before ++ [x]) after
  end.

(** [erase( n )] on the [by_account] index. *)
Definition cache_erase (n : account_name) (idx : list abi_cache) : list abi_cache :=
  List.filter (λ e, negb (account e =? n)%N) idx.

(** In the system account's ABI, the field [abi] of the struct [setabi] goes
    from [bytes] to [abi_def]; the flag tells whether it did. *)
Fixpoint redefine_abi_field (fs : list field_def) : list field_def * bool :=
  match fs with
  | [] => ([], false)
  | f :: rest =>
      if String.eqb (field_name f) "abi" then
        if String.eqb (field_type f) "bytes"
        then ({| field_name := field_name f; field_type := "abi_def" |} :: rest, true)
        else (f :: rest, false)
      else let (rest', b) := redefine_abi_field rest in (f :: rest', b)
  end.

Fixpoint redefine_setabi (ss : list struct_def) : list struct_def * bool :=
  match ss with
  | [] => ([], false)
  | s :: rest =>
      if String.eqb (struct_name s) "setabi" then
        let (fs, b) := redefine_abi_field (struct_fields s) in
        ({| struct_name := struct_name s; struct_base := struct_base s;
            struct_fields := fs |} :: rest, b)
      else let (rest', b) := redefine_setabi rest in (s :: rest', b)
  end.

(** ** The worker's operations *)

Section Pipeline.

Context `{Env} (cfg : config).

Definition time_point_now : M Z :=
  λ st, (now (clock st), set_clock (S (clock st)) st).

Definition es_search (type : string) (q : query) : M (list variant) :=
  λ st, (search (es_requests (history st)) type q,
         set_history (history st ++ [Es (Search type q)]) st).
Definition es_index (type : string) (json : variant) (id : option string) : M unit :=
  record (Es (Index type json id)).
Definition es_bulk_perform (docs : list (string * variant)) : M unit :=
  record (Es (Bulk_perform (index_name cfg) docs)).
Definition es_delete_by_query (type : string) (q : query) : M unit :=
  record (Es (Delete_by_query type q)).

(** [app().quit()], asked for by [handle_elasticsearch_exception]. *)
Definition handle_elasticsearch_exception : M unit :=
  modify_state (set_quit true).

Definition purge_abi_cache : M unit :=
  modify_state (λ st,
    if (length (abi_cache_index st) <? abi_cache_size cfg)%nat then st
    else set_abi_cache_index (tail (abi_cache_index st)) st).

(** [hits.total] is the number of hits of the answer. *)
Definition find_account (nm : account_name) : M (option variant) :=
  let* hits := es_search accounts_type (Term "name" (Name.to_string nm)) in
  if negb (Z.of_nat (length hits) =? 1) then ret None
  else ret (hits !! 0%nat).

Definition find_block (id : string) : M (option variant) :=
  let* hits := es_search blocks_type (Term "block_id" id) in
  if negb (Z.of_nat (length hits) =? 1) then ret None
  else ret (hits !! 0%nat ≫= λ h, variant_get h "_source").

(** The account name arrives as text and is read back into a name. *)
Definition search_abi_by_account (nm : string) : M (option variant) :=
  let* res := find_account (Name.string_to_name nm) in
  match res with
  | None => ret None
  | Some res => ret (variant_get res "_source" ≫= λ src, variant_get src "abi")
  end.

Definition get_abi_serializer (n : account_name) : M (option abi_serializer) :=
  if Name.good n then
    let* idx := get abi_cache_index in
    match cache_find n idx with
    | Some entry =>
        let* t := time_point_now in
        modify_state (λ st, set_abi_cache_index
                              (cache_modify n t [] (abi_cache_index st)) st) ;;;
        ret (serializer entry)
    | None =>
        let* abi_v := search_abi_by_account (Name.to_string n) in
        match abi_v with
        | None => ret None
        | Some abi_v =>
            match as_abi_def abi_v with
            | None => ret None
            | Some abi =>
                purge_abi_cache ;;;
                let* t := time_point_now in
                let '(structs, special) :=
                  if (n =? system_account_name)%N
                  then redefine_setabi (abi_structs abi)
                  else (abi_structs abi, false) in
                let abi := {| abi_version := abi_version abi;
                              abi_structs := structs |} in
                if set_abi_ok abi then
                  let abis := {| ser_abi := abi; ser_unpacks_abi_def := special |} in
                  let entry := {| account := n; last_accessed := t;
                                  serializer := Some abis |} in
                  modify_state (λ st, set_abi_cache_index
                                        (cache_insert entry (abi_cache_index st)) st) ;;;
                  ret (Some abis)
                else ret None
            end
        end
    end
  else ret None.

(** Modelled from the spec: [abi_serializer::to_variant] is not among the
    plugin sources; it asks the resolver for the account of every action
    nested in the object, in the order it walks the object. *)
Fixpoint trace_accounts (a : action_trace) : list account_name :=
  match a with
  | Action_trace _ act inlines =>
      act_account act :: flat_map trace_accounts inlines
  end.

Definition resolved_accounts (obj : reflected) : list account_name :=
  match obj with
  | R_action_trace _ act => [act_account act]
  | R_transaction_trace t => flat_map trace_accounts (action_traces t)
  | R_block bs => map act_account (block_actions bs)
  end.

Fixpoint resolve_all (ns : list account_name) : M (list (option abi_serializer)) :=
  match ns with
  | [] => ret []
  | n :: rest =>
      let* r := get_abi_serializer n in
      let* rs := resolve_all rest in
      ret (r :: rs)
  end.

Definition to_variant_with_abi (obj : reflected) : M (list (string * variant)) :=
  let* abis := resolve_all (resolved_accounts obj) in
  ret (to_variant obj abis).

(** *** Account projection *)

Definition add_pub_keys (keys : list key_weight) (nm : account_name)
    (perm : permission_name) (now_ms : Z) : M unit :=
  match keys with
  | [] => ret tt
  | _ =>
      es_bulk_perform
        (map (λ kw, (pub_keys_type,
                     V_object [("account", V_string (Name.to_string nm));
                               ("public_key", V_string (kw_key kw));
                               ("permission", V_string (Name.to_string perm));
                               ("createAt", V_int now_ms)]%string)) keys)
  end.

Definition remove_pub_keys (nm : account_name) (perm : permission_name) : M unit :=
  es_delete_by_query pub_keys_type
    (Bool_must [("account", Name.to_string nm);
                ("permission", Name.to_string perm)]%string).

Definition add_account_control (controlling : list permission_level_weight)
    (nm : account_name) (perm : permission_name) (now_ms : Z) : M unit :=
  match controlling with
  | [] => ret tt
  | _ =>
      es_bulk_perform
        (map (λ c, (account_controls_type,
                    V_object [("controlled_account", V_string (Name.to_string nm));
                              ("controlled_permission", V_string (Name.to_string perm));
                              ("controlling_account",
                               V_string (Name.to_string (actor (plw_permission c))));
                              ("createAt", V_int now_ms)]%string)) controlling)
  end.

Definition remove_account_control (nm : account_name) (perm : permission_name) : M unit :=
  es_delete_by_query account_controls_type
    (Bool_must [("controlled_account", Name.to_string nm);
                ("controlled_permission", Name.to_string perm)]%string).

Definition create_account (nm : account_name) (now_ms : Z) : M unit :=
  es_index accounts_type
    (V_object [("name", V_string (Name.to_string nm));
               ("createAt", V_int now_ms)]%string) None.

(** The document [update_account] builds for a [setabi]; [None] when one of
    [account["name"]], [account["createAt"]] throws. *)
Definition setabi_doc (account : variant) (abi : abi_def) (now_ms : Z) : option variant :=
  match variant_get account "name", variant_get account "createAt" with
  | Some nm, Some created =>
      Some (V_object [("name", nm); ("abi", V_abi abi);
                      ("updateAt", V_int now_ms); ("createAt", created)]%string)
  | _, _ => None
  end.

(** The four branches of [update_account].  Where a branch ends early by
    [ret tt], the source leaves through the [catch( fc::exception& )] that
    closes the function. *)
Definition update_newaccount (act : action) : M unit :=
  let* us := time_point_now in
  let now_ms := to_milliseconds us in
  match unpack_newaccount (act_data act) with
  | None => ret tt
  | Some newacc =>
      create_account (na_name newacc) now_ms ;;;
      add_pub_keys (auth_keys (na_owner newacc)) (na_name newacc) owner now_ms ;;;
      add_account_control (auth_accounts (na_owner newacc)) (na_name newacc) owner now_ms ;;;
      add_pub_keys (auth_keys (na_active newacc)) (na_name newacc) active now_ms ;;;
      add_account_control (auth_accounts (na_active newacc)) (na_name newacc) active now_ms
  end.

Definition update_updateauth (act : action) : M unit :=
  let* us := time_point_now in
  let now_ms := to_milliseconds us in
  match unpack_updateauth (act_data act) with
  | None => ret tt
  | Some update =>
      remove_pub_keys (ua_account update) (ua_permission update) ;;;
      remove_account_control (ua_account update) (ua_permission update) ;;;
      add_pub_keys (auth_keys (ua_auth update)) (ua_account update)
        (ua_permission update) now_ms ;;;
      add_account_control (auth_accounts (ua_auth update)) (ua_account update)
        (ua_permission update) now_ms
  end.

Definition update_deleteauth (act : action) : M unit :=
  match unpack_deleteauth (act_data act) with
  | None => ret tt
  | Some del =>
      remove_pub_keys (da_account del) (da_permission del) ;;;
      remove_account_control (da_account del) (da_permission del)
  end.

(** The upsert that ends the [setabi] branch, given the hit the second
    [find_account] answered with. *)
Definition upsert_abi (account : variant) (abi_bytes : bytes) (now_ms : Z) : M unit :=
  match unpack_abi_def abi_bytes with
  | None => ret tt
  | Some abi =>
      match setabi_doc account abi now_ms with
      | None => ret tt
      | Some doc =>
          match variant_get account "_id" ≫= as_string with
          | Some id => es_index accounts_type doc (Some id)
          | None => handle_elasticsearch_exception
          end
      end
  end.

Definition update_setabi (act : action) : M unit :=
  let* us := time_point_now in
  let now_ms := to_milliseconds us in
  match unpack_setabi (act_data act) with
  | None => ret tt
  | Some sa =>
      record (Abi_cache_erased (sa_account sa)) ;;;
      modify_state (λ st, set_abi_cache_index
                            (cache_erase (sa_account sa) (abi_cache_index st)) st) ;;;
      let* account := find_account (sa_account sa) in
      match account with
      | None => create_account (sa_account sa) now_ms
      | Some _ => ret tt
      end ;;;
      let* account := find_account (sa_account sa) in
      match account with
      | None => ret tt
      | Some account => upsert_abi account (sa_abi sa) now_ms
      end
  end.

(** [update_account]; its first step marks the call in the history. *)
Definition update_account (act : action) : M unit :=
  record (Update_account_called act) ;;;
  if negb (act_account act =? system_account_name)%N then ret tt
  else if (act_name act =? newaccount)%N then update_newaccount act
  else if (act_name act =? updateauth)%N then update_updateauth act
  else if (act_name act =? deleteauth)%N then update_deleteauth act
  else if (act_name act =? setabi)%N then update_setabi act
  else ret tt.

(** *** Applied transactions *)

(** The loops [added |= add_action_trace( ... )] over a list of traces; the
    call is made for every trace, whatever [added] already is. *)
Fixpoint traces_loop
    (visit : list (string * variant) → action_trace → M (bool * list (string * variant)))
    (l : list action_trace) (added : bool) (bulk : list (string * variant))
  : M (bool * list (string * variant)) :=
  match l with
  | [] => ret (added, bulk)
  | atrace :: rest =>
      let* '(a, bulk) := visit bulk atrace in
      traces_loop visit rest (added || a) bulk
  end.

Fixpoint add_action_trace (bulk : list (string * variant)) (atrace : action_trace)
    (executed : bool) (now_ms : Z) {struct atrace}
  : M (bool * list (string * variant)) :=
  match atrace with
  | Action_trace receiver act inlines =>
      when (executed && (receiver =? system_account_name)%N) (update_account act) ;;;
      let* reached := get start_block_reached in
      let* '(added, bulk) :=
        if reached && store_action_traces cfg && filter_include cfg act then
          let* doc := to_variant_with_abi (R_action_trace receiver act) in
          ret (true, bulk ++ [(action_traces_type,
                               V_object (mvo_set "createdAt" (V_int now_ms) doc))])
        else ret (false, bulk) in
      traces_loop (λ bulk iline_atrace,
                     add_action_trace bulk iline_atrace executed now_ms)
        inlines added bulk
  end.

Definition _process_applied_transaction (t : transaction_trace) : M unit :=
  let* us := time_point_now in
  let now_ms := to_milliseconds us in
  let executed :=
    match trx_receipt t with
    | Some status => transaction_receipt_header.eqb status transaction_receipt_header.executed
    | None => false
    end in
  let* '(write_atraces, bulk) :=
    traces_loop (λ bulk atrace, add_action_trace bulk atrace executed now_ms)
      (action_traces t) false [] in
  when write_atraces (es_bulk_perform bulk) ;;;
  let* reached := get start_block_reached in
  if negb reached || negb (store_transaction_traces cfg) then ret tt
  else if negb write_atraces then ret tt
  else
    let* doc := to_variant_with_abi (R_transaction_trace t) in
    es_index trans_traces_type (V_object (mvo_set "createAt" (V_int now_ms) doc)) None.

Definition process_applied_transaction (t : transaction_trace) : M unit :=
  let* reached := get start_block_reached in
  when reached (_process_applied_transaction t).

(** *** Blocks *)

Definition block_state_doc (bs : block_state) (now_ms : Z) : variant :=
  V_object [("block_num", V_int (to_int32 (block_num bs)));
            ("block_id", V_string (block_id bs));
            ("validated", V_bool (validated bs));
            ("in_current_chain", V_bool (in_current_chain bs));
            ("block_header_state", block_header_state_variant bs);
            ("createAt", V_int now_ms)]%string.

Definition block_doc (bs : block_state) (block : list (string * variant))
    (now_ms : Z) : variant :=
  V_object [("block_num", V_int (to_int32 (block_num bs)));
            ("block_id", V_string (block_id bs));
            ("irreversible", V_bool false);
            ("block", V_object block);
            ("createAt", V_int now_ms)]%string.

Definition _process_accepted_block (bs : block_state) : M unit :=
  let* us := time_point_now in
  let now_ms := to_milliseconds us in
  es_index block_states_type (block_state_doc bs now_ms) None ;;;
  if negb (store_blocks cfg) then ret tt
  else
    let* block := to_variant_with_abi (R_block bs) in
    es_index blocks_type (block_doc bs block now_ms) None.

Definition process_accepted_block (bs : block_state) : M unit :=
  let* reached := get start_block_reached in
  when (negb reached)
       (when (start_block_num cfg <=? block_num bs)
             (modify_state (set_start_block_reached true))) ;;;
  let* reached := get start_block_reached in
  when reached (_process_accepted_block bs).

(** The call of [_process_irreversible_block] is commented out. *)
Definition process_irreversible_block (bs : block_state) : M unit :=
  let* reached := get start_block_reached in
  when reached (ret tt).

(** *** The staging queues *)

(** [boost::this_thread::sleep_for]: a negative duration does not sleep. *)
Definition sleep_for (ms : Z) : M unit :=
  modify_state (λ st, set_slept (slept st + Z.max 0 ms) st).

(** [queue( queue, e )].  [queue_sleep_time] is an [int].  While the producer
    sleeps the mutex is released: [released] is what the other threads made
    of the queue in the meantime (the worker takes its content away, other
    producers append). *)
Definition queue {A} (released : list A → list A) (q : list A) (e : A) : M (list A) :=
  let queue_size := length q in
  let* q :=
    if (max_queue_size cfg <? queue_size)%nat then
      let* t := get queue_sleep_time in
      modify_state (set_queue_sleep_time (wrap_int (t + 10))) ;;;
      let* t := get queue_sleep_time in
      sleep_for t ;;;
      ret (released q)
    else
      let* t := get queue_sleep_time in
      modify_state (set_queue_sleep_time (wrap_int (t - 10))) ;;;
      let* t := get queue_sleep_time in
      when (t <? 0) (modify_state (set_queue_sleep_time 0)) ;;;
      ret q in
  ret (q ++ [e]).

(** A producer that calls [queue] for each entry in turn; it answers the final
    queue and the value of [slept] after each call. *)
Fixpoint queue_all {A} (released : list A → list A) (q : list A) (es : list A)
  : M (list A * list Z) :=
  match es with
  | [] => ret (q, [])
  | e :: rest =>
      let* q := queue released q e in
      let* s := get slept in
      let* '(q, ss) := queue_all released q rest in
      ret (q, s :: ss)
  end.

(** *** Sequences of cache operations *)

Definition run_cache_op (op : cache_op) : M unit :=
  match op with
  | Get_abi_serializer n => get_abi_serializer n ;;; ret tt
  | Setabi act => update_account act
  end.

Fixpoint run_cache_ops (ops : list cache_op) : M unit :=
  match ops with
  | [] => ret tt
  | op :: rest => run_cache_op op ;;; run_cache_ops rest
  end.

End Pipeline.

(** ** Start-up *)

(** The values [plugin_initialize] sets, over the defaults of the class. *)
Definition plugin_initialize : config :=
  {| start_block_num := 0; filter_on_star := true;
     filter_on := ∅; filter_out := ∅;
     store_blocks := true; store_block_states := true;
     store_transactions := true; store_transaction_traces := true;
     store_action_traces := true;
     index_name := "eos"; max_queue_size := 1024; abi_cache_size := 2048 |}.

(** The fields as [plugin_initialize] leaves them, before it calls [init]:
    the gate starts open when [start_block_num] is 0.  What [init] adds
    before the worker starts is [init] below. *)
Definition startup (c : config) : state :=
  {| start_block_reached := (start_block_num c =? 0);
     queue_sleep_time := 0; abi_cache_index := []; history := [];
     clock := 0; slept := 0; quit := false |}.

(** ** Reading the history *)

Definition is_search (r : es_request) : bool :=
  match r with Search _ _ => true | _ => false end.

(** The requests that change the store. *)
Definition es_writes (h : list event) : list es_request :=
  List.filter (λ r, negb (is_search r)) (es_requests h).

(** The documents indexed under a type, with the id they were sent with. *)
Definition indexed (type : string) (h : list event) : list (variant * option string) :=
  omap (λ e, match e with
             | Es (Index ty json id) =>
                 if String.eqb ty type then Some (json, id) else None
             | _ => None
             end) h.

(** The actions [update_account] was called on. *)
Definition projected (h : list event) : list action :=
  omap (λ e, match e with Update_account_called a => Some a | _ => None end) h.

(** The nodes of an action-trace tree, parent first. *)
Fixpoint nodes (a : action_trace) : list action_trace :=
  match a with
  | Action_trace _ _ inlines => a :: flat_map nodes inlines
  end.

Definition trace_nodes (t : transaction_trace) : list action_trace :=
  flat_map nodes (action_traces t).

Definition trace_executed (t : transaction_trace) : bool :=
  match trx_receipt t with
  | Some status => transaction_receipt_header.eqb status transaction_receipt_header.executed
  | None => false
  end.

Definition system_receiver (a : action_trace) : bool :=
  (receipt_receiver a =? system_account_name)%N.

(** The order of the [by_last_access] index. *)
Definition by_last_access (idx : list abi_cache) : Prop :=
  StronglySorted (λ a b, last_accessed a ≤ last_accessed b) idx.

(** ** A reference environment

    Modelled from the spec: a search store that answers from the documents
    the requests so far have left in it, in the backend's hit shape (the
    document of a hit sits under [_source], next to [_index], [_type], [_id]
    and [_score]).  With a small codec for action payloads it instantiates
    [Env] for the examples. *)

Module Reference.

Record stored := {
  doc_type : string;
  doc_id : string;
  doc_source : variant
}.

(** Modelled from the spec: the hit shape of the backend, handed on by the
    client (not among the plugin sources); the plugin reads [_source] and
    [_id] of it. *)
Definition hit (d : stored) : variant :=
  V_object [("_index", V_string "eos"); ("_type", V_string (doc_type d));
            ("_id", V_string (doc_id d)); ("_score", V_int 1);
            ("_source", doc_source d)]%string.

Fixpoint upsert (d : stored) (docs : list stored) : list stored :=
  match docs with
  | [] => [d]
  | x :: rest =>
      if String.eqb (doc_type x) (doc_type d) && String.eqb (doc_id x) (doc_id d)
      then d :: rest
      else x :: upsert d rest
  end.

Definition term_matches (src : variant) (t : string * string) : bool :=
  match variant_get src t.1 with
  | Some (V_string s) => String.eqb s t.2
  | _ => false
  end.

Definition matches (q : query) (src : variant) : bool :=
  match q with
  | Term f v => term_matches src (f, v)
  | Bool_must ts => forallb (term_matches src) ts
  end.

(** The store is a counter for fresh ids and the documents. *)
Definition create (ty : string) (json : variant) (s : nat * list stored)
  : nat * list stored :=
  (S s.1, s.2 ++ [{| doc_type := ty; doc_id := pretty s.1; doc_source := json |}]).

Definition apply_request (s : nat * list stored) (r : es_request) : nat * list stored :=
  match r with
  | Search _ _ => s
  | Index ty json None => create ty json s
  | Index ty json (Some id) =>
      (s.1, upsert {| doc_type := ty; doc_id := id; doc_source := json |} s.2)
  | Bulk_perform _ docs => fold_left (λ s d, create d.1 d.2 s) docs s
  | Delete_by_query ty q =>
      (s.1, List.filter (λ d, negb (String.eqb (doc_type d) ty
                                    && matches q (doc_source d))) s.2)
  end.

Definition store_of (h : list es_request) : list stored :=
  (fold_left apply_request h (O, [])).2.

(** Modelled from the spec: [search(type, query)] answers with the hits for
    the documents of that type that match the query. *)
Definition search (h : list es_request) (ty : string) (q : query) : list variant :=
  map hit (List.filter (λ d, String.eqb (doc_type d) ty && matches q (doc_source d))
             (store_of h)).

(** The codec: a payload is a list of numbers, names first. *)
Definition keys_of (ks : bytes) : list key_weight :=
  map (λ k, {| kw_key := "EOS" +:+ pretty k; kw_weight := 1 |}) ks.

Definition unpack_newaccount (b : bytes) : option newaccount_t :=
  match b with
  | creator :: nm :: ks =>
      Some {| na_creator := creator; na_name := nm;
              na_owner := {| auth_threshold := 1; auth_keys := keys_of ks;
                             auth_accounts := [] |};
              na_active := {| auth_threshold := 1; auth_keys := keys_of ks;
                              auth_accounts := [] |} |}
  | _ => None
  end.

Definition unpack_updateauth (b : bytes) : option updateauth_t :=
  match b with
  | acct :: perm :: ks =>
      Some {| ua_account := acct; ua_permission := perm; ua_parent := 0%N;
              ua_auth := {| auth_threshold := 1; auth_keys := keys_of ks;
                            auth_accounts := [] |} |}
  | _ => None
  end.

Definition unpack_deleteauth (b : bytes) : option deleteauth_t :=
  match b with
  | [acct; perm] => Some {| da_account := acct; da_permission := perm |}
  | _ => None
  end.

Definition unpack_setabi (b : bytes) : option setabi_t :=
  match b with
  | acct :: abi => Some {| sa_account := acct; sa_abi := abi |}
  | [] => None
  end.

(** An ABI is its number of structs; the first is [setabi] with a field [abi]
    of type [bytes]. *)
Definition unpack_abi_def (b : bytes) : option abi_def :=
  match b with
  | [k] =>
      Some {| abi_version := "eosio::abi/1.0";
              abi_structs :=
                match N.to_nat k with
                | O => []
                | S j =>
                    {| struct_name := "setabi"; struct_base := "";
                       struct_fields :=
                         [{| field_name := "account"; field_type := "name" |};
                          {| field_name := "abi"; field_type := "bytes" |}] |}
                    :: replicate j {| struct_name := "transfer"; struct_base := "";
                                      struct_fields := [] |}
                end |}
  | _ => None
  end.

Definition to_variant (obj : reflected) (abis : list (option abi_serializer))
  : list (string * variant) :=
  [("resolved", V_int (Z.of_nat (length (List.filter (λ a, bool_decide (is_Some a)) abis))))]%string.

#[export] Instance env : Env :=
  Build_Env (λ k, 1000000 + 1000 * Z.of_nat k) search
    unpack_newaccount unpack_updateauth unpack_deleteauth unpack_setabi
    unpack_abi_def (λ _, true) to_variant (λ bs, V_string (block_id bs)).

(** Sample data. *)
Definition alice : account_name := Eval vm_compute in Name.string_to_name "alice".
Definition bob : account_name := Eval vm_compute in Name.string_to_name "bob".

Definition setabi_alice : action :=
  {| act_account := system_account_name; act_name := setabi;
     act_authorization := [{| actor := alice; permission := active |}];
     act_data := [alice; 2%N] |}.

Definition newaccount_alice : action :=
  {| act_account := system_account_name; act_name := newaccount;
     act_authorization := [{| actor := system_account_name; permission := active |}];
     act_data := [system_account_name; alice; 7%N] |}.

Definition transfer_name : action_name :=
  Eval vm_compute in Name.string_to_name "transfer".

Definition transfer : action :=
  {| act_account := bob; act_name := transfer_name;
     act_authorization := [{| actor := bob; permission := active |}];
     act_data := [] |}.

Definition carol : account_name := Eval vm_compute in Name.string_to_name "carol".

(** A store that already holds an [accounts] document with an ABI for each of
    alice, bob and carol. *)
Definition account_with_abi (nm : account_name) : event :=
  Es (Index accounts_type
        (V_object [("name", V_string (Name.to_string nm)); ("createAt", V_int 0);
                   ("abi", V_abi {| abi_version := "eosio::abi/1.0";
                                    abi_structs := [] |})]%string) None).

Definition seeded (c : config) : state :=
  set_history [account_with_abi alice; account_with_abi bob; account_with_abi carol]
    (startup c).

Definition executed_trace (acts : list action_trace) : transaction_trace :=
  {| trx_id := "t1"; trx_receipt := Some transaction_receipt_header.executed;
     action_traces := acts |}.

Definition with_start_block (n : Z) (c : config) : config :=
  {| start_block_num := n; filter_on_star := filter_on_star c;
     filter_on := filter_on c; filter_out := filter_out c;
     store_blocks := store_blocks c; store_block_states := store_block_states c;
     store_transactions := store_transactions c;
     store_transaction_traces := store_transaction_traces c;
     store_action_traces := store_action_traces c;
     index_name := index_name c; max_queue_size := max_queue_size c;
     abi_cache_size := abi_cache_size c |}.

Definition with_store_action_traces (b : bool) (c : config) : config :=
  {| start_block_num := start_block_num c; filter_on_star := filter_on_star c;
     filter_on := filter_on c; filter_out := filter_out c;
     store_blocks := store_blocks c; store_block_states := store_block_states c;
     store_transactions := store_transactions c;
     store_transaction_traces := store_transaction_traces c;
     store_action_traces := b;
     index_name := index_name c; max_queue_size := max_queue_size c;
     abi_cache_size := abi_cache_size c |}.

Definition with_filter_out (out : gset filter_entry) (c : config) : config :=
  {| start_block_num := start_block_num c; filter_on_star := filter_on_star c;
     filter_on := filter_on c; filter_out := out;
     store_blocks := store_blocks c; store_block_states := store_block_states c;
     store_transactions := store_transactions c;
     store_transaction_traces := store_transaction_traces c;
     store_action_traces := store_action_traces c;
     index_name := index_name c; max_queue_size := max_queue_size c;
     abi_cache_size := abi_cache_size c |}.

Definition block (n : Z) : block_state :=
  {| block_num := n; block_id := "id" +:+ pretty n; block_previous := "";
     validated := true; in_current_chain := true; block_actions := [transfer] |}.

Definition with_max_queue_size (n : nat) (c : config) : config :=
  {| start_block_num := start_block_num c; filter_on_star := filter_on_star c;
     filter_on := filter_on c; filter_out := filter_out c;
     store_blocks := store_blocks c; store_block_states := store_block_states c;
     store_transactions := store_transactions c;
     store_transaction_traces := store_transaction_traces c;
     store_action_traces := store_action_traces c;
     index_name := index_name c; max_queue_size := n;
     abi_cache_size := abi_cache_size c |}.

Definition with_abi_cache_size (n : nat) (c : config) : config :=
  {| start_block_num := start_block_num c; filter_on_star := filter_on_star c;
     filter_on := filter_on c; filter_out := filter_out c;
     store_blocks := store_blocks c; store_block_states := store_block_states c;
     store_transactions := store_transactions c;
     store_transaction_traces := store_transaction_traces c;
     store_action_traces := store_action_traces c;
     index_name := index_name c; max_queue_size := max_queue_size c;
     abi_cache_size := n |}.

End Reference.


(** ** Footprints

    [emits P m]: running [m] leaves the gate as it was and appends to the
    history only events that satisfy [P]. *)
Definition emits {A} (P : event → Prop) (m : M A) : Prop :=
  ∀ st, start_block_reached (m st).2 = start_block_reached st
        ∧ ∃ evs, history (m st).2 = history st ++ evs ∧ Forall P evs.

Definition is_search_event (e : event) : Prop :=
  match e with
  | Es (Search ty _) => ty = accounts_type
  | _ => False
  end.

(** What the projector's branches may add: no mark of a call, and documents
    indexed one at a time only under [accounts]. *)
Definition projector_event (e : event) : Prop :=
  match e with
  | Update_account_called _ => False
  | Es (Index ty _ _) => ty = accounts_type
  | Es (Search ty _) => ty = accounts_type
  | _ => True
  end.

(** What walking the traces [l] comes to, from the state [st] and with
    [added0] so far: the gate is left alone, the flag tells whether a document
    was appended for one of the nodes, [update_account] was called on the
    nodes received by the system account of an executed transaction, and no
    transaction trace was indexed. *)
Definition passes (c : config) (a : action_trace) : bool :=
  filter_include c (trace_act a).

Definition walked (c : config) (executed : bool) (l : list action_trace)
    (added0 : bool) (st : state) (r : bool * list (string * variant) * state) : Prop :=
  start_block_reached r.2 = start_block_reached st
  ∧ r.1.1 = added0 || (start_block_reached st && store_action_traces c
                       && existsb (passes c) (flat_map nodes l))
  ∧ ∃ evs, history r.2 = history st ++ evs
         ∧ projected evs
           = (if executed then trace_act <$> List.filter system_receiver (flat_map nodes l)
              else [])
         ∧ indexed trans_traces_type evs = [].

(** The events a run added, given the states before and after it. *)
Definition new_events (st st' : state) : list event :=
  drop (length (history st)) (history st').

(** Whether one action trace of [t] passes the filter. *)
Definition some_trace_passes (c : config) (t : transaction_trace) : bool :=
  existsb (passes c) (trace_nodes t).

(** What [purge_abi_cache] leaves of an index. *)
Definition purged (c : config) (idx : list abi_cache) : list abi_cache :=
  if (length idx <? abi_cache_size c)%nat then idx else tail idx.

(** [keeps_cache m]: running [m] does not touch the ABI cache. *)
Definition keeps_cache {A} (m : M A) : Prop :=
  ∀ st, abi_cache_index (m st).2 = abi_cache_index st.

(** The cache is in index order and within its capacity. *)
Definition cache_ok (c : config) (idx : list abi_cache) : Prop :=
  by_last_access idx ∧ (length idx ≤ abi_cache_size c)%nat.

(** The hits of the backend keep the document under [_source]: at their top
    level there is no field [name]. *)
Definition backend_hits `{Env} : Prop :=
  ∀ h ty q v, v ∈ search h ty q → variant_get v "name" = None.

(** The hits a search of [accounts] for the name [nm] gets in the state
    [st]. *)
Definition account_hits `{Env} (nm : account_name) (st : state) : list variant :=
  search (es_requests (history st)) accounts_type (Term "name" (Name.to_string nm)).

(** C1 as a property of one run: [update_account] is called on the action of
    every node that the system account received in an executed
    transaction. *)
Definition projects_system_nodes `{Env} (c : config) (st : state)
    (t : transaction_trace) : Prop :=
  trace_executed t = true →
  ∀ a, a ∈ trace_nodes t → system_receiver a = true →
       trace_act a ∈ projected (new_events st (process_applied_transaction c t st).2).

(** A [transaction_traces] document was indexed by the run. *)
Definition trace_document_indexed `{Env} (c : config) (st : state)
    (t : transaction_trace) : Prop :=
  indexed trans_traces_type
    (new_events st (process_applied_transaction c t st).2) ≠ [].

(** ** Further observations of a state *)

(** The [by_account] index is unique: no account is cached twice. *)
Definition by_account_unique (idx : list abi_cache) : Prop :=
  NoDup (account <$> idx).

(** Every cached entry carries a serializer. *)
Definition serializers_present (idx : list abi_cache) : Prop :=
  Forall (λ e, is_Some (serializer e)) idx.

(** The text [search_abi_by_account] searches for: the name printed, read
    back and printed again. *)
Definition abi_query (n : account_name) : query :=
  Term "name" (Name.to_string (Name.string_to_name (Name.to_string n))).

(** The documents sent in bulk under a type, in the order sent. *)
Definition bulk_docs (type : string) (h : list event) : list variant :=
  flat_map (λ e, match e with
                 | Es (Bulk_perform _ docs) =>
                     omap (λ d : string * variant,
                             if String.eqb d.1 type then Some d.2 else None) docs
                 | _ => []
                 end) h.

(** The requests [delete_by_query] of a history. *)
Definition deleted (h : list event) : list (string * query) :=
  omap (λ e, match e with Es (Delete_by_query ty q) => Some (ty, q) | _ => None end) h.

(** No bulk request is empty. *)
Definition bulks_not_empty (h : list event) : Prop :=
  Forall (λ e, match e with Es (Bulk_perform _ docs) => docs ≠ [] | _ => True end) h.

(** A document has the value [v] under each field the query asks for. *)
Definition satisfies (q : query) (doc : variant) : Prop :=
  match q with
  | Term f v => variant_get doc f = Some (V_string v)
  | Bool_must ts => Forall (λ t : string * string,
                              variant_get doc t.1 = Some (V_string t.2)) ts
  end.

(** What the projector's branches add, in full: searches and single
    documents only under [accounts], bulks never empty and only of [pub_keys]
    or [account_controls], deletions only of those two types. *)
Definition projector_request (e : event) : Prop :=
  match e with
  | Update_account_called _ => False
  | Abi_cache_erased _ => True
  | Es (Search ty _) => ty = accounts_type
  | Es (Index ty _ _) => ty = accounts_type
  | Es (Bulk_perform _ docs) =>
      docs ≠ []
      ∧ (Forall (λ d : string * variant, d.1 = pub_keys_type) docs
         ∨ Forall (λ d : string * variant, d.1 = account_controls_type) docs)
  | Es (Delete_by_query ty _) => ty = pub_keys_type ∨ ty = account_controls_type
  end.

(** The rows [add_pub_keys] and [add_account_control] build, and the bulk
    request they are sent in: none for no rows. *)
Definition pub_key_docs (keys : list key_weight) (nm : account_name)
    (perm : permission_name) (now_ms : Z) : list (string * variant) :=
  map (λ kw, (pub_keys_type,
              V_object [("account", V_string (Name.to_string nm));
                        ("public_key", V_string (kw_key kw));
                        ("permission", V_string (Name.to_string perm));
                        ("createAt", V_int now_ms)]%string)) keys.

Definition account_control_docs (controlling : list permission_level_weight)
    (nm : account_name) (perm : permission_name) (now_ms : Z)
  : list (string * variant) :=
  map (λ c, (account_controls_type,
             V_object [("controlled_account", V_string (Name.to_string nm));
                       ("controlled_permission", V_string (Name.to_string perm));
                       ("controlling_account",
                        V_string (Name.to_string (actor (plw_permission c))));
                       ("createAt", V_int now_ms)]%string)) controlling.

Definition bulk_event (c : config) (docs : list (string * variant)) : list event :=
  match docs with
  | [] => []
  | _ => [Es (Bulk_perform (index_name c) docs)]
  end.

Definition pub_keys_query (nm : account_name) (perm : permission_name) : query :=
  Bool_must [("account", Name.to_string nm);
             ("permission", Name.to_string perm)]%string.

Definition account_controls_query (nm : account_name) (perm : permission_name) : query :=
  Bool_must [("controlled_account", Name.to_string nm);
             ("controlled_permission", Name.to_string perm)]%string.

(** The rows of an authority: its keys, then its controlling accounts. *)
Definition authority_events (c : config) (a : authority) (nm : account_name)
    (perm : permission_name) (now_ms : Z) : list event :=
  bulk_event c (pub_key_docs (auth_keys a) nm perm now_ms)
  ++ bulk_event c (account_control_docs (auth_accounts a) nm perm now_ms).

(** A system action the projector has nothing to do for: its name is none of
    the four, or its payload does not decode. *)
Definition not_projectable `{Env} (act : action) : Prop :=
  (act_name act = newaccount ∧ unpack_newaccount (act_data act) = None)
  ∨ (act_name act = updateauth ∧ unpack_updateauth (act_data act) = None)
  ∨ (act_name act = deleteauth ∧ unpack_deleteauth (act_data act) = None)
  ∨ (act_name act = setabi ∧ unpack_setabi (act_data act) = None)
  ∨ (act_name act ≠ newaccount ∧ act_name act ≠ updateauth
     ∧ act_name act ≠ deleteauth ∧ act_name act ≠ setabi).

(** More sample actions for the reference backend. *)
Module Samples.

Definition updateauth_alice : action :=
  {| act_account := system_account_name; act_name := updateauth;
     act_authorization := [{| actor := Reference.alice; permission := active |}];
     act_data := [Reference.alice; active; 7%N; 9%N] |}.

Definition deleteauth_alice : action :=
  {| act_account := system_account_name; act_name := deleteauth;
     act_authorization := [{| actor := Reference.alice; permission := active |}];
     act_data := [Reference.alice; active] |}.

(** A [newaccount] whose payload is too short to decode. *)
Definition newaccount_truncated : action :=
  {| act_account := system_account_name; act_name := newaccount;
     act_authorization := [{| actor := system_account_name; permission := active |}];
     act_data := [system_account_name] |}.

End Samples.

(** The nodes a walk of [l] appends a document for, in the order of the
    walk: with the gate open and [store_action_traces] on, those whose action
    passes the filter. *)
Definition admitted (c : config) (reached : bool) (l : list action_trace)
  : list action_trace :=
  if reached && store_action_traces c
  then List.filter (passes c) (flat_map nodes l) else [].

(** What a walk adds to the history: marks of the projector's calls, its
    requests and the searches of the ABI lookups. *)
Definition walk_event (e : event) : Prop :=
  match e with
  | Update_account_called _ => True
  | _ => projector_request e
  end.

(** A row of the bulk of action traces, stamped with [now_ms]. *)
Definition action_trace_row (now_ms : Z) (d : string * variant) : Prop :=
  d.1 = action_traces_type ∧ variant_get d.2 "createdAt" = Some (V_int now_ms).

(** What walking the traces [l] makes of the bulk [bulk0]: one row more for
    each admitted node, and only events of the walk in the history. *)
Definition walked_docs (c : config) (now_ms : Z) (l : list action_trace)
    (bulk0 : list (string * variant)) (st : state)
    (r : bool * list (string * variant) * state) : Prop :=
  start_block_reached r.2 = start_block_reached st
  ∧ (∃ docs, r.1.2 = bulk0 ++ docs
             ∧ length docs = length (admitted c (start_block_reached st) l)
             ∧ Forall (action_trace_row now_ms) docs)
  ∧ ∃ evs, history r.2 = history st ++ evs ∧ Forall walk_event evs.

(** ** Accepted transactions and the worker *)

Record signed_transaction := {
  trx_context_free_actions : list action;
  trx_actions : list action;
  trx_signatures : list string
}.

(** [signing_keys] is an [optional] pair of a chain id and a set of keys; its
    second component is what the plugin reads. *)
Record transaction_metadata := {
  tm_id : string;
  tm_trx : signed_transaction;
  tm_signing_keys : option (list string);
  tm_accepted : bool;
  tm_implicit : bool;
  tm_scheduled : bool
}.

(** The collaborators of the accepted-transaction path. *)
Class TrxEnv := {
  (** Modelled from the spec: [abi_serializer::to_variant] on a signed
      transaction, given the serializers the resolver answered with, one per
      action. *)
  trx_to_variant : signed_transaction → list (option abi_serializer)
                   → list (string * variant);
  (** [trx.get_signature_keys( *chain_id, false, false )]; [None] when it
      throws. *)
  get_signature_keys : signed_transaction → option (list string)
}.

(** [v.is_null()]. *)
Definition is_null (v : variant) : bool :=
  match v with V_null => true | _ => false end.

(** The four staging queues, as the worker captures them. *)
Record queues := {
  transaction_metadata_queue : list transaction_metadata;
  transaction_trace_queue : list transaction_trace;
  block_state_queue : list block_state;
  irreversible_block_state_queue : list block_state
}.

(** A return of the worker to the head of its loop: what it finds in the
    queues when it tests them under the lock, and [done] as read by the wait
    loop and as read again after the batch. *)
Record wakeup := {
  captured : queues;
  done_at_wait : bool;
  done_at_end : bool
}.

(** How [consume_blocks] stands when the wake-ups are used up: it has left
    its loop, or it sits in [condition.wait]. *)
Inductive outcome := Exited | Waiting.

Definition no_entries (q : queues) : bool :=
  bool_decide (transaction_metadata_queue q = [])
  && bool_decide (transaction_trace_queue q = [])
  && bool_decide (block_state_queue q = [])
  && bool_decide (irreversible_block_state_queue q = []).

Section Worker.

Context `{Env} `{TrxEnv} (cfg : config).

Definition trx_accounts (trx : signed_transaction) : list account_name :=
  map act_account (trx_context_free_actions trx ++ trx_actions trx).

Definition trx_to_variant_with_abi (trx : signed_transaction)
  : M (list (string * variant)) :=
  let* abis := resolve_all cfg (trx_accounts trx) in
  ret (trx_to_variant trx abis).

(** [_process_accepted_transaction]; [None] when [get_signature_keys]
    throws, which leaves the function before the document is sent. *)
Definition _process_accepted_transaction (t : transaction_metadata) : M (option unit) :=
  let* us := time_point_now in
  let now_ms := to_milliseconds us in
  let* trans_doc := trx_to_variant_with_abi (tm_trx t) in
  let trans_doc := mvo_set "trx_id" (V_string (tm_id t)) trans_doc in
  match (match tm_signing_keys t with
         | Some keys => Some keys
         | None => get_signature_keys (tm_trx t)
         end) with
  | None => ret None
  | Some keys =>
      let signing_keys := V_array (map V_string keys) in
      let trans_doc :=
        if negb (is_null signing_keys)
        then mvo_set "signing_keys" signing_keys trans_doc else trans_doc in
      let trans_doc := mvo_set "accepted" (V_bool (tm_accepted t)) trans_doc in
      let trans_doc := mvo_set "implicit" (V_bool (tm_implicit t)) trans_doc in
      let trans_doc := mvo_set "scheduled" (V_bool (tm_scheduled t)) trans_doc in
      let trans_doc := mvo_set "createdAt" (V_int now_ms) trans_doc in
      es_index trans_type (V_object trans_doc) None ;;;
      ret (Some tt)
  end.

(** The exception is caught and logged here. *)
Definition process_accepted_transaction (t : transaction_metadata) : M unit :=
  let* _ := _process_accepted_transaction t in
  ret tt.

(** [while (!q.empty()) { process(q.front()); q.pop_front(); }], between two
    readings of the clock for the log line. *)
Fixpoint process_queue {A} (process : A → M unit) (q : list A) : M unit :=
  match q with
  | [] => ret tt
  | e :: rest => process e ;;; process_queue process rest
  end.

Definition timed {A} (process : A → M unit) (q : list A) : M unit :=
  let* start_time := time_point_now in
  process_queue process q ;;;
  let* end_time := time_point_now in
  ret tt.

(** The body of the loop of [consume_blocks] after the capture. *)
Definition process_captured (q : queues) : M unit :=
  timed (process_applied_transaction cfg) (transaction_trace_queue q) ;;;
  timed process_accepted_transaction (transaction_metadata_queue q) ;;;
  timed (process_accepted_block cfg) (block_state_queue q) ;;;
  timed (process_irreversible_block) (irreversible_block_state_queue q).

(** [consume_blocks] along the wake-ups of a schedule: with nothing queued
    and [done] not set the worker goes back to wait; otherwise it processes
    what it captured and leaves the loop when it had captured nothing and
    [done] is set. *)
Fixpoint consume_blocks (schedule : list wakeup) : M outcome :=
  match schedule with
  | [] => ret Waiting
  | w :: rest =>
      if no_entries (captured w) && negb (done_at_wait w) then consume_blocks rest
      else
        process_captured (captured w) ;;;
        if no_entries (captured w) && done_at_end w then ret Exited
        else consume_blocks rest
  end.

End Worker.

(** [steps P b m]: running [m] opens the gate when [b] is set and leaves it
    as it was otherwise, and appends to the history only events that satisfy
    [P]. *)
Definition steps {A} (P : event → Prop) (b : bool) (m : M A) : Prop :=
  ∀ st, start_block_reached (m st).2 = start_block_reached st || b
        ∧ ∃ evs, history (m st).2 = history st ++ evs ∧ Forall P evs.

(** Whether an accepted block opens a closed gate. *)
Definition opens (c : config) (bs : block_state) : bool :=
  start_block_num c <=? block_num bs.

(** What the worker adds for accepted transactions and for blocks: searches
    of [accounts] and single documents of three types. *)
Definition ledger_event (e : event) : Prop :=
  match e with
  | Es (Search ty _) => ty = accounts_type
  | Es (Index ty _ id) =>
      (ty = trans_type ∨ ty = block_states_type ∨ ty = blocks_type) ∧ id = None
  | _ => False
  end.

(** The wake-up on which the worker leaves its loop. *)
Definition last_wakeup (w : wakeup) : bool :=
  no_entries (captured w) && done_at_wait w && done_at_end w.

(** Sample collaborators and data for the worker. *)
Module WorkerSamples.

(** Key recovery fails on the signature [bad]. *)
#[export] Instance trx_env : TrxEnv :=
  Build_TrxEnv
    (λ trx abis, [("actions", V_int (Z.of_nat (length (trx_actions trx))));
                  ("trx_id", V_string "unset")]%string)
    (λ trx, if bool_decide ("bad"%string ∈ trx_signatures trx) then None
            else Some (map (λ sig, "EOS" +:+ sig) (trx_signatures trx))).

Definition signed (sigs : list string) : transaction_metadata :=
  {| tm_id := "t1";
     tm_trx := {| trx_context_free_actions := [];
                  trx_actions := [Reference.transfer];
                  trx_signatures := sigs |};
     tm_signing_keys := None;
     tm_accepted := true; tm_implicit := false; tm_scheduled := false |}.

(** A batch with the trace of a [newaccount] and the block 100. *)
Definition batch : queues :=
  {| transaction_metadata_queue := [signed ["s1"%string]];
     transaction_trace_queue :=
       [Reference.executed_trace
          [Action_trace system_account_name Reference.newaccount_alice []]];
     block_state_queue := [Reference.block 100];
     irreversible_block_state_queue := [] |}.

Definition nothing : queues :=
  {| transaction_metadata_queue := []; transaction_trace_queue := [];
     block_state_queue := []; irreversible_block_state_queue := [] |}.

End WorkerSamples.

(** ** The producer blacklist plugin

    [blacklist_plugin.cpp].  Its header is not among the sources: the
    fields of the implementation object are the ones [plugin_initialize]
    assigns. *)
Module Blacklist.

(** [operator<] on [std::string]: the order of the bytes. *)
Definition string_le (a b : string) : Prop := String.leb a b = true.

#[global] Instance string_le_dec : RelDecision string_le.
Proof. intros a b. unfold string_le. apply _. Defined.

Definition newline : string := String "010"%char EmptyString.

(** [s.find( needle )] from position 0, [None] for [npos];
    [s.substr( 0, n )] and [s.substr( pos )]. *)
Definition find (needle s : string) : option nat := String.index 0 needle s.
Definition substr_to (n : nat) (s : string) : string := String.substring 0 n s.
Definition substr_from (pos : nat) (s : string) : string :=
  String.substring pos (String.length s - pos) s.

(** The part of the [variables_map] the plugin reads; an option that was not
    given is [None].  A [producer-name] that was given holds at least one
    name. *)
Record options := {
  blacklist_check_interval : option Z;
  opt_producer_name : option (string * list string);
  actor_blacklist : option (list string);
  blacklist_signature_provider : option string
}.

Section Plugin.

Context {public_key private_key_t : Type}.
(** [fc::sha256::hash] as a string, [public_key_type( str )] and
    [fc::crypto::private_key( str )]; the last two are [None] when they
    throw. *)
Context (sha256 : string → string).
Context (public_key_type : string → option public_key).
Context (private_key : string → option private_key_t).

Record producer_blacklist_plugin_impl := {
  interval : Z;
  timer_period : Z;
  producer_name : string;
  actor_blacklist_hash : string;
  _blacklist_private_key : option private_key_t;
  _blacklist_public_key : option public_key
}.

(** The text that is hashed: the sorted actors, one line each. *)
Definition actor_blacklist_str (blacklist_actors : list string) : string :=
  let sorted := merge_sort string_le blacklist_actors in
  let output := map (λ element, "actor-blacklist=" +:+ element +:+ newline) sorted in
  fold_left String.append output EmptyString.

(** The body of the inner [try]: [None] when it throws. *)
Definition signature_provider (key_spec_pair : string)
    (my : producer_blacklist_plugin_impl) : option producer_blacklist_plugin_impl :=
  delim ← find "=" key_spec_pair;
  let pub_key_str := substr_to delim key_spec_pair in
  let spec_str := substr_from (delim + 1) key_spec_pair in
  spec_delim ← find ":" spec_str;
  let spec_type_str := substr_to spec_delim spec_str in
  let spec_data := substr_from (spec_delim + 1) spec_str in
  pubkey ← public_key_type pub_key_str;
  if String.eqb spec_type_str "KEY" then
    key ← private_key spec_data;
    Some {| interval := interval my; timer_period := timer_period my;
            producer_name := producer_name my;
            actor_blacklist_hash := actor_blacklist_hash my;
            _blacklist_private_key := Some key;
            _blacklist_public_key := Some pubkey |}
  else if String.eqb spec_type_str "KEOSD" then Some my
  else Some my.

Definition plugin_initialize (opts : options) (my : producer_blacklist_plugin_impl)
  : producer_blacklist_plugin_impl :=
  let my :=
    match blacklist_check_interval opts with
    | Some i =>
        {| interval := i; timer_period := i;
           producer_name := producer_name my;
           actor_blacklist_hash := actor_blacklist_hash my;
           _blacklist_private_key := _blacklist_private_key my;
           _blacklist_public_key := _blacklist_public_key my |}
    | None => my
    end in
  let my :=
    match opt_producer_name opts with
    | Some ops =>
        {| interval := interval my; timer_period := timer_period my;
           producer_name := ops.1;
           actor_blacklist_hash := actor_blacklist_hash my;
           _blacklist_private_key := _blacklist_private_key my;
           _blacklist_public_key := _blacklist_public_key my |}
    | None => my
    end in
  let my :=
    match actor_blacklist opts with
    | Some blacklist_actors =>
        {| interval := interval my; timer_period := timer_period my;
           producer_name := producer_name my;
           actor_blacklist_hash := sha256 (actor_blacklist_str blacklist_actors);
           _blacklist_private_key := _blacklist_private_key my;
           _blacklist_public_key := _blacklist_public_key my |}
    | None => my
    end in
  match blacklist_signature_provider opts with
  | Some key_spec_pair =>
      match signature_provider key_spec_pair my with
      | Some my' => my'
      | None => my
      end
  | None => my
  end.

End Plugin.

(** Sample collaborators: the hash is the text itself, a public key is a
    string that begins with [EOS], a private key one that begins with [5]. *)
Definition sample_public_key (str : string) : option string :=
  if String.prefix "EOS" str then Some str else None.
Definition sample_private_key (str : string) : option string :=
  if String.prefix "5" str then Some str else None.

Definition fresh : @producer_blacklist_plugin_impl string string :=
  {| interval := 0; timer_period := 0; producer_name := "";
     actor_blacklist_hash := "";
     _blacklist_private_key := None; _blacklist_public_key := None |}.

Definition only_provider (spec : string) : options :=
  {| blacklist_check_interval := None; opt_producer_name := None;
     actor_blacklist := None; blacklist_signature_provider := Some spec |}.

Definition only_actors (actors : list string) : options :=
  {| blacklist_check_interval := None; opt_producer_name := None;
     actor_blacklist := Some actors; blacklist_signature_provider := None |}.

End Blacklist.

(** A configuration with other values for [store_block_states] and
    [store_transactions]. *)
Definition with_store_flags (block_states transactions : bool) (c : config) : config :=
  {| start_block_num := start_block_num c; filter_on_star := filter_on_star c;
     filter_on := filter_on c; filter_out := filter_out c;
     store_blocks := store_blocks c; store_block_states := block_states;
     store_transactions := transactions;
     store_transaction_traces := store_transaction_traces c;
     store_action_traces := store_action_traces c;
     index_name := index_name c; max_queue_size := max_queue_size c;
     abi_cache_size := abi_cache_size c |}.

(** A batch without its irreversible blocks. *)
Definition without_irreversible (q : queues) : queues :=
  {| transaction_metadata_queue := transaction_metadata_queue q;
     transaction_trace_queue := transaction_trace_queue q;
     block_state_queue := block_state_queue q;
     irreversible_block_state_queue := [] |}.

(** ** The start of the worker

    [init], from the answer of [count_doc( accounts_type )] on: with no
    account document in the store it reads the clock and creates the one of
    the system account; then it starts the worker.  The creation of the index
    itself is not a request of the history. *)
Definition init `{Env} (count_doc : Z) : M unit :=
  if count_doc =? 0 then
    let* us := time_point_now in
    create_account system_account_name (to_milliseconds us)
  else ret tt.

(** The state in which the worker starts. *)
Definition started `{Env} (c : config) (count_doc : Z) : state :=
  (init count_doc (startup c)).2.


(** * Properties *)

(** ** The filter *)

Lemma found_spec s e : found s e = true ↔ e ∈ s.
Proof. unfold found. by rewrite bool_decide_eq_true. Qed.

Lemma any_authorizer_spec s account nm auth :
  any_authorizer s account nm auth = true ↔
  ∃ x, x ∈ auth ∧ fe account nm (actor x) ∈ s.
Proof.
  induction auth as [|a rest IH]; simpl.
  - split; [done|]. intros (x & Hx & _). by apply elem_of_nil in Hx.
  - destruct (found s (fe account nm (actor a))) eqn:Hf.
    + split; [|done]. intros _. exists a. split; [left|]. by apply found_spec.
    + rewrite IH. split.
      * intros (x & Hx & Hs). exists x. split; [by right|done].
      * intros (x & Hx & Hs). apply elem_of_cons in Hx as [->|Hx].
        -- apply found_spec in Hs. congruence.
        -- by exists x.
Qed.

Lemma any_authorizer_perm s account nm p q :
  p ≡ₚ q → any_authorizer s account nm p = any_authorizer s account nm q.
Proof.
  intros Hpq. apply eq_true_iff_eq. rewrite !any_authorizer_spec.
  split; intros (x & Hx & Hs); exists x; split; try done.
  - by rewrite <- Hpq.
  - by rewrite Hpq.
Qed.

Lemma filter_include_unfold (c : config) (a : action) :
  filter_include c a =
  (filter_on_star c
   || found (filter_on c) (fe (act_account a) (act_name a) 0%N)
   || any_authorizer (filter_on c) (act_account a) (act_name a) (act_authorization a))
  && negb (found (filter_out c) (fe (act_account a) 0%N 0%N))
  && negb (found (filter_out c) (fe (act_account a) (act_name a) 0%N))
  && negb (any_authorizer (filter_out c) (act_account a) (act_name a)
             (act_authorization a)).
Proof.
  unfold filter_include.
  destruct (filter_on_star c), (found (filter_on c) _),
    (any_authorizer (filter_on c) _ _ _), (found (filter_out c) (fe _ 0%N 0%N)),
    (found (filter_out c) _), (any_authorizer (filter_out c) _ _ _); reflexivity.
Qed.

(** C5. [filter_include] answers true exactly for the candidates that
    [filter_out] does not drop: the wildcard is on, or [filter_on] has
    (account, name, 0) or (account, name, actor) for an authorizer, and
    [filter_out] has none of (account, 0, 0), (account, name, 0),
    (account, name, actor) for any authorizer. *)
Theorem filter_include_iff (c : config) (a : action) :
  filter_include c a = true ↔ candidate c a ∧ ¬ dropped c a.
Proof.
  rewrite filter_include_unfold. unfold candidate, dropped.
  rewrite !andb_true_iff, !orb_true_iff, !negb_true_iff, <- !not_true_iff_false.
  rewrite !found_spec, !any_authorizer_spec. tauto.
Qed.

(** The wildcard scenario: with [filter_on_star] bob's transfer is included;
    once [filter_out] holds (bob, transfer, bob) it is not. *)
Example filter_include_wildcard :
  filter_include plugin_initialize Reference.transfer = true
  ∧ filter_include
      (Reference.with_filter_out
         {[ fe Reference.bob Reference.transfer_name Reference.bob ]} plugin_initialize)
      Reference.transfer = false.
Proof. split; by vm_compute. Qed.

(** C6. Permuting the authorization list of an action does not change the
    answer of [filter_include]. *)
Theorem filter_include_permutation (c : config) (a : action)
    (p : list permission_level) :
  p ≡ₚ act_authorization a →
  filter_include c (with_authorization a p) = filter_include c a.
Proof.
  intros Hp. unfold filter_include; simpl.
  by rewrite !(any_authorizer_perm _ _ _ p (act_authorization a)).
Qed.

Lemma filter_include_permutation_witness :
  let a := Reference.setabi_alice in
  let x := {| actor := Reference.bob; permission := owner |} in
  filter_include plugin_initialize
    (with_authorization (with_authorization a (x :: act_authorization a))
       (act_authorization a ++ [x]))
  = filter_include plugin_initialize (with_authorization a (x :: act_authorization a)).
Proof.
  intros a x.
  apply (filter_include_permutation plugin_initialize
           (with_authorization a (x :: act_authorization a))
           (act_authorization a ++ [x])).
  simpl. apply Permutation_sym, Permutation_cons_append.
Defined.

(** ** Footprints of the operations *)

Lemma emits_ret {A} P (a : A) : emits P (ret a).
Proof. intros st. split; [done|]. exists []. by rewrite app_nil_r. Qed.

Lemma emits_bind {A B} P (m : M A) (k : A → M B) :
  emits P m → (∀ a, emits P (k a)) → emits P (bind m k).
Proof.
  intros Hm Hk st. unfold bind.
  destruct (Hm st) as (Hr & evs & Hh & Hp).
  destruct (m st) as [a st1]; simpl in *.
  destruct (Hk a st1) as (Hr' & evs' & Hh' & Hp').
  split; [congruence|].
  exists (evs ++ evs'). rewrite Hh', Hh, app_assoc. split; [done|].
  by apply Forall_app.
Qed.

Lemma emits_mono {A} (P Q : event → Prop) (m : M A) :
  (∀ e, P e → Q e) → emits P m → emits Q m.
Proof.
  intros HPQ Hm st. destruct (Hm st) as (Hr & evs & Hh & Hp).
  split; [done|]. exists evs. split; [done|]. eapply Forall_impl; eauto.
Qed.

Lemma emits_get {A} P (f : state → A) : emits P (get f).
Proof. intros st. split; [done|]. exists []. by rewrite app_nil_r. Qed.

Lemma emits_record P e : P e → emits P (record e).
Proof.
  intros He st. split; [done|]. exists [e]. split; [done|].
  by apply Forall_singleton.
Qed.

Lemma emits_when P b m : emits P m → emits P (when b m).
Proof. destruct b; [done|]. intros _. apply emits_ret. Qed.

Lemma emits_silent P (f : state → state) :
  (∀ st, start_block_reached (f st) = start_block_reached st) →
  (∀ st, history (f st) = history st) →
  emits P (modify_state f).
Proof.
  intros Hr Hh st. split; [apply Hr|]. exists []. simpl.
  by rewrite Hh, app_nil_r.
Qed.

Section Footprints.

Context `{Env} (cfg : config).

Lemma emits_time_point_now P : emits P time_point_now.
Proof. intros st. split; [done|]. exists []. by rewrite app_nil_r. Qed.

Lemma emits_es_search P ty q : P (Es (Search ty q)) → emits P (es_search ty q).
Proof.
  intros He st. split; [done|]. exists [Es (Search ty q)]. split; [done|].
  by apply Forall_singleton.
Qed.

Lemma emits_find_account P nm :
  (∀ q, P (Es (Search accounts_type q))) → emits P (find_account nm).
Proof.
  intros HP. unfold find_account. apply emits_bind.
  - by apply emits_es_search.
  - intros hits. destruct (negb _); apply emits_ret.
Qed.

Lemma emits_purge_abi_cache P : emits P (purge_abi_cache cfg).
Proof.
  intros st. unfold purge_abi_cache, modify_state; simpl.
  destruct (_ <? _)%nat; simpl; (split; [done|]); exists []; by rewrite app_nil_r.
Qed.

Lemma get_abi_serializer_emits n : emits is_search_event (get_abi_serializer cfg n).
Proof.
  unfold get_abi_serializer. destruct (Name.good n); [|apply emits_ret].
  apply emits_bind; [apply emits_get|]. intros idx.
  destruct (cache_find n idx).
  - apply emits_bind; [apply emits_time_point_now|]. intros t.
    apply emits_bind; [by apply emits_silent|]. intros _. apply emits_ret.
  - apply emits_bind.
    + unfold search_abi_by_account. apply emits_bind.
      * by apply emits_find_account.
      * intros [res|]; apply emits_ret.
    + intros [abi_v|]; [|apply emits_ret].
      destruct (as_abi_def abi_v) as [abi|]; [|apply emits_ret].
      apply emits_bind; [apply emits_purge_abi_cache|]. intros _.
      apply emits_bind; [apply emits_time_point_now|]. intros t.
      destruct (if (n =? system_account_name)%N then _ else _) as [structs special].
      destruct (set_abi_ok _); [|apply emits_ret].
      apply emits_bind; [by apply emits_silent|]. intros _. apply emits_ret.
Qed.

Lemma resolve_all_emits ns : emits is_search_event (resolve_all cfg ns).
Proof.
  induction ns as [|n rest IH]; simpl; [apply emits_ret|].
  apply emits_bind; [apply get_abi_serializer_emits|]. intros r.
  apply emits_bind; [apply IH|]. intros rs. apply emits_ret.
Qed.

Lemma to_variant_with_abi_emits obj :
  emits is_search_event (to_variant_with_abi cfg obj).
Proof.
  unfold to_variant_with_abi. apply emits_bind; [apply resolve_all_emits|].
  intros abis. apply emits_ret.
Qed.

Lemma add_pub_keys_emits keys nm perm now_ms :
  emits projector_event (add_pub_keys cfg keys nm perm now_ms).
Proof. destruct keys; [apply emits_ret|]. by apply emits_record. Qed.

Lemma add_account_control_emits l nm perm now_ms :
  emits projector_event (add_account_control cfg l nm perm now_ms).
Proof. destruct l; [apply emits_ret|]. by apply emits_record. Qed.

Lemma update_newaccount_emits act : emits projector_event (update_newaccount cfg act).
Proof.
  unfold update_newaccount.
  apply emits_bind; [apply emits_time_point_now|]. intros us.
  destruct (unpack_newaccount _); [|apply emits_ret].
  repeat (apply emits_bind; [|intros ?]);
    auto using add_pub_keys_emits, add_account_control_emits.
  by apply emits_record.
Qed.

Lemma update_updateauth_emits act : emits projector_event (update_updateauth cfg act).
Proof.
  unfold update_updateauth.
  apply emits_bind; [apply emits_time_point_now|]. intros us.
  destruct (unpack_updateauth _); [|apply emits_ret].
  repeat (apply emits_bind; [|intros ?]);
    auto using add_pub_keys_emits, add_account_control_emits;
    by apply emits_record.
Qed.

Lemma update_deleteauth_emits act : emits projector_event (update_deleteauth act).
Proof.
  unfold update_deleteauth.
  destruct (unpack_deleteauth _); [|apply emits_ret].
  apply emits_bind; [|intros ?]; by apply emits_record.
Qed.

Lemma upsert_abi_emits account abi_bytes now_ms :
  emits projector_event (upsert_abi account abi_bytes now_ms).
Proof.
  unfold upsert_abi.
  destruct (unpack_abi_def _); [|apply emits_ret].
  destruct (setabi_doc _ _ _); [|apply emits_ret].
  destruct (_ ≫= _).
  - by apply emits_record.
  - by apply emits_silent.
Qed.

Lemma update_setabi_emits act : emits projector_event (update_setabi act).
Proof.
  unfold update_setabi.
  apply emits_bind; [apply emits_time_point_now|]. intros us.
  destruct (unpack_setabi _); [|apply emits_ret].
  apply emits_bind; [by apply emits_record|]. intros _.
  apply emits_bind; [by apply emits_silent|]. intros _.
  apply emits_bind; [by apply emits_find_account|]. intros account.
  apply emits_bind.
  { destruct account; [apply emits_ret|]. by apply emits_record. }
  intros _.
  apply emits_bind; [by apply emits_find_account|]. intros [account'|].
  - apply upsert_abi_emits.
  - apply emits_ret.
Qed.

(** After the mark of the call, [update_account] adds only events of the
    projector. *)
Lemma update_account_history act st :
  start_block_reached (update_account cfg act st).2 = start_block_reached st
  ∧ ∃ evs, history (update_account cfg act st).2
           = history st ++ Update_account_called act :: evs
         ∧ Forall projector_event evs.
Proof.
  set (st1 := set_history (history st ++ [Update_account_called act]) st).
  assert (Hrest : emits projector_event
            (if negb (act_account act =? system_account_name)%N then ret tt
             else if (act_name act =? newaccount)%N then update_newaccount cfg act
             else if (act_name act =? updateauth)%N then update_updateauth cfg act
             else if (act_name act =? deleteauth)%N then update_deleteauth act
             else if (act_name act =? setabi)%N then update_setabi act
             else ret tt)).
  { destruct (negb _); [apply emits_ret|].
    destruct (_ =? newaccount)%N; [apply update_newaccount_emits|].
    destruct (_ =? updateauth)%N; [apply update_updateauth_emits|].
    destruct (_ =? deleteauth)%N; [apply update_deleteauth_emits|].
    destruct (_ =? setabi)%N; [apply update_setabi_emits|]. apply emits_ret. }
  destruct (Hrest st1) as (Hr & evs & Hh & Hp).
  split; [exact Hr|]. exists evs. split; [|done].
  transitivity (history st1 ++ evs); [exact Hh|].
  subst st1. simpl. by rewrite <- app_assoc.
Qed.

End Footprints.

(** ** Walking the action traces *)

Lemma action_trace_forall_ind (P : action_trace → Prop) :
  (∀ receiver act inlines, Forall P inlines → P (Action_trace receiver act inlines)) →
  ∀ a, P a.
Proof.
  intros Hnode. fix IH 1. intros [receiver act inlines].
  apply Hnode. induction inlines as [|x rest IHrest]; constructor; [apply IH|apply IHrest].
Qed.

Lemma projected_app h1 h2 : projected (h1 ++ h2) = projected h1 ++ projected h2.
Proof. apply omap_app. Qed.

Lemma indexed_app ty h1 h2 : indexed ty (h1 ++ h2) = indexed ty h1 ++ indexed ty h2.
Proof. apply omap_app. Qed.

Lemma projected_projector evs : Forall projector_event evs → projected evs = [].
Proof.
  induction 1 as [|e evs He _ IH]; [done|].
  destruct e as [r| |]; simpl in *; try done.
Qed.

Lemma projected_search evs : Forall is_search_event evs → projected evs = [].
Proof.
  induction 1 as [|e evs He _ IH]; [done|].
  destruct e as [r| |]; simpl in *; try done.
Qed.

Lemma indexed_search ty evs : Forall is_search_event evs → indexed ty evs = [].
Proof.
  induction 1 as [|e evs He _ IH]; [done|].
  destruct e as [[]| |]; simpl in *; try done.
Qed.

Lemma indexed_projector ty evs :
  ty ≠ accounts_type → Forall projector_event evs → indexed ty evs = [].
Proof.
  intros Hty. induction 1 as [|e evs He _ IH]; [done|].
  destruct e as [[ty' q|ty' json id| |]| |]; simpl in *; try done.
  subst ty'. destruct (String.eqb_spec accounts_type ty); [congruence|done].
Qed.

Section Walk.

Context `{Env} (cfg : config).

Lemma traces_loop_walked visit executed l :
  Forall (λ a, ∀ bulk st, walked cfg executed [a] false st (visit bulk a st)) l →
  ∀ added bulk st,
    walked cfg executed l added st (traces_loop visit l added bulk st).
Proof.
  induction 1 as [|a rest Ha _ IH]; intros added bulk st.
  - simpl. split; [done|]. split.
    + by rewrite andb_false_r, orb_false_r.
    + exists []. rewrite app_nil_r. by destruct executed.
  - simpl. unfold bind at 1.
    specialize (Ha bulk st). destruct (visit bulk a st) as [[a1 bulk1] st1].
    destruct Ha as (Hr1 & Ha1 & evs1 & Hh1 & Hp1 & Hi1). simpl in *.
    destruct (IH (added || a1) bulk1 st1) as (Hr2 & Ha2 & evs2 & Hh2 & Hp2 & Hi2).
    rewrite app_nil_r in *.
    split; [congruence|]. split.
    + change (flat_map nodes (a :: rest)) with (nodes a ++ flat_map nodes rest).
      rewrite Ha2, Ha1, Hr1, existsb_app.
      destruct added, (start_block_reached st), (store_action_traces cfg),
        (existsb _ (nodes a)), (existsb _ (flat_map nodes rest)); reflexivity.
    + exists (evs1 ++ evs2). rewrite Hh2, Hh1, app_assoc.
      split; [done|]. rewrite projected_app, indexed_app, Hp1, Hp2, Hi1, Hi2.
      split; [|done]. destruct executed; [|done].
      change (flat_map nodes (a :: rest)) with (nodes a ++ flat_map nodes rest).
      by rewrite List.filter_app, fmap_app.
Qed.

Lemma add_action_trace_walked executed now_ms atrace :
  ∀ bulk st,
    walked cfg executed [atrace] false st
      (add_action_trace cfg bulk atrace executed now_ms st).
Proof.
  induction atrace as [receiver act inlines IH] using action_trace_forall_ind.
  intros bulk st. simpl add_action_trace. unfold bind at 1.
  (* the projection *)
  assert (Hup : ∃ st1,
    (when (executed && (receiver =? system_account_name)%N)
       (update_account cfg act) st) = (tt, st1)
    ∧ start_block_reached st1 = start_block_reached st
    ∧ ∃ evs, history st1 = history st ++ evs
           ∧ projected evs
             = (if executed && (receiver =? system_account_name)%N then [act] else [])
           ∧ indexed trans_traces_type evs = []).
  { destruct (executed && _); simpl.
    - destruct (update_account_history cfg act st) as (Hr & evs & Hh & Hp).
      destruct (update_account cfg act st) as [[] st1]. exists st1.
      split; [done|]. split; [done|]. eexists. split; [exact Hh|].
      simpl. rewrite (projected_projector _ Hp).
      split; [done|]. by apply indexed_projector.
    - exists st. split; [done|]. split; [done|]. exists []. by rewrite app_nil_r. }
  destruct Hup as (st1 & -> & Hr1 & evs1 & Hh1 & Hp1 & Hi1).
  unfold bind at 1, get at 1.
  (* the document of the node *)
  set (this := start_block_reached st1 && store_action_traces cfg
               && filter_include cfg act).
  unfold bind at 1.
  assert (Hdoc : ∃ bulk2 st2,
    (if this then
       let* doc := to_variant_with_abi cfg (R_action_trace receiver act) in
       ret (true, bulk ++ [(action_traces_type,
                            V_object (mvo_set "createdAt" (V_int now_ms) doc))])
     else ret (false, bulk)) st1 = (this, bulk2, st2)
    ∧ start_block_reached st2 = start_block_reached st1
    ∧ ∃ evs, history st2 = history st1 ++ evs
           ∧ projected evs = [] ∧ indexed trans_traces_type evs = []).
  { destruct this.
    - unfold bind.
      destruct (to_variant_with_abi_emits cfg (R_action_trace receiver act) st1)
        as (Hr & evs & Hh & Hp).
      destruct (to_variant_with_abi cfg _ st1) as [doc st2]. simpl in *.
      eexists _, st2. split; [done|]. split; [done|]. exists evs.
      split; [done|]. split; [by apply projected_search|by apply indexed_search].
    - eexists bulk, st1. split; [done|]. split; [done|]. exists [].
      by rewrite app_nil_r. }
  destruct Hdoc as (bulk2 & st2 & -> & Hr2 & evs2 & Hh2 & Hp2 & Hi2).
  (* the inline traces *)
  destruct (traces_loop_walked
              (λ bulk iline_atrace, add_action_trace cfg bulk iline_atrace executed now_ms)
              executed inlines IH this bulk2 st2)
    as (Hr3 & Ha3 & evs3 & Hh3 & Hp3 & Hi3).
  split; [congruence|]. split.
  - rewrite Ha3. simpl. rewrite app_nil_r. unfold passes at 1. simpl.
    subst this. rewrite Hr2, Hr1.
    change (passes cfg (Action_trace receiver act inlines))
      with (filter_include cfg act).
    fold (passes cfg).
    generalize (start_block_reached st), (store_action_traces cfg),
      (filter_include cfg act), (existsb (passes cfg) (flat_map nodes inlines)).
    by intros [] [] [] [].
  - exists (evs1 ++ evs2 ++ evs3). rewrite Hh3, Hh2, Hh1, <- !app_assoc.
    split; [done|].
    rewrite !projected_app, !indexed_app, Hp1, Hp2, Hp3, Hi1, Hi2, Hi3.
    split; [|done]. destruct executed; [|done]. simpl. rewrite app_nil_r.
    change (system_receiver (Action_trace receiver act inlines))
      with (receiver =? system_account_name)%N.
    destruct (receiver =? system_account_name)%N; done.
Qed.

Lemma action_traces_walked executed now_ms l added bulk st :
  walked cfg executed l added st
    (traces_loop (λ bulk atrace, add_action_trace cfg bulk atrace executed now_ms)
       l added bulk st).
Proof.
  apply traces_loop_walked, Forall_forall. intros a _ bulk' st'.
  apply add_action_trace_walked.
Qed.

End Walk.

(** ** Applied transactions *)

Lemma new_events_app st st' evs :
  history st' = history st ++ evs → new_events st st' = evs.
Proof. unfold new_events. intros ->. by rewrite drop_app_length. Qed.

Section Applied.

Context `{Env} (cfg : config).

Lemma _process_applied_transaction_history t st :
  ∃ st' evs doc,
    _process_applied_transaction cfg t st = (tt, st')
    ∧ start_block_reached st' = start_block_reached st
    ∧ history st' = history st ++ evs
    ∧ projected evs
      = (if trace_executed t
         then trace_act <$> List.filter system_receiver (trace_nodes t) else [])
    ∧ indexed trans_traces_type evs
      = (if start_block_reached st && store_action_traces cfg
            && some_trace_passes cfg t && store_transaction_traces cfg
         then [(doc, None)] else []).
Proof.
  unfold _process_applied_transaction. unfold bind at 1. cbn [time_point_now].
  fold (trace_executed t).
  generalize (to_milliseconds (now (clock st))). intros now_ms.
  pose proof (action_traces_walked cfg (trace_executed t) now_ms
                (action_traces t) false [] (set_clock (S (clock st)) st)) as Hw.
  unfold bind at 1.
  destruct (traces_loop _ _ _ _ _) as [[write_atraces bulk] st1].
  destruct Hw as (Hr1 & Ha1 & evs1 & Hh1 & Hp1 & Hi1).
  cbn [fst snd start_block_reached history set_clock orb] in *.
  fold (trace_nodes t) in *. fold (some_trace_passes cfg t) in *.
  unfold bind at 1.
  assert (Hbulk : ∃ st2, when write_atraces (es_bulk_perform cfg bulk) st1 = (tt, st2)
            ∧ start_block_reached st2 = start_block_reached st1
            ∧ ∃ evs, history st2 = history st1 ++ evs
                   ∧ projected evs = [] ∧ indexed trans_traces_type evs = []).
  { destruct write_atraces; simpl.
    - eexists. split; [reflexivity|]. split; [done|]. by eexists [_].
    - exists st1. split; [done|]. split; [done|]. exists []. by rewrite app_nil_r. }
  destruct Hbulk as (st2 & -> & Hr2 & evs2 & Hh2 & Hp2 & Hi2).
  unfold bind at 1, get at 1. rewrite Hr2, Hr1.
  assert (Hquiet : ∀ b : bool, b = false →
            ∃ st' evs (doc : variant),
              (tt, st2) = (tt, st')
              ∧ start_block_reached st' = start_block_reached st
              ∧ history st' = history st ++ evs
              ∧ projected evs
                = (if trace_executed t
                   then trace_act <$> List.filter system_receiver (trace_nodes t)
                   else [])
              ∧ indexed trans_traces_type evs = if b then [(doc, None)] else []).
  { intros b ->. exists st2, (evs1 ++ evs2), V_null. split; [done|].
    split; [congruence|].
    rewrite Hh2, Hh1, <- !app_assoc. split; [done|].
    rewrite !projected_app, !indexed_app, Hp1, Hp2, Hi1, Hi2.
    by rewrite !app_nil_r. }
  destruct (start_block_reached st) eqn:Hreached; cbn [negb orb andb];
    [|exact (Hquiet false eq_refl)].
  destruct (store_transaction_traces cfg) eqn:Htt; cbn [negb orb andb];
    [|rewrite andb_false_r; exact (Hquiet false eq_refl)].
  rewrite Ha1, andb_true_r. cbn [andb].
  destruct (store_action_traces cfg && some_trace_passes cfg t) eqn:Hw;
    cbn [negb]; [|exact (Hquiet false eq_refl)].
  unfold bind.
  destruct (to_variant_with_abi_emits cfg (R_transaction_trace t) st2)
    as (Hr3 & evs3 & Hh3 & Hp3).
  destruct (to_variant_with_abi cfg _ st2) as [doc st3].
  cbn [fst snd] in *.
  eexists _, (evs1 ++ evs2 ++ evs3 ++ [_]), _. split; [reflexivity|].
  cbn [es_index record modify_state history set_history start_block_reached snd].
  split; [congruence|].
  rewrite Hh3, Hh2, Hh1, <- !app_assoc. split; [reflexivity|].
  rewrite !projected_app, !indexed_app, Hp1, Hp2, Hi1, Hi2,
    (projected_search _ Hp3), (indexed_search _ _ Hp3).
  split; [by rewrite !app_nil_r|]. reflexivity.
Qed.

(** With the gate closed an applied transaction is dropped whole: nothing is
    projected and nothing is written. *)
Lemma process_applied_transaction_gate_closed t st :
  start_block_reached st = false →
  process_applied_transaction cfg t st = (tt, st).
Proof.
  intros Hclosed. unfold process_applied_transaction, bind, get. by rewrite Hclosed.
Qed.

Lemma process_applied_transaction_gate_open t st :
  start_block_reached st = true →
  process_applied_transaction cfg t st = _process_applied_transaction cfg t st.
Proof.
  intros Hopen. unfold process_applied_transaction, bind, get. by rewrite Hopen.
Qed.

End Applied.

Lemma existsb_passes c l :
  existsb (passes c) l = true ↔ ∃ a, a ∈ l ∧ passes c a = true.
Proof.
  rewrite existsb_exists. split; intros (a & Ha & Hp); exists a; split; try done.
  - by apply list_elem_of_In.
  - by apply list_elem_of_In.
Qed.

(** X25. With the gate open every node that the system account received in an
    executed transaction is projected, in the order of the walk, whatever
    [store_action_traces] is. *)
Theorem gate_open_projects_system_nodes `{Env} (cfg : config) (t : transaction_trace)
    (st : state) :
  start_block_reached st = true →
  projected (new_events st (process_applied_transaction cfg t st).2)
  = (if trace_executed t
     then trace_act <$> List.filter system_receiver (trace_nodes t) else [])
  ∧ projects_system_nodes cfg st t.
Proof.
  intros Hopen. rewrite (process_applied_transaction_gate_open _ _ _ Hopen).
  assert (Heq : projected (new_events st (_process_applied_transaction cfg t st).2)
    = (if trace_executed t
       then trace_act <$> List.filter system_receiver (trace_nodes t) else [])).
  { destruct (_process_applied_transaction_history cfg t st)
      as (st' & evs & doc & -> & _ & Hh & Hp & _).
    cbn [snd]. by rewrite (new_events_app _ _ _ Hh). }
  split; [done|].
  unfold projects_system_nodes.
  rewrite (process_applied_transaction_gate_open _ _ _ Hopen), Heq.
  intros -> a Ha Hsys. apply list_elem_of_fmap. exists a. split; [done|].
  apply list_elem_of_In, List.filter_In. split; [by apply list_elem_of_In|done].
Qed.

Lemma gate_open_projects_system_nodes_witness :
  let cfg := Reference.with_store_action_traces false plugin_initialize in
  let t := Reference.executed_trace
             [Action_trace system_account_name Reference.newaccount_alice
                [Action_trace Reference.bob Reference.transfer []]] in
  @projects_system_nodes Reference.env cfg (startup cfg) t.
Proof.
  intros cfg t.
  apply (@gate_open_projects_system_nodes Reference.env cfg t (startup cfg)).
  reflexivity.
Defined.

(** What [process_applied_transaction] would do with the gate closed, a
    state the plugin does not get into since [plugin_initialize] sets
    [start_block_num] to 0 and opens the gate: with [start_block_num] at 100
    and no block accepted yet, an executed transaction whose only action, a
    [newaccount], was received by the system account is dropped and
    [update_account] is not called. *)
Theorem gate_closed_node_not_projected :
  let cfg := Reference.with_start_block 100 plugin_initialize in
  let t := Reference.executed_trace
             [Action_trace system_account_name Reference.newaccount_alice []] in
  @process_applied_transaction Reference.env cfg t (startup cfg) = (tt, startup cfg)
  ∧ ¬ @projects_system_nodes Reference.env cfg (startup cfg) t.
Proof.
  intros cfg t. split; [reflexivity|].
  intros Hclaim.
  specialize (Hclaim eq_refl (Action_trace system_account_name Reference.newaccount_alice [])).
  assert (Hin : Action_trace system_account_name Reference.newaccount_alice []
                ∈ trace_nodes t) by (simpl; left).
  specialize (Hclaim Hin eq_refl). vm_compute in Hclaim.
  by apply elem_of_nil in Hclaim.
Qed.

(** X26. A [transaction_traces] document is indexed exactly when the gate is open,
    [store_transaction_traces] and [store_action_traces] are both set, and one
    action trace passes the filter; it is then indexed once. *)
Theorem trace_document_indexed_iff `{Env} (cfg : config) (t : transaction_trace)
    (st : state) :
  (trace_document_indexed cfg st t ↔
     some_trace_passes cfg t = true ∧ store_action_traces cfg = true
     ∧ store_transaction_traces cfg = true ∧ start_block_reached st = true)
  ∧ (length (indexed trans_traces_type
               (new_events st (process_applied_transaction cfg t st).2)) ≤ 1)%nat.
Proof.
  unfold trace_document_indexed.
  destruct (start_block_reached st) eqn:Hgate.
  - rewrite (process_applied_transaction_gate_open _ _ _ Hgate).
    destruct (_process_applied_transaction_history cfg t st)
      as (st' & evs & doc & -> & _ & Hh & _ & Hi).
    cbn [snd]. rewrite (new_events_app _ _ _ Hh), Hi, Hgate. simpl.
    destruct (store_action_traces cfg), (some_trace_passes cfg t),
      (store_transaction_traces cfg); simpl; split; try lia; split; try done;
      intros; intuition congruence.
  - rewrite (process_applied_transaction_gate_closed _ _ _ Hgate).
    unfold new_events. simpl. rewrite drop_all. simpl.
    split; [|lia]. split; [done|]. intros (_ & _ & _ & ?). done.
Qed.

(** What [_process_applied_transaction] would do with [store_action_traces]
    off, a value the field never takes (it is initialised to true and not
    assigned): the gate open, [store_transaction_traces] set and an action
    that [filter_include] would admit, no [transaction_traces] document is
    indexed; [filter_include] is not called then. *)
Theorem trace_document_needs_action_traces :
  let cfg := Reference.with_store_action_traces false plugin_initialize in
  let t := Reference.executed_trace [Action_trace Reference.bob Reference.transfer []] in
  (some_trace_passes cfg t = true ∧ store_transaction_traces cfg = true
   ∧ start_block_reached (startup cfg) = true)
  ∧ ¬ @trace_document_indexed Reference.env cfg (startup cfg) t.
Proof.
  intros cfg t. split.
  - split; [by vm_compute|]. by split.
  - intros Hindexed. apply Hindexed. by vm_compute.
Qed.

(** ** Accepted blocks *)

Section Blocks.

Context `{Env} (cfg : config).

Lemma _process_accepted_block_history bs st :
  ∃ st' evs now_ms block,
    _process_accepted_block cfg bs st = (tt, st')
    ∧ start_block_reached st' = start_block_reached st
    ∧ history st' = history st ++ evs
    ∧ indexed block_states_type evs = [(block_state_doc bs now_ms, None)]
    ∧ indexed blocks_type evs
      = (if store_blocks cfg then [(block_doc bs block now_ms, None)] else []).
Proof.
  unfold _process_accepted_block. unfold bind at 1. cbn [time_point_now].
  generalize (to_milliseconds (now (clock st))). intros now_ms.
  unfold bind at 1, es_index at 1, record at 1, modify_state at 1.
  cbn [history set_clock].
  destruct (store_blocks cfg); cbn [negb].
  - unfold bind.
    match goal with
    | |- context [to_variant_with_abi cfg (R_block bs) ?s] =>
        destruct (to_variant_with_abi_emits cfg (R_block bs) s)
          as (Hr & evs & Hh & Hp);
        destruct (to_variant_with_abi cfg (R_block bs) s) as [block st1]
    end.
    cbn [fst snd history set_history start_block_reached set_clock] in *.
    eexists _, ([Es (Index block_states_type (block_state_doc bs now_ms) None)]
                ++ evs
                ++ [Es (Index blocks_type (block_doc bs block now_ms) None)]),
      now_ms, block.
    split; [reflexivity|].
    cbn [es_index record modify_state history set_history start_block_reached snd].
    split; [done|]. rewrite Hh, <- !app_assoc. split; [reflexivity|].
    rewrite !indexed_app, !(indexed_search _ _ Hp). split; reflexivity.
  - eexists _, [_], now_ms, []. split; [reflexivity|]. by cbn.
Qed.

End Blocks.

(** C4. An accepted block at or above [start_block_num] opens a closed gate.
    Whenever the gate is open after that check, one [block_states] document
    is indexed for the block, and one [blocks] document exactly when
    [store_blocks] is set.  A block below [start_block_num] met with the gate
    closed changes nothing: no document is written. *)
Theorem accepted_block_gate `{Env} (cfg : config) (bs : block_state) (st : state) :
  ∃ st' evs,
    process_accepted_block cfg bs st = (tt, st')
    ∧ history st' = history st ++ evs
    ∧ (start_block_reached st = false → start_block_num cfg ≤ block_num bs →
       start_block_reached st' = true)
    ∧ (start_block_reached st' = true →
       ∃ now_ms block,
         indexed block_states_type evs = [(block_state_doc bs now_ms, None)]
         ∧ indexed blocks_type evs
           = (if store_blocks cfg then [(block_doc bs block now_ms, None)] else []))
    ∧ (start_block_reached st = false → block_num bs < start_block_num cfg →
       st' = st ∧ evs = []).
Proof.
  unfold process_accepted_block. unfold bind at 1, get at 1.
  destruct (start_block_reached st) eqn:Hgate; cbn [negb when].
  - unfold bind at 1, ret at 1. unfold bind, get. rewrite Hgate. cbn [when].
    destruct (_process_accepted_block_history cfg bs st)
      as (st' & evs & now_ms & block & -> & Hr & Hh & Hs & Hb).
    exists st', evs. split; [done|]. split; [done|]. split; [done|].
    split; [|done]. intros _. by exists now_ms, block.
  - destruct (Z.leb_spec (start_block_num cfg) (block_num bs)) as [Hge|Hlt];
      cbn [when].
    + unfold bind at 1, modify_state at 1. unfold bind, get.
      cbn [start_block_reached set_start_block_reached when].
      destruct (_process_accepted_block_history cfg bs (set_start_block_reached true st))
        as (st' & evs & now_ms & block & -> & Hr & Hh & Hs & Hb).
      exists st', evs. split; [done|]. split; [done|]. split; [done|].
      split; [|lia]. intros _. by exists now_ms, block.
    + unfold bind at 1, ret at 1. unfold bind, get. rewrite Hgate. cbn [when].
      exists st, []. split; [done|]. rewrite app_nil_r. split; [done|].
      split; [lia|]. split; [congruence|done].
Qed.

(** The gate scenario, [start_block_num] being 100: block 99 leaves the state
    as it was; block 100 opens the gate and gets its [block_states] and
    [blocks] documents. *)
Lemma accepted_block_gate_witness :
  let cfg := Reference.with_start_block 100 plugin_initialize in
  @process_accepted_block Reference.env cfg (Reference.block 99) (startup cfg)
  = (tt, startup cfg)
  ∧ ∃ st' now_ms block,
      @process_accepted_block Reference.env cfg (Reference.block 100) (startup cfg)
      = (tt, st')
      ∧ start_block_reached st' = true
      ∧ indexed block_states_type (history st')
        = [(@block_state_doc Reference.env (Reference.block 100) now_ms, None)]
      ∧ indexed blocks_type (history st')
        = [(block_doc (Reference.block 100) block now_ms, None)].
Proof.
  intros cfg. split.
  - destruct (@accepted_block_gate Reference.env cfg (Reference.block 99) (startup cfg))
      as (st' & evs & -> & _ & _ & _ & Hbelow).
    destruct Hbelow as [-> _]; [done|simpl; lia|done].
  - destruct (@accepted_block_gate Reference.env cfg (Reference.block 100) (startup cfg))
      as (st' & evs & -> & Hh & Hopen & Hdocs & _).
    specialize (Hopen eq_refl ltac:(simpl; lia)).
    destruct (Hdocs Hopen) as (now_ms & block & Hs & Hb).
    exists st', now_ms, block. simpl in Hh. rewrite Hh. by repeat split.
Defined.

(** ** Account projection *)

Lemma es_requests_app h1 h2 : es_requests (h1 ++ h2) = es_requests h1 ++ es_requests h2.
Proof. apply omap_app. Qed.

(** An action of another account: the call is marked and nothing else
    happens. *)
Lemma update_account_skips `{Env} (cfg : config) (act : action) (st : state) :
  act_account act ≠ system_account_name →
  update_account cfg act st
  = (tt, set_history (history st ++ [Update_account_called act]) st).
Proof.
  intros Hother. unfold update_account, bind, record, modify_state.
  apply N.eqb_neq in Hother. by rewrite Hother.
Qed.

(** C9. For an action whose account is not the system account,
    [update_account] returns at once: the history gains the mark of the call
    and nothing else, so no request reaches the search store, and the ABI
    cache is as it was.  The receiver of the trace plays no part in it. *)
Theorem update_account_other_account `{Env} (cfg : config) (act : action) (st : state) :
  act_account act ≠ system_account_name →
  ∃ st',
    update_account cfg act st = (tt, st')
    ∧ new_events st st' = [Update_account_called act]
    ∧ es_requests (new_events st st') = []
    ∧ abi_cache_index st' = abi_cache_index st.
Proof.
  intros Hother. rewrite (update_account_skips cfg act st Hother).
  eexists. split; [reflexivity|].
  assert (Hnew : new_events st
                   (set_history (history st ++ [Update_account_called act]) st)
                 = [Update_account_called act]) by by apply new_events_app.
  rewrite Hnew. by repeat split.
Qed.

Lemma update_account_other_account_witness :
  ∃ st',
    @update_account Reference.env plugin_initialize Reference.transfer
      (startup plugin_initialize) = (tt, st')
    ∧ new_events (startup plugin_initialize) st'
      = [Update_account_called Reference.transfer]
    ∧ es_requests (new_events (startup plugin_initialize) st') = []
    ∧ abi_cache_index st' = abi_cache_index (startup plugin_initialize).
Proof.
  apply (@update_account_other_account Reference.env plugin_initialize
           Reference.transfer (startup plugin_initialize)).
  by vm_compute.
Defined.

Section Accounts.

Context `{Env} (cfg : config).

Lemma find_account_run nm st :
  find_account nm st
  = (if negb (Z.of_nat (length (account_hits nm st)) =? 1) then None
     else account_hits nm st !! 0%nat,
     set_history (history st ++ [Es (Search accounts_type
                                       (Term "name" (Name.to_string nm)))]) st).
Proof.
  unfold find_account, bind, es_search, account_hits.
  by destruct (negb _).
Qed.

Lemma find_account_found nm st v :
  (find_account nm st).1 = Some v → account_hits nm st = [v].
Proof.
  rewrite find_account_run. cbn [fst].
  destruct (Z.eqb_spec (Z.of_nat (length (account_hits nm st))) 1) as [Hone|];
    [|done].
  cbn [negb].
  destruct (account_hits nm st) as [|v' [|v'' rest]]; simpl in *; try lia.
  by intros [= ->].
Qed.

Lemma find_account_not_found nm st :
  length (account_hits nm st) ≠ 1%nat → (find_account nm st).1 = None.
Proof.
  intros Hn. rewrite find_account_run. cbn [fst].
  destruct (Z.eqb_spec (Z.of_nat (length (account_hits nm st))) 1); [lia|done].
Qed.

End Accounts.

Section Setabi.

Context `{Env} (cfg : config).

(** The marks in the history are not requests: the hits of a search do not
    depend on them. *)
Lemma account_hits_requests nm st st' :
  es_requests (history st') = es_requests (history st) →
  account_hits nm st' = account_hits nm st.
Proof. unfold account_hits. by intros ->. Qed.

Lemma upsert_abi_run account abi_bytes now_ms st :
  ∃ st', upsert_abi account abi_bytes now_ms st = (tt, st')
    ∧ abi_cache_index st' = abi_cache_index st
    ∧ ((∃ abi doc id,
          unpack_abi_def abi_bytes = Some abi
          ∧ setabi_doc account abi now_ms = Some doc
          ∧ variant_get account "_id" ≫= as_string = Some id
          ∧ history st' = history st ++ [Es (Index accounts_type doc (Some id))])
       ∨ ((unpack_abi_def abi_bytes = None
           ∨ (∃ abi, unpack_abi_def abi_bytes = Some abi
                     ∧ setabi_doc account abi now_ms = None)
           ∨ variant_get account "_id" ≫= as_string = None)
          ∧ history st' = history st)).
Proof.
  unfold upsert_abi.
  destruct (unpack_abi_def abi_bytes) as [abi|] eqn:Habi.
  - destruct (setabi_doc account abi now_ms) as [doc|] eqn:Hdoc.
    + destruct (variant_get account "_id" ≫= as_string) as [id|] eqn:Hid.
      * eexists. split; [reflexivity|]. split; [done|]. left.
        by exists abi, doc, id.
      * eexists. split; [reflexivity|]. split; [done|]. right. split; [|done].
        by right; right.
    + eexists. split; [reflexivity|]. split; [done|]. right. split; [|done].
      right; left. by exists abi.
  - eexists. split; [reflexivity|]. split; [done|]. right. split; [|done]. by left.
Qed.

(** The [setabi] branch, step by step.  [st1] is the state after the erase,
    [st2] after the first search and the creation it may lead to. *)
Lemma update_setabi_run act sa st :
  unpack_setabi (act_data act) = Some sa →
  let now_ms := to_milliseconds (now (clock st)) in
  let q := Term "name" (Name.to_string (sa_account sa)) in
  let st1 :=
    set_abi_cache_index (cache_erase (sa_account sa) (abi_cache_index st))
      (set_history (history st ++ [Abi_cache_erased (sa_account sa)])
         (set_clock (S (clock st)) st)) in
  let first := (find_account (sa_account sa) st1).1 in
  let created :=
    match first with
    | None => [Es (Index accounts_type
                     (V_object [("name", V_string (Name.to_string (sa_account sa)));
                                ("createAt", V_int now_ms)]%string) None)]
    | Some _ => []
    end in
  let st2 := set_history (history st1 ++ [Es (Search accounts_type q)] ++ created) st1 in
  let st3 := set_history (history st2 ++ [Es (Search accounts_type q)]) st2 in
  update_setabi act st
  = match (find_account (sa_account sa) st2).1 with
    | None => (tt, st3)
    | Some account => upsert_abi account (sa_abi sa) now_ms st3
    end.
Proof.
  intros Hsa now_ms q st1 first created st2 st3.
  unfold update_setabi. unfold bind at 1. cbn [time_point_now]. rewrite Hsa.
  unfold bind at 1, record at 1, modify_state at 1.
  unfold bind at 1, modify_state at 1.
  cbn [history set_clock abi_cache_index set_history]. fold st1.
  unfold bind at 1. rewrite (find_account_run (sa_account sa) st1).
  pose proof (find_account_run (sa_account sa) st1) as Hfirst.
  apply (f_equal fst) in Hfirst. cbn [fst] in Hfirst. fold first in Hfirst.
  rewrite <- Hfirst. fold q.
  assert (Hst2 :
    (match first with
     | None => create_account (sa_account sa) now_ms
     | Some _ => ret tt
     end) (set_history (history st1 ++ [Es (Search accounts_type q)]) st1)
    = (tt, st2)).
  { subst st2 created. destruct first; simpl.
    - reflexivity.
    - unfold create_account, es_index, record, modify_state. simpl.
      by rewrite <- app_assoc. }
  unfold bind at 1. fold now_ms. rewrite Hst2.
  unfold bind at 1. rewrite (find_account_run (sa_account sa) st2).
  cbn [fst]. fold q. fold st3.
  match goal with |- match ?x with _ => _ end _ = _ => by destruct x end.
Qed.

End Setabi.

Lemma cache_find_erase n idx : cache_find n (cache_erase n idx) = None.
Proof.
  induction idx as [|x rest IH]; [done|]. unfold cache_erase, cache_find in *. simpl.
  destruct (account x =? n)%N eqn:Hx; simpl; [done|]. by rewrite Hx.
Qed.

Section SetabiProjection.

Context `{Env} (cfg : config).

Lemma update_account_setabi act st :
  act_account act = system_account_name → act_name act = setabi →
  update_account cfg act st
  = update_setabi act (set_history (history st ++ [Update_account_called act]) st).
Proof.
  intros Hacc Hname. unfold update_account. unfold bind at 1, record, modify_state.
  by rewrite Hacc, Hname.
Qed.

(** The events of a [setabi] projection: after the mark of the call comes the
    erase, then the first search; when that search does not find exactly one
    account, the creation of a document follows; and the cache ends without an
    entry for the account. *)
Lemma update_account_setabi_events act sa st :
  act_account act = system_account_name → act_name act = setabi →
  unpack_setabi (act_data act) = Some sa →
  ∃ st' rest,
    update_account cfg act st = (tt, st')
    ∧ new_events st st'
      = Update_account_called act :: Abi_cache_erased (sa_account sa)
        :: Es (Search accounts_type (Term "name" (Name.to_string (sa_account sa))))
        :: rest
    ∧ abi_cache_index st' = cache_erase (sa_account sa) (abi_cache_index st)
    ∧ (length (account_hits (sa_account sa) st) ≠ 1%nat →
       ∃ now_ms rest',
         rest = Es (Index accounts_type
                      (V_object [("name", V_string (Name.to_string (sa_account sa)));
                                 ("createAt", V_int now_ms)]%string) None) :: rest')
    ∧ (backend_hits → ∀ ty doc id, Es (Index ty doc (Some id)) ∉ rest).
Proof.
  intros Hacc Hname Hsa. rewrite (update_account_setabi _ _ Hacc Hname).
  set (st0 := set_history (history st ++ [Update_account_called act]) st).
  pose proof (update_setabi_run act sa st0 Hsa) as Hrun. cbv zeta in Hrun.
  set (now_ms := to_milliseconds (now (clock st0))) in *.
  set (q := Term "name" (Name.to_string (sa_account sa))) in *.
  set (st1 := set_abi_cache_index _ _) in *.
  set (first := (find_account (sa_account sa) st1).1) in *.
  set (created := match first with None => _ | Some _ => _ end) in *.
  set (st2 := set_history (history st1 ++ _ ++ created) st1) in *.
  set (st3 := set_history _ st2) in *.
  assert (Hhits1 : account_hits (sa_account sa) st1 = account_hits (sa_account sa) st).
  { apply account_hits_requests. subst st1 st0. cbn [history set_abi_cache_index
      set_history set_clock]. rewrite !es_requests_app. simpl. by rewrite !app_nil_r. }
  assert (Hh3 : history st3
                = history st ++ Update_account_called act
                  :: Abi_cache_erased (sa_account sa) :: Es (Search accounts_type q)
                  :: created ++ [Es (Search accounts_type q)]).
  { subst st3 st2 st1 st0. cbn [history set_history set_abi_cache_index set_clock].
    rewrite <- !app_assoc. reflexivity. }
  assert (Hcreated : length (account_hits (sa_account sa) st) ≠ 1%nat →
            ∃ rest', created ++ [Es (Search accounts_type q)]
              = Es (Index accounts_type
                      (V_object [("name", V_string (Name.to_string (sa_account sa)));
                                 ("createAt", V_int now_ms)]%string) None) :: rest').
  { intros Hn. subst created first.
    rewrite (find_account_not_found _ _ ltac:(by rewrite Hhits1)). by eexists. }
  assert (Hnoup : ∀ ty doc id,
            Es (Index ty doc (Some id)) ∉ created ++ [Es (Search accounts_type q)]).
  { intros ty doc id Hin. apply elem_of_app in Hin as [Hin|Hin].
    - subst created. destruct first; [by apply elem_of_nil in Hin|].
      apply list_elem_of_singleton in Hin. congruence.
    - apply list_elem_of_singleton in Hin. congruence. }
  rewrite Hrun.
  destruct ((find_account (sa_account sa) st2).1) as [account|] eqn:Hsecond.
  - destruct (upsert_abi_run account (sa_abi sa) now_ms st3)
      as (st' & -> & Hc & Hup).
    destruct Hup as [(abi & doc & id & Habi & Hdoc & Hid & Hh)|[Hwhy Hh]].
    + exists st', (created ++ [Es (Search accounts_type q);
                              Es (Index accounts_type doc (Some id))]).
      split; [done|]. split.
      { apply new_events_app. rewrite Hh, Hh3. rewrite <- !app_assoc. simpl.
        by rewrite <- !app_assoc. }
      split; [by rewrite Hc|]. split.
      { intros Hn. destruct (Hcreated Hn) as (rest' & Hr).
        exists now_ms. subst created. destruct first; simpl in *; [done|].
        by eexists. }
      intros Hbackend ty doc' id' _.
      apply find_account_found in Hsecond.
      assert (Hin : account ∈ account_hits (sa_account sa) st2)
        by (rewrite Hsecond; left).
      apply Hbackend in Hin. unfold setabi_doc in Hdoc. by rewrite Hin in Hdoc.
    + exists st', (created ++ [Es (Search accounts_type q)]).
      split; [done|]. split; [apply new_events_app; by rewrite Hh, Hh3|].
      split; [by rewrite Hc|]. split.
      { intros Hn. destruct (Hcreated Hn) as (rest' & ->). by exists now_ms, rest'. }
      intros _. apply Hnoup.
  - exists st3, (created ++ [Es (Search accounts_type q)]).
    split; [done|]. split; [by apply new_events_app|]. split; [done|]. split.
    { intros Hn. destruct (Hcreated Hn) as (rest' & ->). by exists now_ms, rest'. }
    intros _. apply Hnoup.
Qed.

End SetabiProjection.

Lemma get_abi_serializer_not_found `{Env} (cfg : config) (n : account_name) (st : state) :
  cache_find n (abi_cache_index st) = None →
  length (account_hits (Name.string_to_name (Name.to_string n)) st) ≠ 1%nat →
  ∃ st', get_abi_serializer cfg n st = (None, st')
         ∧ abi_cache_index st' = abi_cache_index st.
Proof.
  intros Hmiss Hhits. unfold get_abi_serializer.
  destruct (Name.good n); [|by eexists].
  unfold bind at 1, get at 1. rewrite Hmiss.
  unfold bind at 1, search_abi_by_account at 1. unfold bind at 1.
  rewrite find_account_run.
  destruct (Z.eqb_spec (Z.of_nat (length
              (account_hits (Name.string_to_name (Name.to_string n)) st))) 1);
    [lia|].
  cbn [negb]. by eexists.
Qed.

(** C10. [find_account] answers with an account only when the search of
    [accounts] has exactly one hit; with none or with several it answers
    "not found".  Then [get_abi_serializer], on an account that is not
    cached, yields no serializer and leaves the cache alone, and the [setabi]
    projection creates a fresh [accounts] document right after its first
    search, also when several documents carry the name. *)
Theorem find_account_exactly_one `{Env} (cfg : config) :
  (∀ nm st v, (find_account nm st).1 = Some v → account_hits nm st = [v])
  ∧ (∀ nm st, length (account_hits nm st) ≠ 1%nat → (find_account nm st).1 = None)
  ∧ (∀ n st,
       cache_find n (abi_cache_index st) = None →
       length (account_hits (Name.string_to_name (Name.to_string n)) st) ≠ 1%nat →
       ∃ st', get_abi_serializer cfg n st = (None, st')
              ∧ abi_cache_index st' = abi_cache_index st)
  ∧ (∀ act sa st,
       act_account act = system_account_name → act_name act = setabi →
       unpack_setabi (act_data act) = Some sa →
       length (account_hits (sa_account sa) st) ≠ 1%nat →
       ∃ now_ms rest,
         new_events st (update_account cfg act st).2
         = Update_account_called act :: Abi_cache_erased (sa_account sa)
           :: Es (Search accounts_type (Term "name" (Name.to_string (sa_account sa))))
           :: Es (Index accounts_type
                    (V_object [("name", V_string (Name.to_string (sa_account sa)));
                               ("createAt", V_int now_ms)]%string) None)
           :: rest).
Proof.
  split; [apply find_account_found|].
  split; [apply find_account_not_found|].
  split; [apply get_abi_serializer_not_found|].
  intros act sa st Hacc Hname Hsa Hhits.
  destruct (update_account_setabi_events cfg act sa st Hacc Hname Hsa)
    as (st' & rest & -> & Hnew & _ & Hcreate & _).
  destruct (Hcreate Hhits) as (now_ms & rest' & ->).
  by exists now_ms, rest'.
Qed.

(** Two documents for alice are in the store: neither lookup finds her, and
    her [setabi] creates a third document. *)
Lemma find_account_exactly_one_witness :
  let cfg := plugin_initialize in
  let twice :=
    (@update_account Reference.env cfg Reference.newaccount_alice
       (@update_account Reference.env cfg Reference.newaccount_alice (startup cfg)).2).2 in
  length (@account_hits Reference.env Reference.alice twice) = 2%nat
  ∧ (@find_account Reference.env Reference.alice twice).1 = None
  ∧ (∃ st', @get_abi_serializer Reference.env cfg Reference.alice twice = (None, st')
            ∧ abi_cache_index st' = abi_cache_index twice)
  ∧ ∃ now_ms rest,
      new_events twice (@update_account Reference.env cfg Reference.setabi_alice twice).2
      = Update_account_called Reference.setabi_alice
        :: Abi_cache_erased Reference.alice
        :: Es (Search accounts_type (Term "name" "alice"))
        :: Es (Index accounts_type
                 (V_object [("name", V_string "alice");
                            ("createAt", V_int now_ms)]%string) None)
        :: rest.
Proof.
  intros cfg twice.
  assert (Htwo : length (@account_hits Reference.env Reference.alice twice) = 2%nat)
    by by vm_compute.
  destruct (@find_account_exactly_one Reference.env cfg) as (_ & Hnone & Hget & Hset).
  split; [done|]. split; [apply Hnone; by rewrite Htwo|]. split.
  - apply Hget; [by vm_compute|]. by vm_compute.
  - apply (Hset Reference.setabi_alice
             {| sa_account := Reference.alice; sa_abi := [2%N] |} twice);
      [done|done|done|]. cbn [sa_account]. by rewrite Htwo.
Defined.

(** X27. On hits in the backend's shape a [setabi] never reaches its upsert: no
    document is indexed under an id. *)
Theorem setabi_upsert_unreachable `{Env} (cfg : config) (act : action) (sa : setabi_t)
    (st : state) :
  backend_hits →
  act_account act = system_account_name → act_name act = setabi →
  unpack_setabi (act_data act) = Some sa →
  ∀ ty doc id,
    Es (Index ty doc (Some id)) ∉ new_events st (update_account cfg act st).2.
Proof.
  intros Hbackend Hacc Hname Hsa ty doc id.
  destruct (update_account_setabi_events cfg act sa st Hacc Hname Hsa)
    as (st' & rest & -> & Hnew & _ & _ & Hnoup).
  cbn [snd]. rewrite Hnew. intros Hin.
  repeat (apply elem_of_cons in Hin as [Hin|Hin]; [congruence|]).
  by apply (Hnoup Hbackend ty doc id).
Qed.

(** C7, at an input where the code leaves it.  The store holds one
    [accounts] document for alice, and her [setabi] carries an ABI that
    decodes.  The cache entry is erased first and the account is found, but
    [account["name"]] is read at the top level of the hit, where the backend
    has no such field: the projection ends there and the document is never
    upserted. *)
Theorem setabi_upsert_lost :
  let cfg := plugin_initialize in
  let st := (@update_account Reference.env cfg Reference.newaccount_alice (startup cfg)).2 in
  let st' := (@update_account Reference.env cfg Reference.setabi_alice st).2 in
  (∃ hit source,
     @account_hits Reference.env Reference.alice st = [hit]
     ∧ variant_get hit "_source" = Some source
     ∧ variant_get source "name" = Some (V_string "alice")
     ∧ variant_get hit "name" = None)
  ∧ (∃ sa abi, Reference.unpack_setabi (act_data Reference.setabi_alice) = Some sa
               ∧ Reference.unpack_abi_def (sa_abi sa) = Some abi)
  ∧ new_events st st'
    = [Update_account_called Reference.setabi_alice;
       Abi_cache_erased Reference.alice;
       Es (Search accounts_type (Term "name" "alice"));
       Es (Search accounts_type (Term "name" "alice"))]
  ∧ indexed accounts_type (new_events st st') = [].
Proof.
  intros cfg st st'. split; [|split; [|split]].
  - eexists _, _. split; [by vm_compute|]. by vm_compute.
  - eexists _, _. split; by vm_compute.
  - by vm_compute.
  - by vm_compute.
Qed.

(** ** The staging queue *)

Lemma wrap_int_small z : - 2 ^ 31 ≤ z < 2 ^ 31 → wrap_int z = z.
Proof. intros Hz. unfold wrap_int. rewrite Z.mod_small; lia. Qed.

Lemma queue_run (cfg : config) {A} (released : list A → list A)
    (q : list A) (e : A) (st : state) :
  0 ≤ queue_sleep_time st ≤ int_max - 10 →
  queue cfg released q e st
  = if (max_queue_size cfg <? length q)%nat
    then (released q ++ [e],
          set_slept (slept st + (queue_sleep_time st + 10))
            (set_queue_sleep_time (queue_sleep_time st + 10) st))
    else (q ++ [e],
          set_queue_sleep_time (Z.max 0 (queue_sleep_time st - 10)) st).
Proof.
  unfold int_max. intros Hrange. unfold queue.
  destruct (max_queue_size cfg <? length q)%nat.
  - unfold bind, get, modify_state, sleep_for, ret. simpl.
    rewrite wrap_int_small by lia. by rewrite Z.max_r by lia.
  - unfold bind, get, modify_state, when, ret. simpl.
    rewrite wrap_int_small by lia.
    destruct (Z.ltb_spec (queue_sleep_time st - 10) 0); simpl.
    + by rewrite Z.max_l by lia.
    + by rewrite Z.max_r by lia.
Qed.

(** C8. One call of [queue], with the counter in the range it stays in.  When
    the queue is longer than [max_queue_size] the counter grows by 10 and the
    producer sleeps that long before it appends; otherwise the counter drops
    by 10, not below 0, and nobody sleeps.  In both cases the entry is
    appended once, at the end of the queue as it is at that moment, and what
    the producer has slept in total does not decrease. *)
Theorem queue_backpressure (cfg : config) {A} (released : list A → list A)
    (q : list A) (e : A) (st : state) :
  0 ≤ queue_sleep_time st ≤ int_max - 10 →
  ∃ q' st',
    queue cfg released q e st = (q', st')
    ∧ (if (max_queue_size cfg <? length q)%nat
       then queue_sleep_time st' = queue_sleep_time st + 10
            ∧ slept st' = slept st + queue_sleep_time st'
            ∧ q' = released q ++ [e]
       else queue_sleep_time st' = Z.max 0 (queue_sleep_time st - 10)
            ∧ slept st' = slept st
            ∧ q' = q ++ [e])
    ∧ slept st ≤ slept st'
    ∧ 0 ≤ queue_sleep_time st'
    ∧ history st' = history st
    ∧ abi_cache_index st' = abi_cache_index st.
Proof.
  intros Hrange. rewrite (queue_run cfg released q e st Hrange).
  destruct (max_queue_size cfg <? length q)%nat;
    (eexists _, _; split; [reflexivity|]); simpl; repeat split; lia.
Qed.

(** A queue of three entries against a capacity of two: the producer sleeps
    30 ms, its counter having been at 20, and then appends. *)
Lemma queue_backpressure_witness :
  let cfg := Reference.with_max_queue_size 2 plugin_initialize in
  ∃ q' st',
    queue cfg id [1; 2; 3]%nat 4%nat (set_queue_sleep_time 20 (startup cfg)) = (q', st')
    ∧ (queue_sleep_time st' = 20 + 10 ∧ slept st' = 0 + queue_sleep_time st'
       ∧ q' = [1; 2; 3; 4]%nat)
    ∧ 0 ≤ slept st'
    ∧ 0 ≤ queue_sleep_time st'
    ∧ history st' = []
    ∧ abi_cache_index st' = [].
Proof.
  intros cfg.
  apply (queue_backpressure cfg id [1; 2; 3]%nat 4%nat
           (set_queue_sleep_time 20 (startup cfg))).
  unfold int_max. simpl. lia.
Defined.

(** X28. A producer's run of calls: what it has slept in total never decreases
    from one call to the next, and with the queue left alone in between no
    entry is lost. *)
Lemma queue_all_monotone (cfg : config) {A} (es q : list A) (st : state) :
  0 ≤ queue_sleep_time st →
  queue_sleep_time st + 10 * Z.of_nat (length es) ≤ int_max →
  ∃ ss st',
    queue_all cfg id q es st = (q ++ es, ss, st')
    ∧ StronglySorted Z.le (slept st :: ss)
    ∧ length ss = length es.
Proof.
  revert q st. induction es as [|e rest IH]; intros q st Hlo Hhi.
  - exists [], st. simpl. rewrite app_nil_r. split; [done|].
    split; [|done]. repeat constructor.
  - cbn [queue_all]. unfold bind at 1.
    rewrite (queue_run cfg id q e st)
      by (simpl length in Hhi; unfold int_max in *; lia).
    set (r := if (max_queue_size cfg <? length q)%nat then _ else _).
    assert (Hr : r.1 = q ++ [e] ∧ slept st ≤ slept r.2
                 ∧ 0 ≤ queue_sleep_time r.2
                 ∧ queue_sleep_time r.2 ≤ queue_sleep_time st + 10).
    { subst r. destruct (_ <? _)%nat; simpl; repeat split; lia. }
    destruct r as [q1 st1]. simpl in Hr. destruct Hr as (-> & Hs & H0 & Hst1).
    unfold bind at 1, get at 1. unfold bind at 1.
    destruct (IH (q ++ [e]) st1) as (ss & st' & Hrun & Hsorted & Hlen); [done| |].
    { simpl length in Hhi. lia. }
    rewrite Hrun. exists (slept st1 :: ss), st'.
    rewrite <- app_assoc. split; [done|]. split; [|simpl; lia].
    apply StronglySorted_cons. split; [|done].
    apply StronglySorted_cons in Hsorted as [Hall _].
    constructor; [done|]. eapply Forall_impl; [exact Hall|]. simpl. lia.
Qed.

(** The backpressure scenario: capacity 2, five entries, the worker stalled.
    The last two calls sleep 10 and 20 ms. *)
Example queue_all_five :
  let cfg := Reference.with_max_queue_size 2 plugin_initialize in
  ∃ st', queue_all cfg id [] [1; 2; 3; 4; 5]%nat (startup cfg)
         = ([1; 2; 3; 4; 5]%nat, [0; 0; 0; 10; 30], st')
         ∧ queue_sleep_time st' = 20.
Proof. intros cfg. eexists. split; reflexivity. Qed.

(** ** The ABI cache *)

Lemma link_perm e idx : link e idx ≡ₚ e :: idx.
Proof.
  induction idx as [|x rest IH]; simpl; [done|].
  destruct (last_accessed e <? last_accessed x); [done|].
  rewrite IH. apply Permutation_swap.
Qed.

Lemma link_length e idx : length (link e idx) = S (length idx).
Proof. by rewrite link_perm. Qed.

Lemma link_by_last_access e idx : by_last_access idx → by_last_access (link e idx).
Proof.
  unfold by_last_access. induction idx as [|x rest IH]; simpl; intros Hs.
  - repeat constructor.
  - apply StronglySorted_cons in Hs as [Hx Hrest].
    destruct (Z.ltb_spec (last_accessed e) (last_accessed x)).
    + apply StronglySorted_cons. split.
      * constructor; [lia|]. eapply Forall_impl; [exact Hx|]. simpl. lia.
      * apply StronglySorted_cons. done.
    + apply StronglySorted_cons. split; [|by apply IH].
      rewrite link_perm. by constructor.
Qed.

Lemma cache_erase_by_last_access n idx :
  by_last_access idx → by_last_access (cache_erase n idx).
Proof.
  unfold by_last_access, cache_erase. induction idx as [|x rest IH]; simpl; intros Hs.
  - constructor.
  - apply StronglySorted_cons in Hs as [Hx Hrest].
    destruct (negb _); [|by apply IH].
    apply StronglySorted_cons. split; [|by apply IH].
    apply Forall_forall. intros y Hy.
    apply list_elem_of_In, List.filter_In in Hy as [Hy _].
    rewrite Forall_forall in Hx. apply Hx. by apply list_elem_of_In.
Qed.

Lemma cache_erase_length n idx : (length (cache_erase n idx) ≤ length idx)%nat.
Proof. apply List.filter_length_le. Qed.

Lemma tail_by_last_access idx : by_last_access idx → by_last_access (tail idx).
Proof.
  destruct idx as [|x rest]; [done|]. simpl. intros Hs.
  by apply StronglySorted_cons in Hs as [_ Hrest].
Qed.

Lemma cache_modify_accounts n t before idx :
  account <$> cache_modify n t before idx ≡ₚ account <$> (before ++ idx).
Proof.
  revert before. induction idx as [|x after IH]; intros before; simpl.
  - by rewrite app_nil_r.
  - destruct (account x =? n)%N.
    + destruct (_ && _).
      * by rewrite !fmap_app, !fmap_cons.
      * rewrite link_perm, !fmap_cons, !fmap_app, !fmap_cons. simpl.
        by rewrite Permutation_middle.
    + rewrite IH, <- app_assoc. done.
Qed.

Lemma cache_modify_length n t before idx :
  length (cache_modify n t before idx) = length (before ++ idx).
Proof.
  rewrite <- (length_fmap account), cache_modify_accounts. by rewrite length_fmap.
Qed.

Lemma cache_modify_by_last_access n t before idx :
  by_last_access (before ++ idx) → by_last_access (cache_modify n t before idx).
Proof.
  unfold by_last_access.
  revert before. induction idx as [|x after IH]; intros before Hs; simpl.
  - by rewrite app_nil_r in Hs.
  - destruct (account x =? n)%N.
    + apply StronglySorted_app in Hs as (Hcross & Hbefore & Hafter).
      apply StronglySorted_cons in Hafter as [Hx Hafter].
      destruct (_ && _) eqn:Hplace.
      * apply andb_true_iff in Hplace as [Hprev Hnext].
        assert (Hlow : ∀ b, b ∈ before → last_accessed b ≤ t).
        { intros b Hb. destruct (last before) as [p|] eqn:Hlast.
          - apply last_Some in Hlast as [before' ->].
            apply negb_true_iff, Z.ltb_ge in Hprev.
            apply elem_of_app in Hb as [Hb|Hb].
            + apply StronglySorted_app in Hbefore as (Hbp & _ & _).
              specialize (Hbp b p Hb ltac:(left)). simpl in Hbp. lia.
            + apply list_elem_of_singleton in Hb as ->. done.
          - apply last_None in Hlast as ->. by apply elem_of_nil in Hb. }
        assert (Hhigh : ∀ a, a ∈ after → t ≤ last_accessed a).
        { intros a Ha. destruct after as [|y after']; [by apply elem_of_nil in Ha|].
          apply negb_true_iff, Z.ltb_ge in Hnext.
          apply StronglySorted_cons in Hafter as [Hy _].
          apply elem_of_cons in Ha as [->|Ha]; [done|].
          rewrite Forall_forall in Hy. specialize (Hy a Ha). simpl in Hy. lia. }
        apply StronglySorted_app. split; [|split; [done|]].
        -- intros b a Hb Ha. apply elem_of_cons in Ha as [->|Ha]; simpl.
           ++ by apply Hlow.
           ++ specialize (Hlow b Hb). specialize (Hhigh a Ha). lia.
        -- apply StronglySorted_cons. split; [|done].
           apply Forall_forall. intros a Ha. simpl. by apply Hhigh.
      * apply link_by_last_access. apply StronglySorted_app.
        split; [|done]. intros b a Hb Ha. apply Hcross; [done|by right].
    + apply IH. by rewrite <- app_assoc.
Qed.

Lemma cache_find_elem n idx e :
  cache_find n idx = Some e → e ∈ idx ∧ account e = n.
Proof.
  unfold cache_find. intros Hf. apply find_some in Hf as [Hin Heq].
  split; [by apply list_elem_of_In|]. by apply N.eqb_eq.
Qed.

Lemma cache_insert_ok c e idx :
  by_last_access idx → (S (length idx) ≤ abi_cache_size c)%nat →
  cache_ok c (cache_insert e idx).
Proof.
  intros Hs Hl. unfold cache_insert.
  destruct (cache_find _ _).
  - split; [done|lia].
  - split; [by apply link_by_last_access|]. rewrite link_length. lia.
Qed.

Lemma cache_insert_keeps e idx x : x ∈ idx → x ∈ cache_insert e idx.
Proof.
  unfold cache_insert. destruct (cache_find _ _); [done|].
  intros Hx. rewrite link_perm. by right.
Qed.

Lemma keeps_cache_ret {A} (a : A) : keeps_cache (ret a).
Proof. done. Qed.

Lemma keeps_cache_bind {A B} (m : M A) (k : A → M B) :
  keeps_cache m → (∀ a, keeps_cache (k a)) → keeps_cache (bind m k).
Proof.
  intros Hm Hk st. unfold bind. specialize (Hm st).
  destruct (m st) as [a st1]. simpl in *. by rewrite Hk.
Qed.

Lemma keeps_cache_record e : keeps_cache (record e).
Proof. done. Qed.

Section Cache.

Context `{Env} (cfg : config).

Lemma keeps_cache_find_account nm : keeps_cache (find_account nm).
Proof. intros st. by rewrite find_account_run. Qed.

Lemma keeps_cache_add_pub_keys keys nm perm now_ms :
  keeps_cache (add_pub_keys cfg keys nm perm now_ms).
Proof. by destruct keys. Qed.

Lemma keeps_cache_add_account_control l nm perm now_ms :
  keeps_cache (add_account_control cfg l nm perm now_ms).
Proof. by destruct l. Qed.

Lemma keeps_cache_update_newaccount act : keeps_cache (update_newaccount cfg act).
Proof.
  unfold update_newaccount. apply keeps_cache_bind; [done|]. intros us.
  destruct (unpack_newaccount _); [|done].
  repeat (apply keeps_cache_bind; [|intros ?]);
    auto using keeps_cache_add_pub_keys, keeps_cache_add_account_control.
  done.
Qed.

Lemma keeps_cache_update_updateauth act : keeps_cache (update_updateauth cfg act).
Proof.
  unfold update_updateauth. apply keeps_cache_bind; [done|]. intros us.
  destruct (unpack_updateauth _); [|done].
  repeat (apply keeps_cache_bind; [|intros ?]);
    auto using keeps_cache_add_pub_keys, keeps_cache_add_account_control;
    done.
Qed.

Lemma keeps_cache_update_deleteauth act : keeps_cache (update_deleteauth act).
Proof.
  unfold update_deleteauth. destruct (unpack_deleteauth _); [|done].
  apply keeps_cache_bind; [|intros ?]; done.
Qed.

(** [update_account] leaves the cache alone or erases one account from it. *)
Lemma update_account_cache act st :
  abi_cache_index (update_account cfg act st).2 = abi_cache_index st
  ∨ ∃ n, abi_cache_index (update_account cfg act st).2
         = cache_erase n (abi_cache_index st).
Proof.
  destruct (N.eqb_spec (act_account act) system_account_name) as [Hacc|Hacc].
  - destruct (N.eqb_spec (act_name act) setabi) as [Hname|Hname].
    + destruct (unpack_setabi (act_data act)) as [sa|] eqn:Hsa.
      * destruct (update_account_setabi_events cfg act sa st Hacc Hname Hsa)
          as (st' & rest & -> & _ & Hc & _).
        right. by exists (sa_account sa).
      * left. rewrite (update_account_setabi _ _ _ Hacc Hname).
        unfold update_setabi, bind. cbn [time_point_now]. by rewrite Hsa.
    + left. unfold update_account. unfold bind at 1, record, modify_state.
      apply N.eqb_neq in Hname. rewrite Hacc, Hname. cbn [negb N.eqb Pos.eqb].
      repeat match goal with
             | |- context [if ?b then _ else _] => destruct b
             end;
        first [ done
              | etransitivity; [apply keeps_cache_update_newaccount|done]
              | etransitivity; [apply keeps_cache_update_updateauth|done]
              | etransitivity; [apply keeps_cache_update_deleteauth|done] ].
  - left. by rewrite (update_account_skips cfg act st Hacc).
Qed.

Lemma update_account_cache_ok act st :
  cache_ok cfg (abi_cache_index st) →
  cache_ok cfg (abi_cache_index (update_account cfg act st).2).
Proof.
  intros [Hs Hl]. destruct (update_account_cache act st) as [->|[n ->]]; [done|].
  split; [by apply cache_erase_by_last_access|].
  pose proof (cache_erase_length n (abi_cache_index st)). lia.
Qed.

(** The cache after [get_abi_serializer]: on a hit the entry is touched; on a
    miss the cache is as it was, or purged, or purged and grown by the new
    entry. *)
Lemma get_abi_serializer_run n st :
  ∃ r st',
    get_abi_serializer cfg n st = (r, st')
    ∧ ((∃ t, is_Some (cache_find n (abi_cache_index st))
             ∧ abi_cache_index st' = cache_modify n t [] (abi_cache_index st))
       ∨ abi_cache_index st' = abi_cache_index st
       ∨ abi_cache_index st' = purged cfg (abi_cache_index st)
       ∨ ∃ e, abi_cache_index st' = cache_insert e (purged cfg (abi_cache_index st))).
Proof.
  unfold get_abi_serializer.
  destruct (Name.good n); [|eexists _, _; split; [reflexivity|]; by right; left].
  unfold bind at 1, get at 1.
  destruct (cache_find n (abi_cache_index st)) as [entry|] eqn:Hfind.
  - eexists _, _. split; [reflexivity|]. left. exists (now (clock st)).
    split; [done|]. reflexivity.
  - unfold bind at 1, search_abi_by_account at 1. unfold bind at 1.
    rewrite find_account_run.
    set (st1 := set_history _ st).
    match goal with |- context [if ?b then None else ?x] =>
      destruct (if b then None else x) as [res|] end;
      [|eexists _, _; split; [reflexivity|]; by right; left].
    cbn [ret]. destruct (_ ≫= _) as [abi_v|];
      [|eexists _, _; split; [reflexivity|]; by right; left].
    destruct (as_abi_def abi_v) as [abi|];
      [|eexists _, _; split; [reflexivity|]; by right; left].
    unfold bind at 1, purge_abi_cache at 1, modify_state at 1.
    unfold bind at 1. cbn [time_point_now].
    destruct (if (n =? system_account_name)%N then _ else _) as [structs special].
    destruct (set_abi_ok _).
    + eexists _, _. split; [reflexivity|]. right; right; right. eexists.
      cbn [abi_cache_index set_abi_cache_index set_clock].
      unfold purged. change (abi_cache_index st1) with (abi_cache_index st).
      destruct (length (abi_cache_index st) <? abi_cache_size cfg)%nat; reflexivity.
    + eexists _, _. split; [reflexivity|]. right; right; left.
      unfold purged. change (abi_cache_index st1) with (abi_cache_index st).
      destruct (length (abi_cache_index st) <? abi_cache_size cfg)%nat; reflexivity.
Qed.

(** The cache after [get_abi_serializer]: on a hit the entry is touched; on a
    miss the cache is as it was, or purged, or purged and grown by the new
    entry. *)
Lemma get_abi_serializer_cache n st :
  let idx := abi_cache_index st in
  let idx' := abi_cache_index (get_abi_serializer cfg n st).2 in
  (∃ t, is_Some (cache_find n idx) ∧ idx' = cache_modify n t [] idx)
  ∨ idx' = idx
  ∨ idx' = purged cfg idx
  ∨ ∃ e, idx' = cache_insert e (purged cfg idx).
Proof.
  destruct (get_abi_serializer_run n st) as (r & st' & -> & Hcases). exact Hcases.
Qed.

Lemma purged_ok idx :
  (0 < abi_cache_size cfg)%nat → cache_ok cfg idx →
  by_last_access (purged cfg idx) ∧ (S (length (purged cfg idx)) ≤ abi_cache_size cfg)%nat.
Proof.
  intros Hcap [Hs Hl]. unfold purged.
  destruct (Nat.ltb_spec (length idx) (abi_cache_size cfg)).
  - split; [done|lia].
  - split; [by apply tail_by_last_access|].
    destruct idx; simpl in *; lia.
Qed.

Lemma get_abi_serializer_cache_ok n st :
  (0 < abi_cache_size cfg)%nat →
  cache_ok cfg (abi_cache_index st) →
  cache_ok cfg (abi_cache_index (get_abi_serializer cfg n st).2).
Proof.
  intros Hcap Hok. pose proof (purged_ok _ Hcap Hok) as [Hps Hpl].
  destruct Hok as [Hs Hl].
  destruct (get_abi_serializer_cache n st) as [(t & _ & ->)|[->|[->|[e ->]]]].
  - split; [by apply cache_modify_by_last_access|].
    by rewrite cache_modify_length.
  - done.
  - split; [done|lia].
  - by apply cache_insert_ok.
Qed.

(** An entry whose account is gone after [get_abi_serializer] was the first
    of the [by_last_access] index of a full cache. *)
Lemma get_abi_serializer_evicts n st x :
  cache_ok cfg (abi_cache_index st) →
  x ∈ abi_cache_index st →
  account x ∉ account <$> abi_cache_index (get_abi_serializer cfg n st).2 →
  length (abi_cache_index st) = abi_cache_size cfg
  ∧ ∀ y, y ∈ abi_cache_index st → last_accessed x ≤ last_accessed y.
Proof.
  intros [Hs Hl] Hx Hgone.
  assert (Hstays : ∀ idx' : list abi_cache,
            (∀ y, y ∈ purged cfg (abi_cache_index st) → y ∈ idx') →
            account x ∉ account <$> idx' →
            length (abi_cache_index st) = abi_cache_size cfg
            ∧ ∀ y, y ∈ abi_cache_index st → last_accessed x ≤ last_accessed y).
  { intros idx' Hsub Hnot. unfold purged in Hsub.
    destruct (Nat.ltb_spec (length (abi_cache_index st)) (abi_cache_size cfg)).
    - exfalso. apply Hnot, list_elem_of_fmap. exists x. split; [done|by apply Hsub].
    - split; [lia|].
      destruct (abi_cache_index st) as [|h tl]; [by apply elem_of_nil in Hx|].
      apply elem_of_cons in Hx as [->|Hx].
      + intros y Hy. apply elem_of_cons in Hy as [->|Hy]; [done|].
        apply StronglySorted_cons in Hs as [Hh _].
        rewrite Forall_forall in Hh. by apply Hh.
      + exfalso. apply Hnot, list_elem_of_fmap. exists x. split; [done|].
        by apply Hsub. }
  destruct (get_abi_serializer_cache n st) as [(t & _ & Heq)|[Heq|[Heq|[e Heq]]]];
    rewrite Heq in Hgone.
  - exfalso. apply Hgone. rewrite cache_modify_accounts. simpl.
    apply list_elem_of_fmap. by exists x.
  - exfalso. apply Hgone, list_elem_of_fmap. by exists x.
  - by apply (Hstays (purged cfg (abi_cache_index st))).
  - apply (Hstays (cache_insert e (purged cfg (abi_cache_index st)))); [|done].
    intros y Hy. by apply cache_insert_keeps.
Qed.

Lemma run_cache_ops_cache_ok ops st :
  (0 < abi_cache_size cfg)%nat →
  cache_ok cfg (abi_cache_index st) →
  cache_ok cfg (abi_cache_index (run_cache_ops cfg ops st).2).
Proof.
  intros Hcap. revert st. induction ops as [|op rest IH]; intros st Hok; [done|].
  cbn [run_cache_ops]. unfold bind at 1.
  destruct (run_cache_op cfg op st) as [[] st1] eqn:Hop.
  apply IH. replace st1 with (run_cache_op cfg op st).2 by by rewrite Hop.
  destruct op as [n|act]; cbn [run_cache_op].
  - unfold bind. pose proof (get_abi_serializer_cache_ok n st Hcap Hok) as Hn.
    by destruct (get_abi_serializer cfg n st).
  - by apply update_account_cache_ok.
Qed.

End Cache.

(** C3. Start from a cache within its capacity (the empty one of start-up is)
    and run any sequence of lookups and projections.  After it the cache
    holds at most [abi_cache_size] entries; and if a further lookup makes an
    account disappear from it, the cache was full and that entry's
    [last_accessed] was the least of all. *)
Theorem abi_cache_bounded_lru `{Env} (cfg : config) (ops : list cache_op) (st0 : state) :
  (0 < abi_cache_size cfg)%nat →
  cache_ok cfg (abi_cache_index st0) →
  let st := (run_cache_ops cfg ops st0).2 in
  (length (abi_cache_index st) ≤ abi_cache_size cfg)%nat
  ∧ ∀ n x,
      x ∈ abi_cache_index st →
      account x ∉ account <$> abi_cache_index (get_abi_serializer cfg n st).2 →
      length (abi_cache_index st) = abi_cache_size cfg
      ∧ ∀ y, y ∈ abi_cache_index st → last_accessed x ≤ last_accessed y.
Proof.
  intros Hcap Hok st.
  pose proof (run_cache_ops_cache_ok cfg ops st0 Hcap Hok) as Hst. fold st in Hst.
  split; [apply Hst|].
  intros n x. by apply get_abi_serializer_evicts.
Qed.

(** A cache of two entries, three accounts with a stored ABI: looking up the
    third evicts alice, the one looked up first. *)
Lemma abi_cache_bounded_lru_witness :
  let cfg := Reference.with_abi_cache_size 2 plugin_initialize in
  let st := (@run_cache_ops Reference.env cfg
               [Get_abi_serializer Reference.alice; Get_abi_serializer Reference.bob]
               (Reference.seeded cfg)).2 in
  account <$> abi_cache_index st = [Reference.alice; Reference.bob]
  ∧ account <$> abi_cache_index
                  (@get_abi_serializer Reference.env cfg Reference.carol st).2
    = [Reference.bob; Reference.carol]
  ∧ (length (abi_cache_index st) ≤ abi_cache_size cfg)%nat
  ∧ ∀ n x,
      x ∈ abi_cache_index st →
      account x ∉ account <$> abi_cache_index
                                (@get_abi_serializer Reference.env cfg n st).2 →
      length (abi_cache_index st) = abi_cache_size cfg
      ∧ ∀ y, y ∈ abi_cache_index st → last_accessed x ≤ last_accessed y.
Proof.
  intros cfg st. split; [by vm_compute|]. split; [by vm_compute|].
  apply (@abi_cache_bounded_lru Reference.env cfg
           [Get_abi_serializer Reference.alice; Get_abi_serializer Reference.bob]
           (Reference.seeded cfg)).
  - simpl. lia.
  - split; [constructor|simpl; lia].
Defined.

(** * Further properties *)

(** ** Lookups in the ABI cache *)

Lemma cache_find_None n idx :
  cache_find n idx = None ↔ n ∉ account <$> idx.
Proof.
  unfold cache_find. induction idx as [|x rest IH]; simpl.
  - split; [intros _ Hin; by apply elem_of_nil in Hin|done].
  - destruct (N.eqb_spec (account x) n) as [Hx|Hx].
    + split; [done|]. intros Hnot. exfalso. apply Hnot. rewrite Hx. left.
    + rewrite IH. split.
      * intros Hnot Hin. apply elem_of_cons in Hin as [Hin|Hin]; [congruence|done].
      * intros Hnot Hin. apply Hnot. by right.
Qed.

Lemma cache_find_link n e idx :
  account e = n → cache_find n idx = None → cache_find n (link e idx) = Some e.
Proof.
  intros He. unfold cache_find. induction idx as [|x rest IH]; simpl; intros Hmiss.
  - by rewrite He, N.eqb_refl.
  - destruct (account x =? n)%N eqn:Hx; [done|].
    destruct (last_accessed e <? last_accessed x); simpl.
    + by rewrite He, N.eqb_refl.
    + rewrite Hx. by apply IH.
Qed.

Lemma cache_find_app_miss n l1 l2 :
  cache_find n l1 = None → cache_find n (l1 ++ l2) = cache_find n l2.
Proof.
  unfold cache_find. induction l1 as [|x rest IH]; simpl; [done|].
  destruct (account x =? n)%N; [done|]. apply IH.
Qed.

Lemma cache_find_modify n t before idx x :
  by_account_unique (before ++ idx) →
  cache_find n before = None → cache_find n idx = Some x →
  cache_find n (cache_modify n t before idx) = Some (touch t x).
Proof.
  revert before. induction idx as [|y after IH]; intros before Hu Hb Hf; [done|].
  simpl. unfold cache_find in Hf. simpl in Hf.
  destruct (account y =? n)%N eqn:Hy.
  - injection Hf as ->. apply N.eqb_eq in Hy.
    assert (Hafter : cache_find n after = None).
    { apply cache_find_None. intros Hin. unfold by_account_unique in Hu.
      rewrite fmap_app, fmap_cons in Hu. apply NoDup_app in Hu as (_ & _ & Hu).
      apply NoDup_cons in Hu as [Hu _]. by rewrite Hy in Hu. }
    destruct (_ && _).
    + rewrite cache_find_app_miss by done. unfold cache_find. simpl.
      by rewrite Hy, N.eqb_refl.
    + apply cache_find_link; [done|]. by rewrite cache_find_app_miss.
  - apply IH.
    + by rewrite <- app_assoc.
    + rewrite cache_find_app_miss by done. unfold cache_find. simpl. by rewrite Hy.
    + done.
Qed.

Lemma cache_find_purged c n idx :
  cache_find n idx = None → cache_find n (purged c idx) = None.
Proof.
  unfold purged. destruct (_ <? _)%nat; [done|].
  destruct idx as [|x rest]; [done|]. unfold cache_find. simpl.
  by destruct (account x =? n)%N.
Qed.

Section Lookups.

Context `{Env} (cfg : config).

(** The ways [get_abi_serializer] can go. *)
Lemma get_abi_serializer_cases n st :
  let idx := abi_cache_index st in
  (Name.good n = false ∧ get_abi_serializer cfg n st = (None, st))
  ∨ (∃ entry,
       Name.good n = true ∧ cache_find n idx = Some entry
       ∧ get_abi_serializer cfg n st
         = (serializer entry,
            set_abi_cache_index (cache_modify n (now (clock st)) [] idx)
              (set_clock (S (clock st)) st)))
  ∨ (∃ r st',
       Name.good n = true ∧ cache_find n idx = None
       ∧ get_abi_serializer cfg n st = (r, st')
       ∧ history st' = history st ++ [Es (Search accounts_type (abi_query n))]
       ∧ start_block_reached st' = start_block_reached st
       ∧ ((r = None ∧ (abi_cache_index st' = idx
                       ∨ abi_cache_index st' = purged cfg idx))
          ∨ ∃ abis t,
              r = Some abis
              ∧ abi_cache_index st'
                = cache_insert {| account := n; last_accessed := t;
                                  serializer := Some abis |} (purged cfg idx))).
Proof.
  intros idx.
  destruct (get_abi_serializer cfg n st) as [r st'] eqn:Hrun.
  unfold get_abi_serializer in Hrun.
  destruct (Name.good n); [|left; split; [done|]; by injection Hrun as <- <-].
  right. unfold bind at 1, get at 1 in Hrun. fold idx in Hrun.
  destruct (cache_find n idx) as [entry|] eqn:Hfind.
  - left. exists entry. split; [done|]. split; [done|]. by rewrite <- Hrun.
  - right. exists r, st'. split; [done|]. split; [done|]. split; [done|].
    unfold bind at 1, search_abi_by_account at 1 in Hrun.
    unfold bind at 1 in Hrun. rewrite find_account_run in Hrun.
    fold (abi_query n) in Hrun.
    set (st1 := set_history _ st) in Hrun.
    assert (Hquiet : (None, st1) = (r, st') →
              history st' = history st ++ [Es (Search accounts_type (abi_query n))]
              ∧ start_block_reached st' = start_block_reached st
              ∧ ((r = None ∧ (abi_cache_index st' = idx
                              ∨ abi_cache_index st' = purged cfg idx))
                 ∨ ∃ abis t,
                     r = Some abis
                     ∧ abi_cache_index st'
                       = cache_insert {| account := n; last_accessed := t;
                                         serializer := Some abis |} (purged cfg idx))).
    { intros [= <- <-]. split; [done|]. split; [done|]. left. split; [done|by left]. }
    match type of Hrun with context [if ?b then None else ?x] =>
      destruct (if b then None else x) as [res|] end; [|by apply Hquiet].
    cbn [ret] in Hrun. destruct (_ ≫= _) as [abi_v|]; [|by apply Hquiet].
    destruct (as_abi_def abi_v) as [abi|]; [|by apply Hquiet].
    clear Hquiet.
    unfold bind at 1, purge_abi_cache at 1, modify_state at 1 in Hrun.
    unfold bind at 1 in Hrun. cbn [time_point_now] in Hrun.
    destruct (if (n =? system_account_name)%N then _ else _) as [structs special].
    destruct (set_abi_ok _).
    + unfold bind, modify_state, ret in Hrun. injection Hrun as <- <-.
      unfold purged. subst idx.
      cbn [history set_abi_cache_index set_clock start_block_reached abi_cache_index].
      destruct (length (abi_cache_index st) <? abi_cache_size cfg)%nat;
        (split; [done|]; split; [done|]; right; by eexists _, _).
    + unfold ret in Hrun. injection Hrun as <- <-.
      unfold purged. subst idx.
      cbn [history set_clock start_block_reached abi_cache_index].
      destruct (length (abi_cache_index st) <? abi_cache_size cfg)%nat;
        (split; [done|]; split; [done|]; left; split; [done|by right]).
Qed.

End Lookups.

(** X1. A lookup sends one search of [accounts] when the name is not empty and
    not cached, and nothing otherwise: a hit and the empty name cost no
    request.  It never writes to the store and never moves the gate. *)
Theorem lookup_requests `{Env} (cfg : config) (n : account_name) (st : state) :
  ∃ r st',
    get_abi_serializer cfg n st = (r, st')
    ∧ new_events st st'
      = match cache_find n (abi_cache_index st) with
        | Some _ => []
        | None => if Name.good n then [Es (Search accounts_type (abi_query n))] else []
        end
    ∧ es_writes (new_events st st') = []
    ∧ start_block_reached st' = start_block_reached st
    ∧ (Name.good n = false → r = None ∧ st' = st).
Proof.
  destruct (get_abi_serializer_cases cfg n st)
    as [[Hgood Hrun]|[(entry & Hgood & Hfind & Hrun)
                     |(r & st' & Hgood & Hfind & Hrun & Hh & Hg & _)]].
  - exists None, st. split; [done|]. rewrite Hgood.
    assert (Hnew : new_events st st = []) by (apply new_events_app; by rewrite app_nil_r).
    rewrite Hnew. destruct (cache_find _ _); by repeat split.
  - eexists _, _. split; [exact Hrun|]. rewrite Hfind, Hgood.
    match goal with |- new_events st ?s = _ ∧ _ =>
      assert (Hnew : new_events st s = []) by (apply new_events_app; simpl; by rewrite app_nil_r)
    end.
    rewrite Hnew. by repeat split.
  - exists r, st'. split; [done|]. rewrite Hfind, Hgood.
    rewrite (new_events_app _ _ _ Hh). by repeat split.
Qed.

Section Reuse.

Context `{Env} (cfg : config).

(** X2. What a lookup has answered with, the next lookup of the same account
    answers from the cache, without a request. *)
Theorem lookup_again_from_cache (n : account_name) (st st1 : state)
    (abis : abi_serializer) :
  by_account_unique (abi_cache_index st) →
  get_abi_serializer cfg n st = (Some abis, st1) →
  ∃ st2, get_abi_serializer cfg n st1 = (Some abis, st2)
         ∧ history st2 = history st1.
Proof.
  intros Hu Hfirst.
  assert (Hcached : Name.good n = true
                    ∧ ∃ e, cache_find n (abi_cache_index st1) = Some e
                           ∧ serializer e = Some abis).
  { destruct (get_abi_serializer_cases cfg n st)
      as [[Hgood Hrun]|[(entry & Hgood & Hfind & Hrun)
                       |(r & st' & Hgood & Hfind & Hrun & _ & _ & Hcache)]].
    - rewrite Hrun in Hfirst. done.
    - rewrite Hrun in Hfirst. injection Hfirst as Hs <-. split; [done|].
      exists (touch (now (clock st)) entry). split; [|done]. simpl.
      by apply cache_find_modify.
    - rewrite Hrun in Hfirst. injection Hfirst as -> ->. split; [done|].
      destruct Hcache as [[? _]|(abis' & t & [= <-] & ->)]; [done|].
      eexists. split.
      { unfold cache_insert. simpl. rewrite (cache_find_purged cfg n _ Hfind).
        apply cache_find_link; [done|]. by apply cache_find_purged. }
      reflexivity. }
  destruct Hcached as (Hgood & e & Hfind & Hser).
  destruct (get_abi_serializer_cases cfg n st1)
    as [[Hgood' _]|[(entry & _ & Hfind' & Hrun)|(r & st' & _ & Hfind' & _)]];
    [congruence| |congruence].
  rewrite Hfind in Hfind'. injection Hfind' as <-.
  eexists. split; [by rewrite Hrun, Hser|done].
Qed.

Lemma cache_modify_Forall (P : abi_cache → Prop) n t before idx :
  (∀ x, P x → P (touch t x)) →
  Forall P (before ++ idx) → Forall P (cache_modify n t before idx).
Proof.
  intros Htouch. revert before.
  induction idx as [|x after IH]; intros before Hall; simpl.
  - by rewrite app_nil_r in Hall.
  - apply Forall_app in Hall as [Hb Ha]. apply Forall_cons in Ha as [Hx Ha].
    destruct (account x =? n)%N.
    + destruct (_ && _).
      * apply Forall_app. split; [done|]. constructor; [by apply Htouch|done].
      * rewrite link_perm. constructor; [by apply Htouch|]. by apply Forall_app.
    + apply IH. rewrite <- app_assoc. apply Forall_app. split; [done|by constructor].
Qed.

Lemma purged_sublist idx : purged cfg idx `sublist_of` idx.
Proof.
  unfold purged. destruct (_ <? _)%nat; [done|].
  destruct idx; [done|]. by apply sublist_cons.
Qed.

Lemma cache_erase_sublist n idx : cache_erase n idx `sublist_of` idx.
Proof.
  unfold cache_erase. induction idx as [|x rest IH]; simpl; [done|].
  destruct (negb _); [by apply sublist_skip|by apply sublist_cons].
Qed.

Lemma by_account_unique_sublist idx idx' :
  idx' `sublist_of` idx → by_account_unique idx → by_account_unique idx'.
Proof.
  unfold by_account_unique. intros Hsub Hu. eapply sublist_NoDup; [exact Hu|].
  clear Hu. induction Hsub; simpl; by constructor.
Qed.

Lemma serializers_present_sublist idx idx' :
  idx' `sublist_of` idx → serializers_present idx → serializers_present idx'.
Proof.
  unfold serializers_present. intros Hsub Hall. apply Forall_forall.
  intros x Hx. rewrite Forall_forall in Hall. apply Hall.
  by eapply elem_of_sublist.
Qed.

Lemma get_abi_serializer_well_formed n st :
  by_account_unique (abi_cache_index st) ∧ serializers_present (abi_cache_index st) →
  by_account_unique (abi_cache_index (get_abi_serializer cfg n st).2)
  ∧ serializers_present (abi_cache_index (get_abi_serializer cfg n st).2).
Proof.
  intros [Hu Hs].
  destruct (get_abi_serializer_cases cfg n st)
    as [[_ ->]|[(entry & _ & _ & ->)|(r & st' & _ & Hfind & -> & _ & _ & Hcache)]].
  - done.
  - split.
    + unfold by_account_unique. simpl. by rewrite cache_modify_accounts.
    + by apply cache_modify_Forall.
  - simpl. destruct Hcache as [[_ [->| ->]]|(abis & t & _ & ->)]; [done| |].
    + split; [eapply by_account_unique_sublist|eapply serializers_present_sublist];
        eauto using purged_sublist.
    + unfold cache_insert. simpl. rewrite (cache_find_purged cfg n _ Hfind).
      split.
      * unfold by_account_unique. rewrite link_perm. simpl. apply NoDup_cons. split.
        -- apply cache_find_None. by apply cache_find_purged.
        -- eapply by_account_unique_sublist; eauto using purged_sublist.
      * unfold serializers_present. rewrite link_perm. constructor; [by eexists|].
        eapply serializers_present_sublist; eauto using purged_sublist.
Qed.

Lemma update_account_well_formed act st :
  by_account_unique (abi_cache_index st) ∧ serializers_present (abi_cache_index st) →
  by_account_unique (abi_cache_index (update_account cfg act st).2)
  ∧ serializers_present (abi_cache_index (update_account cfg act st).2).
Proof.
  intros [Hu Hs]. destruct (update_account_cache cfg act st) as [->|[n ->]]; [done|].
  split; [eapply by_account_unique_sublist|eapply serializers_present_sublist];
    eauto using cache_erase_sublist.
Qed.

Lemma run_cache_ops_cons op rest st :
  (run_cache_ops cfg (op :: rest) st).2
  = (run_cache_ops cfg rest (run_cache_op cfg op st).2).2.
Proof.
  cbn [run_cache_ops]. unfold bind. by destruct (run_cache_op cfg op st) as [[] st1].
Qed.

(** X3. Through any sequence of lookups and projections the cache keeps one entry
    per account at most, each with its serializer: a hit never answers
    empty. *)
Theorem abi_cache_well_formed (ops : list cache_op) (st : state) :
  by_account_unique (abi_cache_index st) →
  serializers_present (abi_cache_index st) →
  by_account_unique (abi_cache_index (run_cache_ops cfg ops st).2)
  ∧ serializers_present (abi_cache_index (run_cache_ops cfg ops st).2).
Proof.
  intros Hu Hs. assert (Hwf := conj Hu Hs). clear Hu Hs.
  revert st Hwf. induction ops as [|op rest IH]; intros st Hwf; [done|].
  rewrite run_cache_ops_cons. apply IH.
  destruct op as [n|act]; cbn [run_cache_op].
  - unfold bind. pose proof (get_abi_serializer_well_formed n st Hwf) as Hn.
    by destruct (get_abi_serializer cfg n st).
  - by apply update_account_well_formed.
Qed.

(** X4. After a [setabi] for an account the next lookup of that account goes to
    the store: the answer is never the serializer cached before. *)
Theorem setabi_then_lookup_searches (act : action) (sa : setabi_t) (st : state) :
  act_account act = system_account_name → act_name act = setabi →
  unpack_setabi (act_data act) = Some sa →
  Name.good (sa_account sa) = true →
  ∃ st1 r st2,
    update_account cfg act st = (tt, st1)
    ∧ cache_find (sa_account sa) (abi_cache_index st1) = None
    ∧ get_abi_serializer cfg (sa_account sa) st1 = (r, st2)
    ∧ new_events st1 st2 = [Es (Search accounts_type (abi_query (sa_account sa)))].
Proof.
  intros Hacc Hname Hsa Hgood.
  destruct (update_account_setabi_events cfg act sa st Hacc Hname Hsa)
    as (st1 & rest & Hrun & _ & Hcache & _).
  assert (Hmiss : cache_find (sa_account sa) (abi_cache_index st1) = None)
    by (rewrite Hcache; apply cache_find_erase).
  destruct (get_abi_serializer_cases cfg (sa_account sa) st1)
    as [[Hgood' _]|[(entry & _ & Hfind & _)|(r & st2 & _ & _ & Hget & Hh & _)]];
    [congruence|congruence|].
  exists st1, r, st2. split; [done|]. split; [done|]. split; [done|].
  by apply new_events_app.
Qed.

End Reuse.

Lemma lookup_again_from_cache_witness :
  let cfg := plugin_initialize in
  ∃ abis st1 st2,
    @get_abi_serializer Reference.env cfg Reference.alice (Reference.seeded cfg)
    = (Some abis, st1)
    ∧ @get_abi_serializer Reference.env cfg Reference.alice st1 = (Some abis, st2)
    ∧ es_requests (history st1)
      = es_requests (history (Reference.seeded cfg))
        ++ [Search accounts_type (Term "name" "alice")]
    ∧ history st2 = history st1.
Proof.
  intros cfg.
  destruct (@get_abi_serializer Reference.env cfg Reference.alice (Reference.seeded cfg))
    as [[abis|] st1] eqn:Hfirst; [|by vm_compute in Hfirst].
  destruct (@lookup_again_from_cache Reference.env cfg Reference.alice
              (Reference.seeded cfg) st1 abis) as (st2 & Hsecond & Hh).
  - constructor.
  - exact Hfirst.
  - exists abis, st1, st2. split; [done|]. split; [done|]. split; [|done].
    vm_compute in Hfirst. by injection Hfirst as _ <-.
Defined.

Lemma abi_cache_well_formed_witness :
  let cfg := Reference.with_abi_cache_size 2 plugin_initialize in
  let st := (@run_cache_ops Reference.env cfg
               [Get_abi_serializer Reference.alice; Get_abi_serializer Reference.bob;
                Get_abi_serializer Reference.alice; Setabi Reference.setabi_alice;
                Get_abi_serializer Reference.carol]
               (Reference.seeded cfg)).2 in
  account <$> abi_cache_index st = [Reference.bob; Reference.carol]
  ∧ by_account_unique (abi_cache_index st)
  ∧ serializers_present (abi_cache_index st).
Proof.
  intros cfg st. split; [by vm_compute|].
  apply (@abi_cache_well_formed Reference.env cfg); constructor.
Defined.

Lemma setabi_then_lookup_searches_witness :
  let cfg := plugin_initialize in
  let st := (@get_abi_serializer Reference.env cfg Reference.alice
               (Reference.seeded cfg)).2 in
  is_Some (cache_find Reference.alice (abi_cache_index st))
  ∧ ∃ st1 r st2,
      @update_account Reference.env cfg Reference.setabi_alice st = (tt, st1)
      ∧ cache_find Reference.alice (abi_cache_index st1) = None
      ∧ @get_abi_serializer Reference.env cfg Reference.alice st1 = (r, st2)
      ∧ new_events st1 st2 = [Es (Search accounts_type (Term "name" "alice"))].
Proof.
  intros cfg st. split; [vm_compute; by eexists|].
  apply (@setabi_then_lookup_searches Reference.env cfg Reference.setabi_alice
           {| sa_account := Reference.alice; sa_abi := [2%N] |} st); reflexivity.
Defined.

(** ** The system account's ABI *)

Lemma redefine_abi_field_names fs :
  field_name <$> (redefine_abi_field fs).1 = field_name <$> fs
  ∧ ((redefine_abi_field fs).2 = false → (redefine_abi_field fs).1 = fs)
  ∧ redefine_abi_field (redefine_abi_field fs).1 = ((redefine_abi_field fs).1, false).
Proof.
  induction fs as [|f rest (IHn & IHf & IHi)]; simpl; [done|].
  destruct (String.eqb (field_name f) "abi") eqn:Hname.
  - destruct (String.eqb (field_type f) "bytes") eqn:Hty; simpl.
    + split; [done|]. split; [done|]. by rewrite Hname.
    + split; [done|]. split; [done|]. by rewrite Hname, Hty.
  - destruct (redefine_abi_field rest) as [rest' b]; simpl in *.
    split; [by f_equal|]. split; [intros Hb; by rewrite IHf|].
    by rewrite Hname, IHi.
Qed.

(** X5. The rewriting for the system account keeps every struct and field name and
    only retypes a field; when it reports nothing to do the ABI is unchanged;
    and an ABI it has rewritten is left as it is by a second pass, which
    reports nothing to do. *)
Theorem redefine_setabi_once (ss : list struct_def) :
  Forall2 (λ s s', struct_name s' = struct_name s ∧ struct_base s' = struct_base s
                   ∧ field_name <$> struct_fields s' = field_name <$> struct_fields s)
    ss (redefine_setabi ss).1
  ∧ ((redefine_setabi ss).2 = false → (redefine_setabi ss).1 = ss)
  ∧ redefine_setabi (redefine_setabi ss).1 = ((redefine_setabi ss).1, false).
Proof.
  induction ss as [|s rest (IHn & IHf & IHi)]; simpl; [by repeat split|].
  destruct (String.eqb (struct_name s) "setabi") eqn:Hname.
  - destruct (redefine_abi_field_names (struct_fields s)) as (Hn & Hf & Hi).
    destruct (redefine_abi_field (struct_fields s)) as [fs b]; simpl in *.
    split; [|split].
    + constructor; [done|]. apply Forall2_same_length_lookup_2; [done|].
      intros i x y Hx Hy. rewrite Hx in Hy. by injection Hy as <-.
    + intros ->. rewrite Hf by done. by destruct s.
    + by rewrite Hname, Hi.
  - destruct (redefine_setabi rest) as [rest' b]; simpl in *.
    split; [by constructor|]. split; [intros Hb; by rewrite IHf|].
    by rewrite Hname, IHi.
Qed.

(** ** The filter, once more *)

(** X6. Widening [filter_on] (or switching the wildcard on) and narrowing
    [filter_out] can only admit more actions. *)
Theorem filter_include_monotone (c c' : config) (a : action) :
  (filter_on_star c = true → filter_on_star c' = true) →
  filter_on c ⊆ filter_on c' →
  filter_out c' ⊆ filter_out c →
  filter_include c a = true → filter_include c' a = true.
Proof.
  intros Hstar Hon Hout. rewrite !filter_include_unfold.
  rewrite !andb_true_iff, !orb_true_iff, !negb_true_iff, <- !not_true_iff_false.
  rewrite !found_spec, !any_authorizer_spec.
  intros [[[Hc Hd1] Hd2] Hd3]. repeat split.
  - destruct Hc as [[Hc|Hc]|(x & Hx & Hc)]; [left; left; auto|left; right; auto|].
    right. exists x. auto.
  - intros Hd. apply Hd1. auto.
  - intros Hd. apply Hd2. auto.
  - intros (x & Hx & Hd). apply Hd3. exists x. auto.
Qed.

Lemma filter_include_monotone_witness :
  let out := {[ fe Reference.bob Reference.transfer_name Reference.bob ]} in
  let c := Reference.with_filter_out out plugin_initialize in
  filter_include c Reference.setabi_alice = true
  ∧ filter_include plugin_initialize Reference.setabi_alice = true.
Proof.
  intros out c. assert (Hc : filter_include c Reference.setabi_alice = true)
    by by vm_compute.
  split; [done|].
  apply (filter_include_monotone c plugin_initialize Reference.setabi_alice);
    [done|done| |done].
  simpl. apply empty_subseteq.
Defined.

(** ** The rows of the projector *)

Lemma bulk_docs_app ty h1 h2 : bulk_docs ty (h1 ++ h2) = bulk_docs ty h1 ++ bulk_docs ty h2.
Proof. apply flat_map_app. Qed.

Lemma deleted_app h1 h2 : deleted (h1 ++ h2) = deleted h1 ++ deleted h2.
Proof. apply omap_app. Qed.

Lemma bulk_docs_bulk_event c ty docs :
  bulk_docs ty (bulk_event c docs)
  = omap (λ d : string * variant, if String.eqb d.1 ty then Some d.2 else None) docs.
Proof. destruct docs; [done|]. simpl. by rewrite app_nil_r. Qed.

Lemma bulk_docs_pub_keys c keys nm perm now_ms :
  bulk_docs pub_keys_type (bulk_event c (pub_key_docs keys nm perm now_ms))
  = (pub_key_docs keys nm perm now_ms).*2
  ∧ bulk_docs account_controls_type (bulk_event c (pub_key_docs keys nm perm now_ms)) = [].
Proof.
  rewrite !bulk_docs_bulk_event. unfold pub_key_docs.
  induction keys as [|k rest [IH1 IH2]]; [done|].
  split; [exact (f_equal (cons _) IH1) | exact IH2].
Qed.

Lemma bulk_docs_account_controls c l nm perm now_ms :
  bulk_docs account_controls_type (bulk_event c (account_control_docs l nm perm now_ms))
  = (account_control_docs l nm perm now_ms).*2
  ∧ bulk_docs pub_keys_type (bulk_event c (account_control_docs l nm perm now_ms)) = [].
Proof.
  rewrite !bulk_docs_bulk_event. unfold account_control_docs.
  induction l as [|k rest [IH1 IH2]]; [done|].
  split; [exact (f_equal (cons _) IH1) | exact IH2].
Qed.

Lemma bulk_event_deleted c docs : deleted (bulk_event c docs) = [].
Proof. by destruct docs. Qed.

Lemma bulk_event_requests c docs :
  Forall (λ d : string * variant, d.1 = pub_keys_type) docs
  ∨ Forall (λ d : string * variant, d.1 = account_controls_type) docs →
  Forall projector_request (bulk_event c docs).
Proof.
  destruct docs; [constructor|]. intros Hty.
  apply Forall_cons. split; [|apply Forall_nil_2]. by split.
Qed.

Lemma pub_key_docs_type keys nm perm now_ms :
  Forall (λ d : string * variant, d.1 = pub_keys_type) (pub_key_docs keys nm perm now_ms).
Proof. unfold pub_key_docs. apply Forall_forall. intros d Hd.
  apply list_elem_of_fmap in Hd as (k & -> & _). done. Qed.

Lemma account_control_docs_type l nm perm now_ms :
  Forall (λ d : string * variant, d.1 = account_controls_type)
    (account_control_docs l nm perm now_ms).
Proof. unfold account_control_docs. apply Forall_forall. intros d Hd.
  apply list_elem_of_fmap in Hd as (k & -> & _). done. Qed.

Lemma authority_events_requests c a nm perm now_ms :
  Forall projector_request (authority_events c a nm perm now_ms).
Proof.
  unfold authority_events. apply Forall_app. split; apply bulk_event_requests.
  - left. apply pub_key_docs_type.
  - right. apply account_control_docs_type.
Qed.

Section Rows.

Context `{Env} (cfg : config).

Lemma add_pub_keys_run keys nm perm now_ms st :
  add_pub_keys cfg keys nm perm now_ms st
  = (tt, set_history (history st ++ bulk_event cfg (pub_key_docs keys nm perm now_ms)) st).
Proof.
  destruct keys; simpl.
  - unfold ret. rewrite app_nil_r. by destruct st.
  - done.
Qed.

Lemma add_account_control_run l nm perm now_ms st :
  add_account_control cfg l nm perm now_ms st
  = (tt, set_history
           (history st ++ bulk_event cfg (account_control_docs l nm perm now_ms)) st).
Proof.
  destruct l; simpl.
  - unfold ret. rewrite app_nil_r. by destruct st.
  - done.
Qed.

Lemma add_authority_run a nm perm now_ms st :
  (add_pub_keys cfg (auth_keys a) nm perm now_ms ;;;
   add_account_control cfg (auth_accounts a) nm perm now_ms) st
  = (tt, set_history (history st ++ authority_events cfg a nm perm now_ms) st).
Proof.
  unfold bind. rewrite add_pub_keys_run, add_account_control_run. simpl.
  unfold authority_events. by rewrite app_assoc.
Qed.

(** The branches of [update_account], as the events they add. *)
Lemma update_newaccount_run act newacc st :
  unpack_newaccount (act_data act) = Some newacc →
  let now_ms := to_milliseconds (now (clock st)) in
  update_newaccount cfg act st
  = (tt, set_history
           (history st
            ++ Es (Index accounts_type
                     (V_object [("name", V_string (Name.to_string (na_name newacc)));
                                ("createAt", V_int now_ms)]%string) None)
               :: authority_events cfg (na_owner newacc) (na_name newacc) owner now_ms
               ++ authority_events cfg (na_active newacc) (na_name newacc) active now_ms)
           (set_clock (S (clock st)) st)).
Proof.
  intros Hdec now_ms. unfold update_newaccount. unfold bind at 1.
  cbn [time_point_now]. rewrite Hdec. fold now_ms.
  unfold bind at 1, create_account, es_index, record, modify_state.
  unfold bind at 1. rewrite add_pub_keys_run.
  unfold bind at 1. rewrite add_account_control_run.
  unfold bind at 1. rewrite add_pub_keys_run. rewrite add_account_control_run.
  cbn [history set_history set_clock]. unfold authority_events.
  rewrite <- !app_assoc. reflexivity.
Qed.

Lemma update_updateauth_run act update st :
  unpack_updateauth (act_data act) = Some update →
  let now_ms := to_milliseconds (now (clock st)) in
  update_updateauth cfg act st
  = (tt, set_history
           (history st
            ++ Es (Delete_by_query pub_keys_type
                     (pub_keys_query (ua_account update) (ua_permission update)))
               :: Es (Delete_by_query account_controls_type
                        (account_controls_query (ua_account update)
                           (ua_permission update)))
               :: authority_events cfg (ua_auth update) (ua_account update)
                    (ua_permission update) now_ms)
           (set_clock (S (clock st)) st)).
Proof.
  intros Hdec now_ms. unfold update_updateauth. unfold bind at 1.
  cbn [time_point_now]. rewrite Hdec. fold now_ms.
  unfold bind at 1, remove_pub_keys, es_delete_by_query, record, modify_state.
  unfold bind at 1, remove_account_control, es_delete_by_query, record, modify_state.
  unfold bind at 1. rewrite add_pub_keys_run. rewrite add_account_control_run.
  cbn [history set_history set_clock]. unfold authority_events.
  rewrite <- !app_assoc. reflexivity.
Qed.

Lemma update_deleteauth_run act del st :
  unpack_deleteauth (act_data act) = Some del →
  update_deleteauth act st
  = (tt, set_history
           (history st
            ++ [Es (Delete_by_query pub_keys_type
                      (pub_keys_query (da_account del) (da_permission del)));
                Es (Delete_by_query account_controls_type
                      (account_controls_query (da_account del) (da_permission del)))])
           st).
Proof.
  intros Hdec. unfold update_deleteauth. rewrite Hdec.
  unfold bind, remove_pub_keys, remove_account_control, es_delete_by_query,
    record, modify_state. cbn [history set_history].
  rewrite <- !app_assoc. reflexivity.
Qed.

(** The call of [update_account] on a system action, by its name. *)
Lemma update_account_system act st :
  act_account act = system_account_name →
  update_account cfg act st
  = (if (act_name act =? newaccount)%N then update_newaccount cfg act
     else if (act_name act =? updateauth)%N then update_updateauth cfg act
     else if (act_name act =? deleteauth)%N then update_deleteauth act
     else if (act_name act =? setabi)%N then update_setabi act
     else ret tt)
      (set_history (history st ++ [Update_account_called act]) st).
Proof.
  intros Hacc. unfold update_account. unfold bind at 1, record, modify_state.
  by rewrite Hacc.
Qed.

End Rows.

Section ProjectorRows.

Context `{Env} (cfg : config).

Lemma add_pub_keys_requests keys nm perm now_ms :
  emits projector_request (add_pub_keys cfg keys nm perm now_ms).
Proof.
  intros st. rewrite add_pub_keys_run. split; [done|].
  eexists. split; [reflexivity|]. apply bulk_event_requests. left.
  apply pub_key_docs_type.
Qed.

Lemma add_account_control_requests l nm perm now_ms :
  emits projector_request (add_account_control cfg l nm perm now_ms).
Proof.
  intros st. rewrite add_account_control_run. split; [done|].
  eexists. split; [reflexivity|]. apply bulk_event_requests. right.
  apply account_control_docs_type.
Qed.

Lemma update_newaccount_requests act :
  emits projector_request (update_newaccount cfg act).
Proof.
  unfold update_newaccount.
  apply emits_bind; [apply emits_time_point_now|]. intros us.
  destruct (unpack_newaccount _); [|apply emits_ret].
  repeat (apply emits_bind; [|intros ?]);
    auto using add_pub_keys_requests, add_account_control_requests.
  by apply emits_record.
Qed.

Lemma update_updateauth_requests act :
  emits projector_request (update_updateauth cfg act).
Proof.
  unfold update_updateauth.
  apply emits_bind; [apply emits_time_point_now|]. intros us.
  destruct (unpack_updateauth _); [|apply emits_ret].
  repeat (apply emits_bind; [|intros ?]);
    auto using add_pub_keys_requests, add_account_control_requests;
    apply emits_record; simpl; auto.
Qed.

Lemma update_deleteauth_requests act : emits projector_request (update_deleteauth act).
Proof.
  unfold update_deleteauth.
  destruct (unpack_deleteauth _); [|apply emits_ret].
  apply emits_bind; [|intros ?]; apply emits_record; simpl; auto.
Qed.

Lemma upsert_abi_requests account abi_bytes now_ms :
  emits projector_request (upsert_abi account abi_bytes now_ms).
Proof.
  unfold upsert_abi.
  destruct (unpack_abi_def _); [|apply emits_ret].
  destruct (setabi_doc _ _ _); [|apply emits_ret].
  destruct (_ ≫= _).
  - by apply emits_record.
  - by apply emits_silent.
Qed.

Lemma update_setabi_requests act : emits projector_request (update_setabi act).
Proof.
  unfold update_setabi.
  apply emits_bind; [apply emits_time_point_now|]. intros us.
  destruct (unpack_setabi _); [|apply emits_ret].
  apply emits_bind; [by apply emits_record|]. intros _.
  apply emits_bind; [by apply emits_silent|]. intros _.
  apply emits_bind; [by apply emits_find_account|]. intros account.
  apply emits_bind.
  { destruct account; [apply emits_ret|]. by apply emits_record. }
  intros _.
  apply emits_bind; [by apply emits_find_account|]. intros [account'|].
  - apply upsert_abi_requests.
  - apply emits_ret.
Qed.

Lemma update_account_branch_requests act :
  emits projector_request
    (if negb (act_account act =? system_account_name)%N then ret tt
     else if (act_name act =? newaccount)%N then update_newaccount cfg act
     else if (act_name act =? updateauth)%N then update_updateauth cfg act
     else if (act_name act =? deleteauth)%N then update_deleteauth act
     else if (act_name act =? setabi)%N then update_setabi act
     else ret tt).
Proof.
  destruct (negb _); [apply emits_ret|].
  destruct (_ =? newaccount)%N; [apply update_newaccount_requests|].
  destruct (_ =? updateauth)%N; [apply update_updateauth_requests|].
  destruct (_ =? deleteauth)%N; [apply update_deleteauth_requests|].
  destruct (_ =? setabi)%N; [apply update_setabi_requests|]. apply emits_ret.
Qed.

Lemma update_account_walk_events act : emits walk_event (update_account cfg act).
Proof.
  unfold update_account. apply emits_bind; [by apply emits_record|]. intros _.
  eapply emits_mono; [|apply update_account_branch_requests].
  by intros [[]| |].
Qed.

(** X7. Whatever the action, [update_account] sends single documents and
    searches only under [accounts], bulks only of [pub_keys] rows or only of
    [account_controls] rows and never an empty one, and deletes only rows of
    these two types. *)
Theorem projector_requests (act : action) (st : state) :
  ∃ st' evs,
    update_account cfg act st = (tt, st')
    ∧ history st' = history st ++ Update_account_called act :: evs
    ∧ Forall projector_request evs.
Proof.
  set (st1 := set_history (history st ++ [Update_account_called act]) st).
  destruct (update_account_branch_requests act st1) as (_ & evs & Hh & Hp).
  destruct (update_account cfg act st) as [[] st'] eqn:Hrun.
  exists st', evs. split; [done|]. split; [|done].
  unfold update_account in Hrun. unfold bind at 1, record, modify_state in Hrun.
  fold st1 in Hrun. rewrite Hrun in Hh. simpl in Hh. rewrite Hh.
  subst st1. simpl. by rewrite <- app_assoc.
Qed.

(** X8. A [newaccount] that decodes creates the account document, then one
    [pub_keys] row for each key and one [account_controls] row for each
    controlling account of the owner and of the active authority, all with
    the one time stamp read at the start; nothing is deleted or searched and
    the ABI cache is not touched. *)
Theorem newaccount_rows (act : action) (newacc : newaccount_t) (st : state) :
  act_account act = system_account_name → act_name act = newaccount →
  unpack_newaccount (act_data act) = Some newacc →
  let now_ms := to_milliseconds (now (clock st)) in
  ∃ st',
    update_account cfg act st = (tt, st')
    ∧ new_events st st'
      = Update_account_called act
        :: Es (Index accounts_type
                 (V_object [("name", V_string (Name.to_string (na_name newacc)));
                            ("createAt", V_int now_ms)]%string) None)
        :: authority_events cfg (na_owner newacc) (na_name newacc) owner now_ms
        ++ authority_events cfg (na_active newacc) (na_name newacc) active now_ms
    ∧ length (bulk_docs pub_keys_type (new_events st st'))
      = (length (auth_keys (na_owner newacc))
         + length (auth_keys (na_active newacc)))%nat
    ∧ length (bulk_docs account_controls_type (new_events st st'))
      = (length (auth_accounts (na_owner newacc))
         + length (auth_accounts (na_active newacc)))%nat
    ∧ deleted (new_events st st') = []
    ∧ abi_cache_index st' = abi_cache_index st.
Proof.
  intros Hacc Hname Hdec now_ms.
  rewrite (update_account_system cfg act st Hacc), Hname.
  change ((newaccount =? newaccount)%N) with true. cbv iota.
  rewrite (update_newaccount_run cfg act newacc _ Hdec).
  cbn [clock history set_history set_clock]. fold now_ms.
  eexists. split; [reflexivity|].
  assert (Hev : ∀ evs, new_events st
            (set_history ((history st ++ [Update_account_called act]) ++ evs)
               (set_clock (S (clock st))
                  (set_history (history st ++ [Update_account_called act]) st)))
            = Update_account_called act :: evs).
  { intros evs. apply new_events_app. simpl. by rewrite <- app_assoc. }
  rewrite Hev. split; [done|]. unfold authority_events.
  split; [|split; [|split]]; [| | |done].
  - change (bulk_docs pub_keys_type (?a :: ?b :: ?l)) with (bulk_docs pub_keys_type l).
    rewrite !bulk_docs_app.
    rewrite !(proj1 (bulk_docs_pub_keys _ _ _ _ _)),
      !(proj2 (bulk_docs_account_controls _ _ _ _ _)).
    rewrite !length_app, !length_fmap. unfold pub_key_docs.
    rewrite !length_map. simpl. lia.
  - change (bulk_docs account_controls_type (?a :: ?b :: ?l))
      with (bulk_docs account_controls_type l).
    rewrite !bulk_docs_app.
    rewrite !(proj2 (bulk_docs_pub_keys _ _ _ _ _)),
      !(proj1 (bulk_docs_account_controls _ _ _ _ _)).
    rewrite !length_app, !length_fmap. unfold account_control_docs.
    rewrite !length_map. simpl. lia.
  - change (deleted (?a :: ?b :: ?l)) with (deleted l).
    by rewrite !deleted_app, !bulk_event_deleted.
Qed.

Lemma pub_key_docs_satisfy keys nm perm now_ms :
  Forall (satisfies (pub_keys_query nm perm)) (pub_key_docs keys nm perm now_ms).*2.
Proof.
  apply Forall_forall. intros d Hd. unfold pub_key_docs in Hd.
  apply list_elem_of_fmap in Hd as (p & -> & Hp).
  apply list_elem_of_fmap in Hp as (k & -> & _).
  by repeat constructor.
Qed.

Lemma account_control_docs_satisfy l nm perm now_ms :
  Forall (satisfies (account_controls_query nm perm))
    (account_control_docs l nm perm now_ms).*2.
Proof.
  apply Forall_forall. intros d Hd. unfold account_control_docs in Hd.
  apply list_elem_of_fmap in Hd as (p & -> & Hp).
  apply list_elem_of_fmap in Hp as (k & -> & _).
  by repeat constructor.
Qed.

(** X9. An [updateauth] that decodes first deletes the [pub_keys] rows and the
    [account_controls] rows of the account and permission, then adds the rows
    of the new authority; every row it adds is one that the deletion of the
    same account and permission matches, so the next [updateauth] or
    [deleteauth] of that permission removes it. *)
Theorem updateauth_replaces_rows (act : action) (update : updateauth_t) (st : state) :
  act_account act = system_account_name → act_name act = updateauth →
  unpack_updateauth (act_data act) = Some update →
  let now_ms := to_milliseconds (now (clock st)) in
  let keys_q := pub_keys_query (ua_account update) (ua_permission update) in
  let controls_q := account_controls_query (ua_account update) (ua_permission update) in
  ∃ st',
    update_account cfg act st = (tt, st')
    ∧ new_events st st'
      = Update_account_called act
        :: Es (Delete_by_query pub_keys_type keys_q)
        :: Es (Delete_by_query account_controls_type controls_q)
        :: authority_events cfg (ua_auth update) (ua_account update)
             (ua_permission update) now_ms
    ∧ deleted (new_events st st')
      = [(pub_keys_type, keys_q); (account_controls_type, controls_q)]
    ∧ length (bulk_docs pub_keys_type (new_events st st'))
      = length (auth_keys (ua_auth update))
    ∧ length (bulk_docs account_controls_type (new_events st st'))
      = length (auth_accounts (ua_auth update))
    ∧ Forall (satisfies keys_q) (bulk_docs pub_keys_type (new_events st st'))
    ∧ Forall (satisfies controls_q)
        (bulk_docs account_controls_type (new_events st st'))
    ∧ abi_cache_index st' = abi_cache_index st.
Proof.
  intros Hacc Hname Hdec now_ms keys_q controls_q.
  rewrite (update_account_system cfg act st Hacc), Hname.
  change ((updateauth =? newaccount)%N) with false.
  change ((updateauth =? updateauth)%N) with true. cbv iota.
  rewrite (update_updateauth_run cfg act update _ Hdec).
  cbn [clock history set_history set_clock]. fold now_ms keys_q controls_q.
  eexists. split; [reflexivity|].
  assert (Hev : ∀ evs, new_events st
            (set_history ((history st ++ [Update_account_called act]) ++ evs)
               (set_clock (S (clock st))
                  (set_history (history st ++ [Update_account_called act]) st)))
            = Update_account_called act :: evs).
  { intros evs. apply new_events_app. simpl. by rewrite <- app_assoc. }
  rewrite Hev. split; [done|]. unfold authority_events.
  assert (Hk : bulk_docs pub_keys_type
                 (Update_account_called act
                  :: Es (Delete_by_query pub_keys_type keys_q)
                  :: Es (Delete_by_query account_controls_type controls_q)
                  :: bulk_event cfg (pub_key_docs (auth_keys (ua_auth update))
                                       (ua_account update) (ua_permission update) now_ms)
                  ++ bulk_event cfg (account_control_docs (auth_accounts (ua_auth update))
                                       (ua_account update) (ua_permission update) now_ms))
               = (pub_key_docs (auth_keys (ua_auth update))
                    (ua_account update) (ua_permission update) now_ms).*2).
  { change (bulk_docs pub_keys_type (?a :: ?b :: ?c :: ?l))
      with (bulk_docs pub_keys_type l).
    rewrite bulk_docs_app, (proj1 (bulk_docs_pub_keys _ _ _ _ _)),
      (proj2 (bulk_docs_account_controls _ _ _ _ _)). apply app_nil_r. }
  assert (Hc : bulk_docs account_controls_type
                 (Update_account_called act
                  :: Es (Delete_by_query pub_keys_type keys_q)
                  :: Es (Delete_by_query account_controls_type controls_q)
                  :: bulk_event cfg (pub_key_docs (auth_keys (ua_auth update))
                                       (ua_account update) (ua_permission update) now_ms)
                  ++ bulk_event cfg (account_control_docs (auth_accounts (ua_auth update))
                                       (ua_account update) (ua_permission update) now_ms))
               = (account_control_docs (auth_accounts (ua_auth update))
                    (ua_account update) (ua_permission update) now_ms).*2).
  { change (bulk_docs account_controls_type (?a :: ?b :: ?c :: ?l))
      with (bulk_docs account_controls_type l).
    by rewrite bulk_docs_app, (proj2 (bulk_docs_pub_keys _ _ _ _ _)),
      (proj1 (bulk_docs_account_controls _ _ _ _ _)). }
  rewrite Hk, Hc.
  split; [|split; [|split; [|split; [|split]]]]; [| | | | |done].
  - change (deleted (?a :: Es (Delete_by_query ?t1 ?q1)
                     :: Es (Delete_by_query ?t2 ?q2) :: ?l))
      with ((t1, q1) :: (t2, q2) :: deleted l).
    by rewrite deleted_app, !bulk_event_deleted.
  - unfold pub_key_docs. by rewrite length_fmap, length_map.
  - unfold account_control_docs. by rewrite length_fmap, length_map.
  - apply pub_key_docs_satisfy.
  - apply account_control_docs_satisfy.
Qed.

(** X10. A [deleteauth] that decodes sends the two deletions, for the
    [pub_keys] rows and for the [account_controls] rows of the account and
    permission, and nothing else: no document, no search, no read of the
    clock, and the ABI cache is not touched. *)
Theorem deleteauth_only_deletes (act : action) (del : deleteauth_t) (st : state) :
  act_account act = system_account_name → act_name act = deleteauth →
  unpack_deleteauth (act_data act) = Some del →
  ∃ st',
    update_account cfg act st = (tt, st')
    ∧ es_requests (new_events st st')
      = [Delete_by_query pub_keys_type
           (pub_keys_query (da_account del) (da_permission del));
         Delete_by_query account_controls_type
           (account_controls_query (da_account del) (da_permission del))]
    ∧ clock st' = clock st
    ∧ abi_cache_index st' = abi_cache_index st.
Proof.
  intros Hacc Hname Hdec.
  rewrite (update_account_system cfg act st Hacc), Hname.
  change ((deleteauth =? newaccount)%N) with false.
  change ((deleteauth =? updateauth)%N) with false.
  change ((deleteauth =? deleteauth)%N) with true. cbv iota.
  rewrite (update_deleteauth_run act del _ Hdec).
  cbn [clock history set_history set_clock].
  eexists. split; [reflexivity|]. split; [|done].
  erewrite new_events_app; [|simpl; by rewrite <- app_assoc]. done.
Qed.

(** X11. A system action that is none of [newaccount], [updateauth],
    [deleteauth] and [setabi], or whose payload does not decode, has no
    effect on the store and none on the ABI cache: the failure to decode is
    swallowed. *)
Theorem undecodable_action_ignored (act : action) (st : state) :
  act_account act = system_account_name → not_projectable act →
  ∃ st',
    update_account cfg act st = (tt, st')
    ∧ new_events st st' = [Update_account_called act]
    ∧ abi_cache_index st' = abi_cache_index st
    ∧ start_block_reached st' = start_block_reached st.
Proof.
  intros Hacc Hnot.
  rewrite (update_account_system cfg act st Hacc).
  assert (Hev : ∀ k, new_events st
            (set_clock k (set_history (history st ++ [Update_account_called act]) st))
            = [Update_account_called act]).
  { intros k. by apply new_events_app. }
  assert (Hev' : new_events st
            (set_history (history st ++ [Update_account_called act]) st)
            = [Update_account_called act]).
  { by apply new_events_app. }
  destruct Hnot as [[Hn Hd]|[[Hn Hd]|[[Hn Hd]|[[Hn Hd]|(Hn1 & Hn2 & Hn3 & Hn4)]]]].
  - rewrite Hn. change ((newaccount =? newaccount)%N) with true. cbv iota.
    unfold update_newaccount, bind. cbn [time_point_now]. rewrite Hd.
    eexists. split; [reflexivity|]. split; [apply Hev|]. done.
  - rewrite Hn. change ((updateauth =? newaccount)%N) with false.
    change ((updateauth =? updateauth)%N) with true. cbv iota.
    unfold update_updateauth, bind. cbn [time_point_now]. rewrite Hd.
    eexists. split; [reflexivity|]. split; [apply Hev|]. done.
  - rewrite Hn. change ((deleteauth =? newaccount)%N) with false.
    change ((deleteauth =? updateauth)%N) with false.
    change ((deleteauth =? deleteauth)%N) with true. cbv iota.
    unfold update_deleteauth. rewrite Hd.
    eexists. split; [reflexivity|]. split; [apply Hev'|]. done.
  - rewrite Hn. change ((setabi =? newaccount)%N) with false.
    change ((setabi =? updateauth)%N) with false.
    change ((setabi =? deleteauth)%N) with false.
    change ((setabi =? setabi)%N) with true. cbv iota.
    unfold update_setabi, bind. cbn [time_point_now]. rewrite Hd.
    eexists. split; [reflexivity|]. split; [apply Hev|]. done.
  - apply N.eqb_neq in Hn1, Hn2, Hn3, Hn4. rewrite Hn1, Hn2, Hn3, Hn4.
    eexists. split; [reflexivity|]. split; [apply Hev'|]. done.
Qed.

End ProjectorRows.

Lemma newaccount_rows_witness :
  let cfg := plugin_initialize in
  let st := startup cfg in
  ∃ st',
    @update_account Reference.env cfg Reference.newaccount_alice st = (tt, st')
    ∧ length (bulk_docs pub_keys_type (new_events st st')) = 2%nat
    ∧ length (bulk_docs account_controls_type (new_events st st')) = 0%nat
    ∧ deleted (new_events st st') = [].
Proof.
  intros cfg st.
  destruct (@newaccount_rows Reference.env cfg Reference.newaccount_alice
              {| na_creator := system_account_name; na_name := Reference.alice;
                 na_owner := {| auth_threshold := 1;
                                auth_keys := Reference.keys_of [7%N];
                                auth_accounts := [] |};
                 na_active := {| auth_threshold := 1;
                                 auth_keys := Reference.keys_of [7%N];
                                 auth_accounts := [] |} |} st)
    as (st' & Hrun & _ & Hk & Hc & Hd & _); [reflexivity..|].
  exists st'. split; [exact Hrun|]. split; [exact Hk|]. split; [exact Hc|exact Hd].
Defined.

Lemma updateauth_replaces_rows_witness :
  let cfg := plugin_initialize in
  let st := startup cfg in
  ∃ st',
    @update_account Reference.env cfg Samples.updateauth_alice st = (tt, st')
    ∧ deleted (new_events st st')
      = [(pub_keys_type,
          Bool_must [("account", "alice"); ("permission", "active")]%string);
         (account_controls_type,
          Bool_must [("controlled_account", "alice");
                     ("controlled_permission", "active")]%string)]
    ∧ length (bulk_docs pub_keys_type (new_events st st')) = 2%nat.
Proof.
  intros cfg st.
  destruct (@updateauth_replaces_rows Reference.env cfg Samples.updateauth_alice
              {| ua_account := Reference.alice; ua_permission := active;
                 ua_parent := 0%N;
                 ua_auth := {| auth_threshold := 1;
                               auth_keys := Reference.keys_of [7%N; 9%N];
                               auth_accounts := [] |} |} st)
    as (st' & Hrun & _ & Hd & Hk & _); [reflexivity..|].
  exists st'. split; [exact Hrun|]. split; [exact Hd|exact Hk].
Defined.

Lemma deleteauth_only_deletes_witness :
  let cfg := plugin_initialize in
  let st := Reference.seeded cfg in
  ∃ st',
    @update_account Reference.env cfg Samples.deleteauth_alice st = (tt, st')
    ∧ es_requests (new_events st st')
      = [Delete_by_query pub_keys_type
           (Bool_must [("account", "alice"); ("permission", "active")]%string);
         Delete_by_query account_controls_type
           (Bool_must [("controlled_account", "alice");
                       ("controlled_permission", "active")]%string)]
    ∧ clock st' = clock st
    ∧ abi_cache_index st' = abi_cache_index st.
Proof.
  intros cfg st.
  apply (@deleteauth_only_deletes Reference.env cfg Samples.deleteauth_alice
           {| da_account := Reference.alice; da_permission := active |} st);
    reflexivity.
Defined.

Lemma undecodable_action_ignored_witness :
  let cfg := plugin_initialize in
  let st := Reference.seeded cfg in
  ∃ st',
    @update_account Reference.env cfg Samples.newaccount_truncated st = (tt, st')
    ∧ new_events st st' = [Update_account_called Samples.newaccount_truncated]
    ∧ abi_cache_index st' = abi_cache_index st
    ∧ start_block_reached st' = start_block_reached st.
Proof.
  intros cfg st.
  apply (@undecodable_action_ignored Reference.env cfg Samples.newaccount_truncated st);
    [reflexivity|]. left. split; reflexivity.
Defined.

(** ** The bulk of action traces *)

Lemma assoc_mvo_set k v fields : assoc k (mvo_set k v fields) = Some v.
Proof.
  induction fields as [|[k' v'] rest IH]; simpl.
  - by rewrite String.eqb_refl.
  - destruct (String.eqb k' k) eqn:Hk; simpl.
    + by rewrite String.eqb_refl.
    + by rewrite Hk.
Qed.

Lemma walk_event_bulk_docs evs :
  Forall walk_event evs →
  bulk_docs action_traces_type evs = [] ∧ bulks_not_empty evs.
Proof.
  induction 1 as [|e evs He _ [IHd IHn]]; [by split; [|constructor]|].
  split.
  - change (e :: evs) with ([e] ++ evs). rewrite bulk_docs_app, IHd, app_nil_r.
    destruct e as [[ty q|ty json id|idx docs|ty q]| |]; try done.
    simpl. rewrite app_nil_r. destruct He as [_ [Hty|Hty]].
    + induction Hty as [|d docs Hd _ IH]; [done|]. simpl. by rewrite Hd.
    + induction Hty as [|d docs Hd _ IH]; [done|]. simpl. by rewrite Hd.
  - constructor; [|done].
    destruct e as [[ty q|ty json id|idx docs|ty q]| |]; try done.
    by destruct He.
Qed.

Lemma admitted_app c reached l1 l2 :
  admitted c reached (l1 ++ l2) = admitted c reached l1 ++ admitted c reached l2.
Proof.
  unfold admitted. destruct (reached && _); [|done].
  by rewrite flat_map_app, List.filter_app.
Qed.

Section Bulk.

Context `{Env} (cfg : config).

Lemma traces_loop_walked_docs now_ms visit l :
  Forall (λ a, ∀ bulk st, walked_docs cfg now_ms [a] bulk st (visit bulk a st)) l →
  ∀ added bulk st,
    walked_docs cfg now_ms l bulk st (traces_loop visit l added bulk st).
Proof.
  induction 1 as [|a rest Ha _ IH]; intros added bulk st.
  - simpl. split; [done|]. split.
    + exists []. rewrite app_nil_r. split; [done|]. split; [|done].
      unfold admitted. by destruct (_ && _).
    + exists []. by rewrite app_nil_r.
  - simpl. unfold bind at 1.
    specialize (Ha bulk st). destruct (visit bulk a st) as [[a1 bulk1] st1].
    destruct Ha as (Hr1 & (docs1 & Hb1 & Hl1 & Hd1) & evs1 & Hh1 & He1).
    cbn [fst snd] in *.
    destruct (IH (added || a1) bulk1 st1)
      as (Hr2 & (docs2 & Hb2 & Hl2 & Hd2) & evs2 & Hh2 & He2).
    split; [congruence|]. split.
    + exists (docs1 ++ docs2). rewrite Hb2, Hb1, app_assoc. split; [done|].
      split; [|by apply Forall_app].
      change (a :: rest) with ([a] ++ rest).
      rewrite admitted_app, !length_app, Hl1, Hl2. by rewrite Hr1.
    + exists (evs1 ++ evs2). rewrite Hh2, Hh1, app_assoc. split; [done|].
      by apply Forall_app.
Qed.

Lemma add_action_trace_walked_docs executed now_ms atrace :
  ∀ bulk st,
    walked_docs cfg now_ms [atrace] bulk st
      (add_action_trace cfg bulk atrace executed now_ms st).
Proof.
  induction atrace as [receiver act inlines IH] using action_trace_forall_ind.
  intros bulk st. simpl add_action_trace. unfold bind at 1.
  assert (Hup : ∃ st1,
    (when (executed && (receiver =? system_account_name)%N)
       (update_account cfg act) st) = (tt, st1)
    ∧ start_block_reached st1 = start_block_reached st
    ∧ ∃ evs, history st1 = history st ++ evs ∧ Forall walk_event evs).
  { destruct (executed && _); simpl.
    - destruct (update_account_walk_events cfg act st) as (Hr & evs & Hh & Hp).
      destruct (update_account cfg act st) as [[] st1]. exists st1.
      split; [done|]. split; [done|]. by exists evs.
    - exists st. split; [done|]. split; [done|]. exists []. by rewrite app_nil_r. }
  destruct Hup as (st1 & -> & Hr1 & evs1 & Hh1 & He1).
  unfold bind at 1, get at 1.
  set (this := start_block_reached st1 && store_action_traces cfg
               && filter_include cfg act).
  unfold bind at 1.
  assert (Hdoc : ∃ docs st2,
    (if this then
       let* doc := to_variant_with_abi cfg (R_action_trace receiver act) in
       ret (true, bulk ++ [(action_traces_type,
                            V_object (mvo_set "createdAt" (V_int now_ms) doc))])
     else ret (false, bulk)) st1 = (this, bulk ++ docs, st2)
    ∧ length docs = (if this then 1 else 0)%nat
    ∧ Forall (action_trace_row now_ms) docs
    ∧ start_block_reached st2 = start_block_reached st1
    ∧ ∃ evs, history st2 = history st1 ++ evs ∧ Forall walk_event evs).
  { destruct this.
    - unfold bind.
      destruct (to_variant_with_abi_emits cfg (R_action_trace receiver act) st1)
        as (Hr & evs & Hh & Hp).
      destruct (to_variant_with_abi cfg _ st1) as [doc st2]. simpl in *.
      eexists [_], st2. split; [done|]. split; [done|]. split.
      { apply Forall_singleton. split; [done|]. apply assoc_mvo_set. }
      split; [done|]. exists evs. split; [done|].
      eapply Forall_impl; [exact Hp|]. by intros [[]| |].
    - exists [], st1. rewrite app_nil_r. split; [done|]. split; [done|].
      split; [done|]. split; [done|]. exists []. by rewrite app_nil_r. }
  destruct Hdoc as (docs2 & st2 & -> & Hl2 & Hd2 & Hr2 & evs2 & Hh2 & He2).
  destruct (traces_loop_walked_docs now_ms
              (λ bulk iline_atrace, add_action_trace cfg bulk iline_atrace executed now_ms)
              inlines IH this (bulk ++ docs2) st2)
    as (Hr3 & (docs3 & Hb3 & Hl3 & Hd3) & evs3 & Hh3 & He3).
  split; [congruence|]. split.
  - exists (docs2 ++ docs3). rewrite Hb3, app_assoc. split; [done|].
    split; [|by apply Forall_app].
    rewrite length_app, Hl2, Hl3, Hr2, Hr1. subst this. rewrite Hr1.
    unfold admitted. simpl. rewrite app_nil_r. unfold passes at 2. simpl.
    destruct (start_block_reached st && store_action_traces cfg); [|done].
    simpl. by destruct (filter_include cfg act).
  - exists (evs1 ++ evs2 ++ evs3). rewrite Hh3, Hh2, Hh1, <- !app_assoc.
    split; [done|]. by repeat apply Forall_app_2.
Qed.

Lemma action_traces_walked_docs executed now_ms l added bulk st :
  walked_docs cfg now_ms l bulk st
    (traces_loop (λ bulk atrace, add_action_trace cfg bulk atrace executed now_ms)
       l added bulk st).
Proof.
  apply traces_loop_walked_docs, Forall_forall. intros a _ bulk' st'.
  apply add_action_trace_walked_docs.
Qed.

(** X12. An applied transaction stores one [action_traces] document for each
    node of its trace tree whose action passes the filter when the gate is
    open and [store_action_traces] is on, and none otherwise; all of them
    carry the one time stamp read at the start, under [createdAt]; and no
    request of the run is an empty bulk. *)
Theorem action_trace_documents (t : transaction_trace) (st : state) :
  ∃ st',
    process_applied_transaction cfg t st = (tt, st')
    ∧ length (bulk_docs action_traces_type (new_events st st'))
      = length (admitted cfg (start_block_reached st) (action_traces t))
    ∧ Forall (λ d, variant_get d "createdAt"
                   = Some (V_int (to_milliseconds (now (clock st)))))
        (bulk_docs action_traces_type (new_events st st'))
    ∧ bulks_not_empty (new_events st st').
Proof.
  destruct (start_block_reached st) eqn:Hopen.
  2:{ rewrite (process_applied_transaction_gate_closed _ _ _ Hopen).
      exists st. split; [done|]. unfold new_events. rewrite drop_all.
      split; [done|]. split; constructor. }
  rewrite (process_applied_transaction_gate_open _ _ _ Hopen).
  unfold _process_applied_transaction. unfold bind at 1. cbn [time_point_now].
  fold (trace_executed t).
  set (now_ms := to_milliseconds (now (clock st))).
  pose proof (action_traces_walked cfg (trace_executed t) now_ms
                (action_traces t) false [] (set_clock (S (clock st)) st)) as Hw.
  pose proof (action_traces_walked_docs (trace_executed t) now_ms
                (action_traces t) false [] (set_clock (S (clock st)) st)) as Hd.
  unfold bind at 1.
  destruct (traces_loop _ _ _ _ _) as [[write_atraces bulk] st1].
  destruct Hw as (_ & Ha1 & _).
  destruct Hd as (Hr1 & (docs & Hb & Hl & Hrows) & evs1 & Hh1 & He1).
  cbn [fst snd start_block_reached history set_clock orb app] in *.
  rewrite Hopen in *. subst bulk.
  destruct (walk_event_bulk_docs _ He1) as [Hnone1 Hne1].
  assert (Hflag : write_atraces = true ↔ docs ≠ []).
  { rewrite Ha1. unfold admitted in Hl. cbn [andb] in *.
    destruct (store_action_traces cfg); cbn [andb].
    - rewrite existsb_exists. split.
      + intros (a & Ha & Hp) ->. simpl in Hl. symmetry in Hl.
        apply length_zero_iff_nil in Hl.
        assert (Hin : In a (List.filter (passes cfg) (flat_map nodes (action_traces t))))
          by (apply List.filter_In; by split).
        rewrite Hl in Hin. destruct Hin.
      + intros Hne. destruct (List.filter (passes cfg) _) as [|a rest] eqn:Hf.
        * destruct docs; [done|discriminate Hl].
        * exists a. apply List.filter_In. rewrite Hf. by left.
    - split; [done|]. intros Hne. destruct docs; [done|discriminate Hl]. }
  assert (Hsent : ∃ st2 evs2,
            when write_atraces (es_bulk_perform cfg docs) st1 = (tt, st2)
            ∧ start_block_reached st2 = start_block_reached st1
            ∧ history st2 = history st1 ++ evs2
            ∧ bulk_docs action_traces_type evs2 = docs.*2
            ∧ bulks_not_empty evs2).
  { destruct write_atraces.
    - eexists _, [_]. split; [reflexivity|]. split; [done|]. split; [done|]. split.
      + simpl. rewrite app_nil_r. clear -Hrows.
        induction Hrows as [|d docs [Hty _] _ IH]; [done|].
        cbn [omap fmap list_omap list_fmap]. rewrite Hty. cbn [String.eqb].
        change (String.eqb action_traces_type action_traces_type) with true.
        cbv iota. f_equal. exact IH.
      + repeat constructor. by apply Hflag.
    - exists st1, []. rewrite app_nil_r. split; [done|]. split; [done|].
      split; [done|]. split; [|constructor].
      destruct docs; [done|]. by destruct (proj2 Hflag). }
  destruct Hsent as (st2 & evs2 & Hrun2 & Hr2 & Hh2 & Hdocs2 & Hne2).
  unfold bind at 1. rewrite Hrun2.
  assert (Htail : ∃ st3 evs3,
            (let* reached := get start_block_reached in
             if negb reached || negb (store_transaction_traces cfg) then ret tt
             else if negb write_atraces then ret tt
             else
               let* doc := to_variant_with_abi cfg (R_transaction_trace t) in
               es_index trans_traces_type
                 (V_object (mvo_set "createAt" (V_int now_ms) doc)) None) st2
            = (tt, st3)
            ∧ history st3 = history st2 ++ evs3
            ∧ bulk_docs action_traces_type evs3 = []
            ∧ bulks_not_empty evs3).
  { unfold bind at 1, get at 1.
    destruct (negb _ || negb _).
    - exists st2, []. rewrite app_nil_r. by repeat split; try constructor.
    - destruct (negb write_atraces).
      + exists st2, []. rewrite app_nil_r. by repeat split; try constructor.
      + unfold bind.
        destruct (to_variant_with_abi_emits cfg (R_transaction_trace t) st2)
          as (_ & evs & Hh & Hp).
        destruct (to_variant_with_abi cfg _ st2) as [doc st3]. cbn [fst snd] in *.
        eexists _, (evs ++ [_]). split; [reflexivity|].
        cbn [es_index record modify_state history set_history snd].
        rewrite Hh, <- app_assoc. split; [reflexivity|].
        assert (Hwalk : Forall walk_event evs).
        { eapply Forall_impl; [exact Hp|]. by intros [[]| |]. }
        destruct (walk_event_bulk_docs _ Hwalk) as [Hn Hb].
        rewrite bulk_docs_app, Hn. split; [done|].
        apply Forall_app. split; [done|]. by repeat constructor. }
  destruct Htail as (st3 & evs3 & Hrun3 & Hh3 & Hdocs3 & Hne3).
  exists st3. split; [exact Hrun3|].
  assert (Hnew : new_events st st3 = evs1 ++ evs2 ++ evs3).
  { apply new_events_app. by rewrite Hh3, Hh2, Hh1, <- !app_assoc. }
  rewrite Hnew, !bulk_docs_app, Hnone1, Hdocs2, Hdocs3, app_nil_r. cbn [app].
  split; [by rewrite length_fmap|]. split.
  - apply Forall_fmap. eapply Forall_impl; [exact Hrows|]. by intros d [_ Hc].
  - unfold bulks_not_empty. by repeat apply Forall_app_2.
Qed.

End Bulk.

(** ** Accepted transactions *)

Lemma assoc_mvo_set_ne k k' v fields :
  k ≠ k' → assoc k (mvo_set k' v fields) = assoc k fields.
Proof.
  intros Hne. induction fields as [|[k0 v0] rest IH]; simpl.
  - destruct (String.eqb_spec k' k); [congruence|done].
  - destruct (String.eqb_spec k0 k') as [->|Hk]; simpl.
    + destruct (String.eqb_spec k' k); [congruence|done].
    + by rewrite IH.
Qed.

Section Accepted.

Context `{Env} `{TrxEnv} (cfg : config).

(** X13. An accepted transaction whose signing keys are at hand (precomputed
    on the metadata, or recovered from the signatures) is indexed as one
    [transactions] document, whether the gate is open or not and whatever
    [store_transactions] says; before it go only the searches of the ABI
    lookups.  The document carries the transaction id, the signing keys (an
    empty set too), the three flags and the time read at the start, whatever
    the rendering of the transaction holds under these names. *)
Theorem accepted_transaction_indexed (t : transaction_metadata) (keys : list string)
    (st : state) :
  tm_signing_keys t = Some keys
  ∨ (tm_signing_keys t = None ∧ get_signature_keys (tm_trx t) = Some keys) →
  ∃ st' searches doc,
    process_accepted_transaction cfg t st = (tt, st')
    ∧ new_events st st' = searches ++ [Es (Index trans_type doc None)]
    ∧ Forall is_search_event searches
    ∧ variant_get doc "trx_id" = Some (V_string (tm_id t))
    ∧ variant_get doc "signing_keys" = Some (V_array (map V_string keys))
    ∧ variant_get doc "accepted" = Some (V_bool (tm_accepted t))
    ∧ variant_get doc "implicit" = Some (V_bool (tm_implicit t))
    ∧ variant_get doc "scheduled" = Some (V_bool (tm_scheduled t))
    ∧ variant_get doc "createdAt" = Some (V_int (to_milliseconds (now (clock st))))
    ∧ start_block_reached st' = start_block_reached st.
Proof.
  intros Hkeys.
  assert (Hk : match tm_signing_keys t with
               | Some keys => Some keys
               | None => get_signature_keys (tm_trx t)
               end = Some keys).
  { destruct Hkeys as [->|[-> ->]]; done. }
  unfold process_accepted_transaction, _process_accepted_transaction.
  unfold bind at 1. unfold bind at 1. cbn [time_point_now].
  unfold bind at 1, trx_to_variant_with_abi. unfold bind at 1.
  destruct (resolve_all_emits cfg (trx_accounts (tm_trx t))
              (set_clock (S (clock st)) st)) as (Hr & searches & Hh & Hp).
  destruct (resolve_all cfg _ _) as [abis st1]. cbn [fst snd ret] in *.
  rewrite Hk. cbn [is_null negb].
  unfold bind, es_index, record, modify_state, ret.
  eexists _, searches, _. split; [reflexivity|].
  split; [apply new_events_app; cbn [history set_history]; rewrite Hh;
          cbn [history set_clock]; by rewrite <- app_assoc|].
  split; [done|]. cbn [variant_get].
  repeat (rewrite assoc_mvo_set_ne by done).
  rewrite !assoc_mvo_set.
  repeat (split; [try done; repeat (rewrite assoc_mvo_set_ne by done);
                  apply assoc_mvo_set|]).
  done.
Qed.

(** X14. When the metadata carries no signing keys and their recovery from
    the signatures throws, the transaction is dropped: no document is
    written for it.  The searches of the ABI lookups were sent by then. *)
Theorem accepted_transaction_dropped (t : transaction_metadata) (st : state) :
  tm_signing_keys t = None → get_signature_keys (tm_trx t) = None →
  ∃ st',
    process_accepted_transaction cfg t st = (tt, st')
    ∧ Forall is_search_event (new_events st st')
    ∧ es_writes (new_events st st') = []
    ∧ start_block_reached st' = start_block_reached st.
Proof.
  intros Hnone Hthrow.
  unfold process_accepted_transaction, _process_accepted_transaction.
  unfold bind at 1. unfold bind at 1. cbn [time_point_now].
  unfold bind at 1, trx_to_variant_with_abi. unfold bind at 1.
  destruct (resolve_all_emits cfg (trx_accounts (tm_trx t))
              (set_clock (S (clock st)) st)) as (Hr & searches & Hh & Hp).
  destruct (resolve_all cfg _ _) as [abis st1]. cbn [fst snd ret] in *.
  rewrite Hnone, Hthrow. unfold ret.
  exists st1. split; [done|].
  rewrite (new_events_app st st1 searches Hh).
  split; [done|]. split; [|done].
  clear -Hp. induction Hp as [|e evs He _ IH]; [done|].
  destruct e as [[ty q|ty json id|idx docs|ty q]| |]; try done.
Qed.

End Accepted.

(** ** The worker *)

Lemma emits_steps {A} P (m : M A) : emits P m → steps P false m.
Proof. intros Hm st. destruct (Hm st) as [Hr He]. by rewrite orb_false_r. Qed.

Lemma steps_ret {A} P (a : A) : steps P false (ret a).
Proof. apply emits_steps, emits_ret. Qed.

Lemma steps_bind {A B} P b1 b2 (m : M A) (k : A → M B) :
  steps P b1 m → (∀ a, steps P b2 (k a)) → steps P (b1 || b2) (bind m k).
Proof.
  intros Hm Hk st. unfold bind.
  destruct (Hm st) as (Hr & evs & Hh & Hp).
  destruct (m st) as [a st1]; simpl in *.
  destruct (Hk a st1) as (Hr' & evs' & Hh' & Hp').
  split; [by rewrite Hr', Hr, orb_assoc|].
  exists (evs ++ evs'). rewrite Hh', Hh, app_assoc. split; [done|].
  by apply Forall_app.
Qed.

Lemma steps_mono {A} (P Q : event → Prop) b (m : M A) :
  (∀ e, P e → Q e) → steps P b m → steps Q b m.
Proof.
  intros HPQ Hm st. destruct (Hm st) as (Hr & evs & Hh & Hp).
  split; [done|]. exists evs. split; [done|]. eapply Forall_impl; eauto.
Qed.

Lemma existsb_never {A} (q : list A) : existsb (λ _, false) q = false.
Proof. by induction q. Qed.

Lemma steps_eq {A} P b b' (m : M A) : b = b' → steps P b m → steps P b' m.
Proof. by intros ->. Qed.

Section WorkerSteps.

Context `{Env} `{TrxEnv} (cfg : config).

Lemma process_queue_steps {A} P (g : A → bool) (process : A → M unit) q :
  (∀ e, steps P (g e) (process e)) →
  steps P (existsb g q) (process_queue process q).
Proof.
  intros Hp. induction q as [|e rest IH]; simpl; [apply steps_ret|].
  apply steps_bind; [apply Hp|]. intros _. apply IH.
Qed.

Lemma timed_steps {A} P b (process : A → M unit) q :
  steps P b (process_queue process q) → steps P b (timed process q).
Proof.
  intros Hq. unfold timed.
  apply (steps_eq _ (false || (b || (false || false))));
    [by rewrite !orb_false_r|].
  apply steps_bind; [apply emits_steps, emits_time_point_now|]. intros _.
  apply steps_bind; [done|]. intros _.
  apply steps_bind; [apply emits_steps, emits_time_point_now|]. intros _.
  apply steps_ret.
Qed.

Lemma is_search_ledger e : is_search_event e → ledger_event e.
Proof. by destruct e as [[]| |]. Qed.

Lemma process_accepted_transaction_emits t :
  emits ledger_event (process_accepted_transaction cfg t).
Proof.
  unfold process_accepted_transaction, _process_accepted_transaction.
  apply emits_bind; [|intros ?; apply emits_ret].
  apply emits_bind; [apply emits_time_point_now|]. intros us.
  apply emits_bind.
  { unfold trx_to_variant_with_abi. apply emits_bind; [|intros ?; apply emits_ret].
    eapply emits_mono; [apply is_search_ledger|apply resolve_all_emits]. }
  intros doc. destruct (match tm_signing_keys t with Some _ => _ | None => _ end);
    [|apply emits_ret].
  apply emits_bind; [|intros ?; apply emits_ret].
  apply emits_record. simpl. auto.
Qed.

Lemma _process_accepted_block_emits bs :
  emits ledger_event (_process_accepted_block cfg bs).
Proof.
  unfold _process_accepted_block.
  apply emits_bind; [apply emits_time_point_now|]. intros us.
  apply emits_bind; [apply emits_record; simpl; auto|]. intros _.
  destruct (negb _); [apply emits_ret|].
  apply emits_bind.
  { eapply emits_mono; [apply is_search_ledger|apply to_variant_with_abi_emits]. }
  intros block. apply emits_record. simpl. auto.
Qed.

Lemma process_accepted_block_run bs st :
  process_accepted_block cfg bs st
  = if start_block_reached st then _process_accepted_block cfg bs st
    else if opens cfg bs
         then _process_accepted_block cfg bs (set_start_block_reached true st)
         else (tt, st).
Proof.
  unfold process_accepted_block, opens, bind, get.
  destruct (start_block_reached st) eqn:Hgate; cbn [negb when ret].
  - by rewrite Hgate.
  - destruct (start_block_num cfg <=? block_num bs); cbn [when ret modify_state].
    + done.
    + by rewrite Hgate.
Qed.

Lemma process_accepted_block_steps bs :
  steps ledger_event (opens cfg bs) (process_accepted_block cfg bs).
Proof.
  intros st. rewrite process_accepted_block_run.
  destruct (start_block_reached st) eqn:Hgate; cbn [orb].
  - destruct (_process_accepted_block_emits bs st) as [Hr He].
    split; [congruence|exact He].
  - destruct (opens cfg bs).
    + destruct (_process_accepted_block_emits bs (set_start_block_reached true st))
        as [Hr He].
      split; [exact Hr|exact He].
    + split; [done|]. exists []. by rewrite app_nil_r.
Qed.

Lemma process_applied_transaction_steps t :
  steps (λ _, True) false (process_applied_transaction cfg t).
Proof.
  intros st. rewrite orb_false_r.
  destruct (start_block_reached st) eqn:Hgate.
  - rewrite (process_applied_transaction_gate_open _ _ _ Hgate).
    destruct (_process_applied_transaction_history cfg t st)
      as (st' & evs & doc & -> & Hr & Hh & _).
    cbn [snd]. split; [congruence|]. exists evs. split; [done|].
    by apply Forall_true.
  - rewrite (process_applied_transaction_gate_closed _ _ _ Hgate).
    split; [done|]. exists []. by rewrite app_nil_r.
Qed.

Lemma process_irreversible_block_steps P bs :
  steps P false (process_irreversible_block bs).
Proof.
  apply emits_steps. unfold process_irreversible_block.
  apply emits_bind; [apply emits_get|]. intros []; apply emits_ret.
Qed.

(** The part of a batch that follows the traces. *)
Lemma ledger_steps q :
  steps ledger_event (existsb (opens cfg) (block_state_queue q))
    (timed (process_accepted_transaction cfg) (transaction_metadata_queue q) ;;;
     timed (process_accepted_block cfg) (block_state_queue q) ;;;
     timed process_irreversible_block (irreversible_block_state_queue q)).
Proof.
  set (b := existsb (opens cfg) (block_state_queue q)).
  apply (steps_eq _ (false || (b || false))); [by rewrite !orb_false_r|].
  apply steps_bind.
  { apply timed_steps.
    apply (steps_eq _ (existsb (λ _, false) (transaction_metadata_queue q))); [apply existsb_never|].
    apply process_queue_steps. intros t.
    apply emits_steps, process_accepted_transaction_emits. }
  intros _. apply steps_bind.
  { apply timed_steps, process_queue_steps, process_accepted_block_steps. }
  intros _. apply timed_steps.
  apply (steps_eq _ (existsb (λ _, false) (irreversible_block_state_queue q))); [apply existsb_never|].
  apply process_queue_steps. intros bs. apply process_irreversible_block_steps.
Qed.

Lemma process_captured_steps q :
  steps (λ _, True) (existsb (opens cfg) (block_state_queue q))
    (process_captured cfg q).
Proof.
  unfold process_captured.
  apply (steps_eq _ (false || existsb (opens cfg) (block_state_queue q)));
    [done|].
  apply steps_bind.
  { apply timed_steps.
    apply (steps_eq _ (existsb (λ _, false) (transaction_trace_queue q))); [apply existsb_never|].
    apply process_queue_steps. intros t. apply process_applied_transaction_steps. }
  intros _. eapply steps_mono; [|apply ledger_steps]. done.
Qed.

Lemma process_queue_applied_closed q st :
  start_block_reached st = false →
  process_queue (process_applied_transaction cfg) q st = (tt, st).
Proof.
  intros Hclosed. induction q as [|t rest IH]; [done|]. simpl. unfold bind.
  by rewrite (process_applied_transaction_gate_closed _ _ _ Hclosed), IH.
Qed.

Lemma ledger_event_quiet evs :
  Forall ledger_event evs →
  projected evs = [] ∧ bulk_docs action_traces_type evs = []
  ∧ indexed action_traces_type evs = [] ∧ indexed trans_traces_type evs = []
  ∧ indexed accounts_type evs = [] ∧ deleted evs = [].
Proof.
  induction 1 as [|e evs He _ (IH1 & IH2 & IH3 & IH4 & IH5 & IH6)]; [done|].
  destruct e as [[ty q|ty json id|idx docs|ty q]| |]; try done.
  simpl in *. destruct He as [[->| [->| ->]] _]; by repeat split.
Qed.

(** X15. The gate after a batch is the gate before it, or open when one of
    the accepted blocks of the batch is at or above [start_block_num]; no
    step of the worker closes it. *)
Theorem batch_gate (q : queues) (st : state) :
  start_block_reached (process_captured cfg q st).2
  = start_block_reached st || existsb (opens cfg) (block_state_queue q).
Proof. apply process_captured_steps. Qed.

(** X16. The traces of a batch are handled before its blocks.  When the gate
    is closed as a batch begins, every applied transaction of the batch is
    dropped, also when an accepted block of the same batch opens the gate:
    no action is projected, no action trace and no transaction trace is
    stored, and no account document is written. *)
Theorem traces_before_gate_dropped (q : queues) (st : state) :
  start_block_reached st = false →
  ∃ st',
    process_captured cfg q st = (tt, st')
    ∧ start_block_reached st' = existsb (opens cfg) (block_state_queue q)
    ∧ projected (new_events st st') = []
    ∧ bulk_docs action_traces_type (new_events st st') = []
    ∧ indexed trans_traces_type (new_events st st') = []
    ∧ indexed accounts_type (new_events st st') = []
    ∧ deleted (new_events st st') = [].
Proof.
  intros Hclosed. unfold process_captured. unfold bind at 1.
  assert (Ht : timed (process_applied_transaction cfg) (transaction_trace_queue q) st
               = (tt, set_clock (S (S (clock st))) st)).
  { unfold timed, bind. cbn [time_point_now].
    by rewrite process_queue_applied_closed. }
  rewrite Ht.
  destruct (ledger_steps q (set_clock (S (S (clock st))) st)) as (Hr & evs & Hh & Hp).
  match goal with
  | |- ∃ st', ?m ?s = _ ∧ _ => destruct (m s) as [[] st']
  end.
  cbn [snd start_block_reached history set_clock] in *.
  exists st'. split; [done|]. rewrite Hclosed in Hr. split; [exact Hr|].
  rewrite (new_events_app st st' evs Hh).
  destruct (ledger_event_quiet evs Hp) as (H1 & H2 & _ & H4 & H5 & H6).
  by repeat split.
Qed.

(** X17. Once the gate is open it stays open, whatever the worker is given
    afterwards: no run of [consume_blocks] closes it. *)
Theorem gate_never_closes (schedule : list wakeup) (st : state) :
  start_block_reached st = true →
  start_block_reached (consume_blocks cfg schedule st).2 = true.
Proof.
  revert st. induction schedule as [|w rest IH]; intros st Hopen; simpl; [done|].
  destruct (no_entries (captured w) && negb (done_at_wait w)); [by apply IH|].
  unfold bind.
  destruct (process_captured_steps (captured w) st) as [Hr _].
  destruct (process_captured cfg (captured w) st) as [[] st1]. cbn [snd] in Hr.
  rewrite Hopen in Hr.
  destruct (no_entries (captured w) && done_at_end w); [done|by apply IH].
Qed.

(** X18. The worker leaves its loop exactly when, at one of its wake-ups, it
    captured nothing and found [done] set, at the wait and again after the
    (empty) batch; with nothing queued and [done] not set it goes back to
    wait, and after a batch that was not empty it goes round again even when
    [done] is set. *)
Theorem worker_exit (schedule : list wakeup) (st : state) :
  (consume_blocks cfg schedule st).1 = Exited
  ↔ existsb last_wakeup schedule = true.
Proof.
  revert st. induction schedule as [|w rest IH]; intros st; simpl; [done|].
  unfold last_wakeup at 1.
  destruct (no_entries (captured w)), (done_at_wait w), (done_at_end w);
    cbn [andb negb orb]; try apply IH;
    unfold bind;
    destruct (process_captured cfg (captured w) st) as [[] st1];
    try apply IH; done.
Qed.

End WorkerSteps.

Lemma traces_before_gate_dropped_witness :
  let cfg := Reference.with_start_block 100 plugin_initialize in
  let st := startup cfg in
  ∃ st',
    @process_captured Reference.env WorkerSamples.trx_env cfg WorkerSamples.batch st
    = (tt, st')
    ∧ start_block_reached st' = true
    ∧ projected (new_events st st') = []
    ∧ indexed accounts_type (new_events st st') = [].
Proof.
  intros cfg st.
  destruct (@traces_before_gate_dropped Reference.env WorkerSamples.trx_env cfg
              WorkerSamples.batch st eq_refl)
    as (st' & Hrun & Hg & Hp & _ & _ & Ha & _).
  exists st'. split; [exact Hrun|]. split; [exact Hg|]. split; [exact Hp|exact Ha].
Defined.

Lemma gate_never_closes_witness :
  let cfg := Reference.with_start_block 100 plugin_initialize in
  let schedule :=
    [{| captured := WorkerSamples.batch; done_at_wait := false; done_at_end := false |};
     {| captured := WorkerSamples.nothing; done_at_wait := true; done_at_end := true |}] in
  start_block_reached
    (@consume_blocks Reference.env WorkerSamples.trx_env cfg schedule
       (set_start_block_reached true (startup cfg))).2 = true.
Proof.
  intros cfg schedule.
  apply (@gate_never_closes Reference.env WorkerSamples.trx_env cfg schedule).
  reflexivity.
Defined.

Lemma accepted_transaction_indexed_witness :
  let cfg := Reference.with_start_block 100 plugin_initialize in
  let st := startup cfg in
  start_block_reached st = false
  ∧ ∃ st' searches doc,
      @process_accepted_transaction Reference.env WorkerSamples.trx_env cfg
        (WorkerSamples.signed ["s1"%string]) st = (tt, st')
      ∧ new_events st st' = searches ++ [Es (Index trans_type doc None)]
      ∧ variant_get doc "trx_id" = Some (V_string "t1")
      ∧ variant_get doc "signing_keys" = Some (V_array [V_string "EOSs1"]).
Proof.
  intros cfg st. split; [reflexivity|].
  destruct (@accepted_transaction_indexed Reference.env WorkerSamples.trx_env cfg
              (WorkerSamples.signed ["s1"%string]) ["EOSs1"%string] st)
    as (st' & searches & doc & Hrun & Hnew & _ & Hid & Hkeys & _).
  - right. split; reflexivity.
  - exists st', searches, doc.
    split; [exact Hrun|]. split; [exact Hnew|]. split; [exact Hid|exact Hkeys].
Defined.

Lemma accepted_transaction_dropped_witness :
  let cfg := plugin_initialize in
  let st := startup cfg in
  ∃ st',
    @process_accepted_transaction Reference.env WorkerSamples.trx_env cfg
      (WorkerSamples.signed ["bad"%string]) st = (tt, st')
    ∧ es_writes (new_events st st') = [].
Proof.
  intros cfg st.
  destruct (@accepted_transaction_dropped Reference.env WorkerSamples.trx_env cfg
              (WorkerSamples.signed ["bad"%string]) st)
    as (st' & Hrun & _ & Hw & _); [reflexivity..|].
  exists st'. split; [exact Hrun|exact Hw].
Defined.

(** ** The producer blacklist plugin *)

Lemma ascii_compare_lt_trans (a b c : ascii) :
  Ascii.compare a b = Lt → Ascii.compare b c = Lt → Ascii.compare a c = Lt.
Proof. unfold Ascii.compare. rewrite !N.compare_lt_iff. lia. Qed.

Lemma string_compare_trans (a : string) :
  ∀ b c, String.compare a b ≠ Gt → String.compare b c ≠ Gt → String.compare a c ≠ Gt.
Proof.
  induction a as [|x a IH]; intros [|y b] [|z c]; simpl; try done.
  destruct (Ascii.compare x y) eqn:Hxy; [|clear IH|done].
  - apply Ascii.compare_eq_iff in Hxy as ->.
    destruct (Ascii.compare y z); [apply IH|done|done].
  - destruct (Ascii.compare y z) eqn:Hyz; [| |done].
    + apply Ascii.compare_eq_iff in Hyz as ->. by rewrite Hxy.
    + by rewrite (ascii_compare_lt_trans x y z).
Qed.

#[global] Instance string_le_trans : Transitive Blacklist.string_le.
Proof.
  intros a b c. unfold Blacklist.string_le, String.leb. intros Hab Hbc.
  pose proof (string_compare_trans a b c) as Ht.
  destruct (String.compare a b), (String.compare b c), (String.compare a c);
    try done; by destruct Ht.
Qed.

#[global] Instance string_le_total : Total Blacklist.string_le.
Proof. intros a b. apply String.leb_total. Qed.

#[global] Instance string_le_antisym : AntiSymm eq Blacklist.string_le.
Proof. intros a b. apply String.leb_antisym. Qed.

(** [std::sort] and the merge sort agree: a sorted arrangement of strings is
    unique. *)
Lemma sorted_unique (l sorted : list string) :
  sorted ≡ₚ l → StronglySorted Blacklist.string_le sorted →
  sorted = merge_sort Blacklist.string_le l.
Proof.
  intros Hperm Hsorted. apply (StronglySorted_unique Blacklist.string_le); [done| |].
  - apply StronglySorted_merge_sort; apply _.
  - by rewrite merge_sort_Permutation.
Qed.

Lemma substring_all (s : string) : String.substring 0 (String.length s) s = s.
Proof. induction s as [|c s IH]; simpl; [done|]. by rewrite IH. Qed.

Lemma substr_to_app (pre rest : string) :
  Blacklist.substr_to (String.length pre) (pre +:+ rest) = pre.
Proof.
  unfold Blacklist.substr_to. induction pre as [|c pre IH]; simpl.
  - by destruct rest.
  - by rewrite IH.
Qed.

Lemma substr_from_app (pre : string) (c : ascii) (rest : string) :
  Blacklist.substr_from (String.length pre + 1) (pre +:+ String c rest) = rest.
Proof.
  unfold Blacklist.substr_from. induction pre as [|b pre IH]; simpl.
  - rewrite Nat.sub_0_r. apply substring_all.
  - exact IH.
Qed.

Lemma find_app (c : ascii) (pre rest : string) :
  Blacklist.find (String c "") pre = None →
  Blacklist.find (String c "") (pre +:+ String c rest) = Some (String.length pre).
Proof.
  unfold Blacklist.find. induction pre as [|b pre IH]; simpl.
  - intros _. destruct (ascii_dec c c); [|done]. by destruct rest.
  - destruct (ascii_dec c b) as [->|Hne].
    + by destruct pre.
    + destruct (String.index 0 (String c "") pre) eqn:Hpre; [done|].
      intros _. by rewrite IH.
Qed.

Lemma find_split (c : ascii) (s : string) (d : nat) :
  Blacklist.find (String c "") s = Some d →
  s = Blacklist.substr_to d s +:+ String c (Blacklist.substr_from (d + 1) s)
  ∧ Blacklist.find (String c "") (Blacklist.substr_to d s) = None.
Proof.
  unfold Blacklist.find, Blacklist.substr_to, Blacklist.substr_from.
  revert d. induction s as [|b s IH]; intros d; simpl; [done|].
  destruct (ascii_dec c b) as [->|Hne].
  - assert (Hp : String.prefix "" s = true) by (by destruct s).
    rewrite Hp. intros [= <-]. simpl. rewrite Nat.sub_0_r, substring_all.
    by split.
  - destruct (String.index 0 (String c "") s) as [n|] eqn:Hs; [|done].
    intros [= <-]. destruct (IH n eq_refl) as [Heq Hnone]. simpl.
    split; [exact (f_equal (String b) Heq)|].
    destruct (ascii_dec c b); [done|]. by rewrite Hnone.
Qed.

Lemma actor_blacklist_str_perm (actors actors' : list string) :
  actors ≡ₚ actors' →
  Blacklist.actor_blacklist_str actors = Blacklist.actor_blacklist_str actors'.
Proof.
  intros Hperm. unfold Blacklist.actor_blacklist_str.
  rewrite (sorted_unique actors' (merge_sort Blacklist.string_le actors)); [done| |].
  - by rewrite merge_sort_Permutation.
  - apply StronglySorted_merge_sort; apply _.
Qed.

Section BlacklistPlugin.

Context {public_key private_key_t : Type}.
Context (sha256 : string → string).
Context (public_key_type : string → option public_key).
Context (private_key : string → option private_key_t).

(** X22. The hash of the actor blacklist does not depend on the order in
    which the actors are given: the list is sorted before it is put into
    lines and hashed, so two configurations that list the same actors (each
    as often) initialise the plugin alike. *)
Theorem actor_blacklist_hash_order (i : option Z) (p : option (string * list string))
    (sp : option string) (actors actors' : list string) (my : @Blacklist.producer_blacklist_plugin_impl public_key private_key_t) :
  actors ≡ₚ actors' →
  (Blacklist.plugin_initialize sha256 public_key_type private_key) {| Blacklist.blacklist_check_interval := i;
                Blacklist.opt_producer_name := p;
                Blacklist.actor_blacklist := Some actors;
                Blacklist.blacklist_signature_provider := sp |} my
  = (Blacklist.plugin_initialize sha256 public_key_type private_key) {| Blacklist.blacklist_check_interval := i;
                  Blacklist.opt_producer_name := p;
                  Blacklist.actor_blacklist := Some actors';
                  Blacklist.blacklist_signature_provider := sp |} my.
Proof.
  intros Hperm. unfold Blacklist.plugin_initialize. cbn [Blacklist.actor_blacklist].
  by rewrite (actor_blacklist_str_perm actors actors' Hperm).
Qed.

Lemma signature_provider_key (pub data : string) (my : @Blacklist.producer_blacklist_plugin_impl public_key private_key_t) :
  Blacklist.find "=" pub = None →
  Blacklist.signature_provider public_key_type private_key
    (pub +:+ "=KEY:" +:+ data) my
  = pubkey ← public_key_type pub;
    key ← private_key data;
    Some {| Blacklist.interval := Blacklist.interval my;
            Blacklist.timer_period := Blacklist.timer_period my;
            Blacklist.producer_name := Blacklist.producer_name my;
            Blacklist.actor_blacklist_hash := Blacklist.actor_blacklist_hash my;
            Blacklist._blacklist_private_key := Some key;
            Blacklist._blacklist_public_key := Some pubkey |}.
Proof.
  intros Hpub. unfold Blacklist.signature_provider.
  change (pub +:+ "=KEY:" +:+ data) with (pub +:+ String "=" ("KEY:" +:+ data)).
  rewrite (find_app "=" pub _ Hpub). cbn [mbind option_bind].
  rewrite substr_to_app, substr_from_app.
  change ("KEY:" +:+ data) with ("KEY" +:+ String ":" data).
  rewrite (find_app ":" "KEY" data eq_refl). cbn [mbind option_bind].
  rewrite (substr_to_app "KEY"), (substr_from_app "KEY").
  done.
Qed.

(** X23. A signature provider [<public key>=KEY:<data>] whose public key text
    holds no [=] and parses, and whose data parses as a private key, sets
    both keys; the data may itself hold [=] and [:], since the text is cut
    at the first [=] and then at the first [:] after it.  The other settings
    are as without the provider. *)
Theorem signature_provider_sets_both_keys (opts : Blacklist.options) (pub data : string)
    (pubkey : public_key) (key : private_key_t) (my : @Blacklist.producer_blacklist_plugin_impl public_key private_key_t) :
  Blacklist.blacklist_signature_provider opts = Some (pub +:+ "=KEY:" +:+ data) →
  Blacklist.find "=" pub = None →
  public_key_type pub = Some pubkey → private_key data = Some key →
  let without :=
    (Blacklist.plugin_initialize sha256 public_key_type private_key) {| Blacklist.blacklist_check_interval := Blacklist.blacklist_check_interval opts;
                  Blacklist.opt_producer_name := Blacklist.opt_producer_name opts;
                  Blacklist.actor_blacklist := Blacklist.actor_blacklist opts;
                  Blacklist.blacklist_signature_provider := None |} my in
  (Blacklist.plugin_initialize sha256 public_key_type private_key) opts my
  = {| Blacklist.interval := Blacklist.interval without;
       Blacklist.timer_period := Blacklist.timer_period without;
       Blacklist.producer_name := Blacklist.producer_name without;
       Blacklist.actor_blacklist_hash := Blacklist.actor_blacklist_hash without;
       Blacklist._blacklist_private_key := Some key;
       Blacklist._blacklist_public_key := Some pubkey |}.
Proof.
  intros Hsp Hpub Hpk Hsk without. subst without.
  unfold Blacklist.plugin_initialize at 1. rewrite Hsp.
  rewrite (signature_provider_key pub data _ Hpub), Hpk, Hsk.
  reflexivity.
Qed.

(** X24. The signature provider sets both keys or none.  Whatever the
    options, after [plugin_initialize] the two keys are the ones from before,
    or both are new, and then the provider has the form
    [<public key>=KEY:<data>] with both parts parsed: a missing [=] or [:],
    a public or private key that does not parse, the type [KEOSD] and any
    other type leave the keys alone. *)
Theorem signature_provider_both_or_neither (opts : Blacklist.options) (my : @Blacklist.producer_blacklist_plugin_impl public_key private_key_t) :
  let my' := (Blacklist.plugin_initialize sha256 public_key_type private_key) opts my in
  (Blacklist._blacklist_private_key my' = Blacklist._blacklist_private_key my
   ∧ Blacklist._blacklist_public_key my' = Blacklist._blacklist_public_key my)
  ∨ ∃ pub data pubkey key,
      Blacklist.blacklist_signature_provider opts = Some (pub +:+ "=KEY:" +:+ data)
      ∧ Blacklist.find "=" pub = None
      ∧ public_key_type pub = Some pubkey ∧ private_key data = Some key
      ∧ Blacklist._blacklist_private_key my' = Some key
      ∧ Blacklist._blacklist_public_key my' = Some pubkey.
Proof.
  intros my'. subst my'. unfold Blacklist.plugin_initialize.
  set (my1 := match Blacklist.blacklist_check_interval opts with
              | Some _ => _ | None => my end).
  set (my2 := match Blacklist.opt_producer_name opts with
              | Some _ => _ | None => my1 end).
  set (my3 := match Blacklist.actor_blacklist opts with
              | Some _ => _ | None => my2 end).
  assert (Hkeys : Blacklist._blacklist_private_key my3
                  = Blacklist._blacklist_private_key my
                  ∧ Blacklist._blacklist_public_key my3
                    = Blacklist._blacklist_public_key my).
  { subst my3 my2 my1.
    by destruct (Blacklist.actor_blacklist opts), (Blacklist.opt_producer_name opts),
      (Blacklist.blacklist_check_interval opts). }
  clearbody my3. clear my1 my2.
  destruct (Blacklist.blacklist_signature_provider opts) as [spec|]; [|by left].
  unfold Blacklist.signature_provider.
  destruct (Blacklist.find "=" spec) as [delim|] eqn:Hdelim;
    cbn [mbind option_bind]; [|by left].
  destruct (find_split "=" spec delim Hdelim) as [Hspec Hpub].
  set (pub := Blacklist.substr_to delim spec) in *.
  set (spec_str := Blacklist.substr_from (delim + 1) spec) in *.
  destruct (Blacklist.find ":" spec_str) as [spec_delim|] eqn:Hsd;
    cbn [mbind option_bind]; [|by left].
  destruct (find_split ":" spec_str spec_delim Hsd) as [Hstr _].
  set (ty := Blacklist.substr_to spec_delim spec_str) in *.
  set (data := Blacklist.substr_from (spec_delim + 1) spec_str) in *.
  destruct (public_key_type pub) as [pubkey|] eqn:Hpk;
    cbn [mbind option_bind]; [|by left].
  destruct (String.eqb_spec ty "KEY") as [Hty|_].
  - destruct (private_key data) as [key|] eqn:Hsk;
      cbn [mbind option_bind]; [|by left].
    right. exists pub, data, pubkey, key.
    split; [|by repeat split].
    f_equal. rewrite Hspec, Hstr, Hty. reflexivity.
  - left. by destruct (String.eqb ty "KEOSD").
Qed.

End BlacklistPlugin.

Lemma actor_blacklist_hash_order_witness :
  Blacklist.plugin_initialize (λ text, text) Blacklist.sample_public_key
    Blacklist.sample_private_key
    (Blacklist.only_actors ["bob"; "alice"]%string) Blacklist.fresh
  = Blacklist.plugin_initialize (λ text, text) Blacklist.sample_public_key
      Blacklist.sample_private_key
      (Blacklist.only_actors ["alice"; "bob"]%string) Blacklist.fresh.
Proof.
  apply (actor_blacklist_hash_order (λ text, text) Blacklist.sample_public_key
           Blacklist.sample_private_key None None None
           ["bob"; "alice"]%string ["alice"; "bob"]%string Blacklist.fresh).
  apply Permutation_swap.
Defined.

Lemma signature_provider_sets_both_keys_witness :
  let my' := Blacklist.plugin_initialize (λ text, text) Blacklist.sample_public_key
               Blacklist.sample_private_key
               (Blacklist.only_provider "EOS6MR=KEY:5K=a:b") Blacklist.fresh in
  Blacklist._blacklist_private_key my' = Some "5K=a:b"%string
  ∧ Blacklist._blacklist_public_key my' = Some "EOS6MR"%string.
Proof.
  intros my'. subst my'.
  rewrite (signature_provider_sets_both_keys (λ text, text)
             Blacklist.sample_public_key Blacklist.sample_private_key
             (Blacklist.only_provider "EOS6MR=KEY:5K=a:b") "EOS6MR" "5K=a:b"
             "EOS6MR"%string "5K=a:b"%string Blacklist.fresh
             eq_refl eq_refl eq_refl eq_refl).
  split; reflexivity.
Defined.

(** ** What the worker does not read *)

Section Unread.

Context `{Env} `{TrxEnv}.

(** X19. [store_block_states] and [store_transactions] are never read: the
    worker does the same, request for request, whatever their values. *)
Theorem store_flags_unread (c : config) (block_states transactions : bool)
    (schedule : list wakeup) (st : state) :
  consume_blocks (with_store_flags block_states transactions c) schedule st
  = consume_blocks c schedule st.
Proof. reflexivity. Qed.

Lemma process_queue_irreversible (l : list block_state) (st : state) :
  process_queue process_irreversible_block l st = (tt, st).
Proof.
  induction l as [|bs rest IH]; [done|]. simpl. unfold bind at 1.
  assert (Hone : process_irreversible_block bs st = (tt, st)).
  { unfold process_irreversible_block, bind, get. by destruct (start_block_reached st). }
  by rewrite Hone.
Qed.

(** X20. Irreversible blocks have no effect: a batch is processed as the
    same batch without them, to the same state. *)
Theorem irreversible_blocks_ignored (c : config) (q : queues) (st : state) :
  process_captured c q st = process_captured c (without_irreversible q) st.
Proof.
  unfold process_captured. cbn [without_irreversible transaction_metadata_queue
    transaction_trace_queue block_state_queue irreversible_block_state_queue].
  unfold bind.
  destruct (timed (process_applied_transaction c) _ st) as [[] st1].
  destruct (timed (process_accepted_transaction c) _ st1) as [[] st2].
  destruct (timed (process_accepted_block c) _ st2) as [[] st3].
  unfold timed, bind. cbn [time_point_now].
  by rewrite !process_queue_irreversible.
Qed.

(** X21. The block number of the documents is the block height cast to a
    signed 32-bit integer: heights below 2^31 are stored as they are, heights
    from 2^31 on are stored negative, and the height is recovered from the
    stored number modulo 2^32. *)
Theorem block_num_stored (bs : block_state) (block : list (string * variant))
    (now_ms : Z) :
  0 ≤ block_num bs < 2 ^ 32 →
  ∃ n,
    variant_get (block_state_doc bs now_ms) "block_num" = Some (V_int n)
    ∧ variant_get (block_doc bs block now_ms) "block_num" = Some (V_int n)
    ∧ - 2 ^ 31 ≤ n < 2 ^ 31
    ∧ n mod 2 ^ 32 = block_num bs
    ∧ (n = block_num bs ↔ block_num bs < 2 ^ 31)
    ∧ (n < 0 ↔ 2 ^ 31 ≤ block_num bs).
Proof.
  intros Hrange. exists (to_int32 (block_num bs)).
  split; [done|]. split; [done|]. unfold to_int32.
  destruct (Z.ltb_spec (block_num bs) (2 ^ 31)) as [Hlt|Hge].
  - split; [lia|]. split; [apply Z.mod_small; lia|]. split; [tauto|lia].
  - split; [lia|]. split; [|split; lia].
    replace (block_num bs - 2 ^ 32) with (block_num bs + (-1) * 2 ^ 32) by lia.
    rewrite Z.mod_add by lia. apply Z.mod_small. lia.
Qed.

End Unread.

Lemma block_num_stored_witness :
  ∃ n,
    variant_get (@block_state_doc Reference.env (Reference.block (2 ^ 31)) 0) "block_num"
    = Some (V_int n)
    ∧ n = - 2 ^ 31.
Proof.
  destruct (@block_num_stored Reference.env (Reference.block (2 ^ 31)) [] 0)
    as (n & Hdoc & _ & _ & Hmod & _ & Hneg); [simpl; lia|].
  exists n. split; [exact Hdoc|].
  injection Hdoc as <-. reflexivity.
Defined.

Lemma reference_backend_hits : @backend_hits Reference.env.
Proof.
  intros h ty q v Hv. unfold search in Hv. simpl in Hv. unfold Reference.search in Hv.
  apply list_elem_of_fmap in Hv as (d & -> & _). reflexivity.
Qed.

Lemma setabi_upsert_unreachable_witness :
  let cfg := plugin_initialize in
  Es (Index accounts_type V_null (Some "0"%string))
  ∉ new_events (Reference.seeded cfg)
      (@update_account Reference.env cfg Reference.setabi_alice
         (Reference.seeded cfg)).2.
Proof.
  intros cfg.
  apply (@setabi_upsert_unreachable Reference.env cfg Reference.setabi_alice
           {| sa_account := Reference.alice; sa_abi := [2%N] |}
           (Reference.seeded cfg));
    [exact reference_backend_hits|reflexivity..].
Defined.

Lemma queue_all_monotone_witness :
  let cfg := Reference.with_max_queue_size 2 plugin_initialize in
  ∃ ss st',
    queue_all cfg id [] [1; 2; 3; 4; 5]%nat (startup cfg)
    = ([1; 2; 3; 4; 5]%nat, ss, st')
    ∧ StronglySorted Z.le (0 :: ss)
    ∧ length ss = 5%nat.
Proof.
  intros cfg.
  apply (queue_all_monotone cfg [1; 2; 3; 4; 5]%nat [] (startup cfg)).
  - simpl. lia.
  - unfold int_max. simpl. lia.
Defined.

(** ** The states the worker is in *)







Lemma trace_document_indexed_cases `{Env} (cfg : config) (t : transaction_trace)
    (st : state) :
  trace_document_indexed cfg st t ↔
    some_trace_passes cfg t = true ∧ store_action_traces cfg = true
    ∧ store_transaction_traces cfg = true ∧ start_block_reached st = true.
Proof.
  unfold trace_document_indexed.
  destruct (start_block_reached st) eqn:Hgate.
  - rewrite (process_applied_transaction_gate_open _ _ _ Hgate).
    destruct (_process_applied_transaction_history cfg t st)
      as (st' & evs & doc & -> & _ & Hh & _ & Hi).
    cbn [snd]. rewrite (new_events_app _ _ _ Hh), Hi, Hgate. simpl.
    destruct (store_action_traces cfg), (some_trace_passes cfg t),
      (store_transaction_traces cfg); simpl; split; try done;
      intros; intuition congruence.
  - rewrite (process_applied_transaction_gate_closed _ _ _ Hgate).
    unfold new_events. simpl. rewrite drop_all.
    split; [done|]. intros (_ & _ & _ & ?). done.
Qed.

(** C2. [store_action_traces] is initialised to true and never assigned.
    With it set, a [transaction_traces] document is indexed for an applied
    transaction if and only if one of its action traces passes the filter,
    [store_transaction_traces] is set and the gate is open. *)
Theorem trace_document_iff_passes `{Env} (cfg : config) (t : transaction_trace)
    (st : state) :
  store_action_traces cfg = true →
  (trace_document_indexed cfg st t ↔
     some_trace_passes cfg t = true ∧ store_transaction_traces cfg = true
     ∧ start_block_reached st = true).
Proof.
  intros Hstore. rewrite trace_document_indexed_cases, Hstore. tauto.
Qed.

Lemma trace_document_iff_passes_witness :
  let cfg := plugin_initialize in
  let t := Reference.executed_trace [Action_trace Reference.bob Reference.transfer []] in
  @trace_document_indexed Reference.env cfg (@started Reference.env cfg 0) t.
Proof.
  intros cfg t.
  apply (proj2 (@trace_document_iff_passes Reference.env cfg t
                  (@started Reference.env cfg 0) eq_refl)).
  split; [by vm_compute|]. split; reflexivity.
Defined.
